(** * Chameleon traffic mediator: rule engine, pending registry, route
      handler and replay header partition of [backend/browser.py].

    Strings are byte strings with ASCII case folding; a Python [dict] of
    headers is an association list in insertion order with unique keys; the
    registry [pending_items] is a finite map.  Library calls whose result the
    program only consumes ([re.sub], [json.loads], [json.dumps], [int]) are
    fields of the class [PyRuntime]. *)

From Stdlib Require Import ZArith String Ascii List Bool Lia DecimalString DecimalZ.
From stdpp Require Import base option list strings gmap.

Local Open Scope string_scope.
Local Open Scope Z_scope.
Local Open Scope list_scope.

(** ** Outcome of an operation that may raise

    [Raised]: the operation raised an exception of class [Exception].  What
    is not an [Exception] -- [asyncio.CancelledError] when the handler's
    task is cancelled, [KeyboardInterrupt] -- is no outcome here: the
    development follows the handler as long as its task is not cancelled. *)

Inductive outcome (A : Type) : Type :=
| Ok (a : A)
| Raised.
Arguments Ok {A} a.
Arguments Raised {A}.

(** ** Python string operations used by the mediator *)

Module Str.

Definition is_empty (s : string) : bool :=
  match s with EmptyString => true | String _ _ => false end.

Definition lower_ascii (c : ascii) : ascii :=
  let n := nat_of_ascii c in
  if ((65 <=? n) && (n <=? 90))%nat then ascii_of_nat (n + 32) else c.

(** [s.lower()] on ASCII text.  ([str.lower] also folds a few characters
    outside ASCII, such as U+212A to [k]; on names that hold them the two
    differ.) *)
Fixpoint lower (s : string) : string :=
  match s with
  | EmptyString => EmptyString
  | String c s' => String (lower_ascii c) (lower s')
  end.

Fixpoint drop (n : nat) (s : string) : string :=
  match n, s with
  | S n', String _ s' => drop n' s'
  | _, _ => s
  end.

(** [sub in s] *)
Fixpoint contains (sub s : string) : bool :=
  String.prefix sub s ||
  match s with
  | EmptyString => false
  | String _ s' => contains sub s'
  end.

(** [s.split(sep, 1)] when [sep in s]: the text before and after the
    leftmost occurrence. *)
Fixpoint split_once (sep s : string) : option (string * string) :=
  if String.prefix sep s then Some (EmptyString, drop (String.length sep) s)
  else match s with
       | EmptyString => None
       | String c s' =>
           match split_once sep s' with
           | Some (a, b) => Some (String c a, b)
           | None => None
           end
       end.

(** [s.split(c)] for a one-character separator: empty fields are kept. *)
Fixpoint split (c : ascii) (s : string) : list string :=
  match s with
  | EmptyString => [EmptyString]
  | String a s' =>
      if Ascii.eqb a c then EmptyString :: split c s'
      else match split c s' with
           | w :: ws => String a w :: ws
           | [] => [String a EmptyString]
           end
  end.

Fixpoint replace_from (old new : string) (skip : nat) (s : string) : string :=
  match s with
  | EmptyString => EmptyString
  | String c s' =>
      match skip with
      | S k => replace_from old new k s'
      | O =>
          if String.prefix old s
          then new +:+ replace_from old new (String.length old - 1) s'
          else String c (replace_from old new 0 s')
      end
  end.

Fixpoint intersperse (new s : string) : string :=
  match s with
  | EmptyString => new
  | String c s' => new +:+ String c (intersperse new s')
  end.

(** [s.replace(old, new)]: every occurrence, leftmost first, not
    overlapping; an empty [old] matches between all characters. *)
Definition replace (old new s : string) : string :=
  if is_empty old then intersperse new s else replace_from old new 0 s.

(** [str(n)] for an [int] *)
Definition of_int (z : Z) : string := NilZero.string_of_int (Z.to_int z).

End Str.

(** ** Header dictionaries *)

Definition dict := list (string * string).

(** [d[k] = v]: an existing key keeps its position. *)
Fixpoint dict_set (k v : string) (d : dict) : dict :=
  match d with
  | [] => [(k, v)]
  | (k', v') :: d' =>
      if String.eqb k' k then (k', v) :: d' else (k', v') :: dict_set k v d'
  end.

(** [d.get(k)] *)
Fixpoint dict_get (k : string) (d : dict) : option string :=
  match d with
  | [] => None
  | (k', v) :: d' => if String.eqb k' k then Some v else dict_get k d'
  end.

(** [d.update(o)] *)
Definition dict_update (d o : dict) : dict :=
  fold_left (fun acc kv => dict_set (fst kv) (snd kv) acc) o d.

Definition keys (d : dict) : list string := map fst d.

(** ** Data model *)

(** [project_manager.MatchReplaceRule] *)
Record MatchReplaceRule := {
  enabled : bool;
  item : string;
  match_ : string;
  replace : string;
  isRegex : bool;
  comment : string
}.

(** What [json.loads] makes of an [X-Antigravity-Override] value, as far as
    the route handler looks at it: whether the value is truthy and what
    [dict.update] does with it ([None]: it raises). *)
Inductive json_result :=
| JsonError
| JsonValue (truthy : bool) (pairs : option dict).

Class PyRuntime := {
  (** [re.sub(pattern, repl, string)]; [Raised] for [re.error] and the like *)
  re_sub : string -> string -> string -> outcome string;
  json_loads : string -> json_result;
  json_dumps : dict -> string;
  (** [int(s)]; [None] for [ValueError] *)
  py_int : string -> option Z
}.

(** The [data] argument and the result of [_apply_match_replace]. *)
Inductive mr_data :=
| Headers (h : dict)
| Body (b : option string)
| RequestLine (method url : string)
| ResponseLine (status : Z).

(** ** Rule engine *)

Section RuleEngine.
Context `{PyRuntime}.

(** One rule on one piece of text: the [if rule.isRegex: try ... except:
    pass / else: ....replace(...)] block, which appears four times. *)
Definition apply_rule (rule : MatchReplaceRule) (line : string) : string :=
  if isRegex rule then
    match re_sub (match_ rule) (replace rule) line with
    | Ok new_line => new_line
    | Raised => line
    end
  else Str.replace (match_ rule) (replace rule) line.

Definition apply_rules (rules : list MatchReplaceRule) (line : string) : string :=
  fold_left (fun l rule => apply_rule rule l) rules line.

Definition header_line (kv : string * string) : string :=
  fst kv +:+ ": " +:+ snd kv.

Definition rewrite_lines (rule : MatchReplaceRule) (header_lines : list string)
  : list string :=
  List.filter (fun new_line => negb (Str.is_empty new_line))
              (map (apply_rule rule) header_lines).

Definition parse_line (line : string) : option (string * string) :=
  if Str.contains ": " line then Str.split_once ": " line
  else if Str.contains ":" line then Str.split_once ":" line
  else None.

(** Body of [for line in new_lines] *)
Definition store_line (new_headers : dict) (line : string) : dict :=
  match parse_line line with
  | Some (k, v) => dict_set k v new_headers
  | None => new_headers
  end.

Definition reparse (new_lines : list string) : dict :=
  fold_left store_line new_lines [].

(** Body of [for rule in rules] on a header dictionary. *)
Definition apply_header_rule (rule : MatchReplaceRule) (h : dict) : dict :=
  reparse (rewrite_lines rule (map header_line h)).

Definition rewrite_headers (rules : list MatchReplaceRule) (h : dict) : dict :=
  fold_left (fun h rule => apply_header_rule rule h) rules h.

Definition request_line (method url : string) : string :=
  method +:+ " " +:+ url +:+ " HTTP/1.1".

Definition status_line (status : Z) : string :=
  "HTTP/1.1 " +:+ Str.of_int status.

Definition selected (item_type : string) (rule : MatchReplaceRule) : bool :=
  enabled rule && String.eqb (item rule) item_type.

Definition is_in (s : string) (l : list string) : bool :=
  existsb (String.eqb s) l.

Definition _apply_match_replace (match_replace_rules : list MatchReplaceRule)
    (item_type : string) (data : mr_data) : mr_data :=
  let rules := List.filter (selected item_type) match_replace_rules in
  match rules with
  | [] => data
  | _ =>
    if is_in item_type ["Request header"; "Response header"] then
      match data with
      | Headers h => Headers (rewrite_headers rules h)
      | _ => data
      end
    else if is_in item_type ["Request body"; "Response body"] then
      match data with
      | Body None => Body None
      | Body (Some body) => Body (Some (apply_rules rules body))
      | _ => data
      end
    else if String.eqb item_type "Request first line" then
      match data with
      | RequestLine method url =>
          let line := apply_rules rules (request_line method url) in
          match Str.split " " line with
          | p0 :: p1 :: _ => RequestLine p0 p1
          | _ => data
          end
      | _ => data
      end
    else if String.eqb item_type "Response first line" then
      match data with
      | ResponseLine status =>
          let line := apply_rules rules (status_line status) in
          match Str.split " " line with
          | _ :: p1 :: _ =>
              match py_int p1 with
              | Some n => ResponseLine n
              | None => data
              end
          | _ => data
          end
      | _ => data
      end
    else data
  end.

End RuleEngine.

(** ** Captured items, pending registry and manager state *)

Record CapturedRequest := {
  cq_id : string;
  cq_method : string;
  cq_url : string;
  cq_headers : dict;
  cq_body : option string;
  cq_resourceType : string;
  cq_timestamp : Z;
  cq_pending : bool
}.

Record CapturedResponse := {
  cs_id : string;
  cs_req_id : string;
  cs_url : string;
  cs_status : Z;
  cs_headers : dict;
  cs_body : string;
  cs_pending : bool;
  cs_timestamp : Z
}.

Inductive capture :=
| CaptureRequest (d : CapturedRequest)
| CaptureResponse (d : CapturedResponse).

Inductive item_kind := KRequest | KResponse.

Inductive action := Forward | Drop.

(** The [modified] dictionary of a [forward] command; [None] is an absent
    key. *)
Record overrides := {
  o_method : option string;
  o_url : option string;
  o_headers : option dict;
  o_body : option string;
  o_status : option Z
}.

Definition no_overrides : overrides :=
  {| o_method := None; o_url := None; o_headers := None; o_body := None;
     o_status := None |}.

Definition present {A : Type} (x : option A) : bool :=
  match x with Some _ => true | None => false end.

(** Truth value of the dictionary: [{}] is false. *)
Definition overrides_truthy (o : overrides) : bool :=
  present (o_method o) || present (o_url o) || present (o_headers o)
  || present (o_body o) || present (o_status o).

(** An entry of [pending_items]; [p_event] is the state of its
    [asyncio.Event]. *)
Record PendingItem := {
  p_type : item_kind;
  p_data : capture;
  p_event : bool;
  p_action : option action;
  p_modified : option overrides
}.

Record BrowserManager := {
  on_request_captured : bool;
  intercept_requests : bool;
  intercept_responses : bool;
  pending_items : gmap string PendingItem;
  match_replace_rules : list MatchReplaceRule
}.

Definition with_pending (self : BrowserManager) (p : gmap string PendingItem)
  : BrowserManager :=
  {| on_request_captured := on_request_captured self;
     intercept_requests := intercept_requests self;
     intercept_responses := intercept_responses self;
     pending_items := p;
     match_replace_rules := match_replace_rules self |}.

Definition set_intercept_requests (enabled : bool) (self : BrowserManager)
  : BrowserManager :=
  {| on_request_captured := on_request_captured self;
     intercept_requests := enabled;
     intercept_responses := intercept_responses self;
     pending_items := pending_items self;
     match_replace_rules := match_replace_rules self |}.

Definition set_intercept_responses (enabled : bool) (self : BrowserManager)
  : BrowserManager :=
  {| on_request_captured := on_request_captured self;
     intercept_requests := intercept_requests self;
     intercept_responses := enabled;
     pending_items := pending_items self;
     match_replace_rules := match_replace_rules self |}.

Definition set_rules (rules : list MatchReplaceRule) (self : BrowserManager)
  : BrowserManager :=
  {| on_request_captured := on_request_captured self;
     intercept_requests := intercept_requests self;
     intercept_responses := intercept_responses self;
     pending_items := pending_items self;
     match_replace_rules := rules |}.

(** [forward_item]: the result and the manager afterwards. *)
Definition forward_item (item_id : string) (modified_data : option overrides)
    (self : BrowserManager) : bool * BrowserManager :=
  match pending_items self !! item_id with
  | Some item =>
      let modified :=
        match modified_data with
        | Some m => if overrides_truthy m then Some m else p_modified item
        | None => p_modified item
        end in
      (true,
       with_pending self
         (<[item_id := {| p_type := p_type item; p_data := p_data item;
                          p_event := true; p_action := Some Forward;
                          p_modified := modified |}]> (pending_items self)))
  | None => (false, self)
  end.

(** [drop_item] *)
Definition drop_item (item_id : string) (self : BrowserManager)
  : bool * BrowserManager :=
  match pending_items self !! item_id with
  | Some item =>
      (true,
       with_pending self
         (<[item_id := {| p_type := p_type item; p_data := p_data item;
                          p_event := true; p_action := Some Drop;
                          p_modified := p_modified item |}]> (pending_items self)))
  | None => (false, self)
  end.

(** What the control channel does to the manager between two suspension
    points of a pipeline ([main.websocket_endpoint], [main.save_project]). *)
Inductive command :=
| CmdInterceptRequests (enabled : bool)
| CmdInterceptResponses (enabled : bool)
| CmdForward (item_id : string) (modified : option overrides)
| CmdDrop (item_id : string)
| CmdRules (rules : list MatchReplaceRule).

Definition run_command (self : BrowserManager) (c : command) : BrowserManager :=
  match c with
  | CmdInterceptRequests b => set_intercept_requests b self
  | CmdInterceptResponses b => set_intercept_responses b self
  | CmdForward i m => snd (forward_item i m self)
  | CmdDrop i => snd (drop_item i self)
  | CmdRules r => set_rules r self
  end.

Definition run_commands (cs : list command) (self : BrowserManager)
  : BrowserManager :=
  fold_left run_command cs self.

(** ** The browser boundary *)

(** A Playwright [Request]: [all_headers] and [post_data] may raise. *)
Record Request := {
  method : string;
  url : string;
  all_headers : outcome dict;
  post_data : outcome (option string);
  resource_type : string
}.

(** The [APIResponse] returned by [route.fetch]. *)
Record APIResponse := {
  resp_url : string;
  resp_status : Z;
  resp_headers : dict;
  resp_text : outcome string
}.

(** Arguments of [route.continue_] and [route.fetch]. *)
Record dispatch := {
  d_method : string;
  d_url : string;
  d_headers : dict;
  d_post_data : option string
}.

(** Calls the handler makes on the route and on the capture callback, in the
    order made. *)
Inductive route_call :=
| Captured (c : capture)
| RouteAbort
| RouteContinue (args : option dispatch)
| RouteFetch (args : dispatch)
| RouteFulfill (status : Z) (h : dict) (body : string).

(** The [await] expressions of [_route_handler]. *)
Inductive await_point :=
| AtAllHeaders | AtCaptureRequest | AtWaitRequest | AtAbort | AtContinue
| AtFetch | AtText | AtCaptureResponse | AtWaitResponse | AtFulfill
| AtFallback.

(** Everything outside the handler that one run of it meets: fresh ids and
    clock readings, how each awaited call ends, and the commands the control
    channel executes while the handler is suspended at each [await]. *)
Record Env := {
  uuid_req : string;
  uuid_res : string;
  now_req : Z;
  now_res : Z;
  capture_request_result : outcome unit;
  capture_response_result : outcome unit;
  abort_result : outcome unit;
  continue_result : outcome unit;
  fetch_result : outcome APIResponse;
  fulfill_result : outcome unit;
  fallback_result : outcome unit;
  other_tasks : await_point -> list command
}.

(** ** Handler tasks: state, trace, exceptions and suspension *)

Record machine := {
  mgr : BrowserManager;
  trace : list route_call
}.

Inductive result (A : Type) : Type :=
| Returned (a : A)
| Threw
| Waiting.
Arguments Returned {A} a.
Arguments Threw {A}.
Arguments Waiting {A}.

Definition task (A : Type) : Type := machine -> result A * machine.

Definition ret {A} (a : A) : task A := fun m => (Returned a, m).

Definition bind {A B} (t : task A) (k : A -> task B) : task B :=
  fun m =>
    match t m with
    | (Returned a, m') => k a m'
    | (Threw, m') => (Threw, m')
    | (Waiting, m') => (Waiting, m')
    end.

#[global] Instance task_ret : MRet task := @ret.
#[global] Instance task_bind : MBind task := fun A B k t => bind t k.

(** [try: body / except Exception: handler], and [try: body / except:
    handler] alike: every exception of the development is an [Exception]
    (see [outcome]), which either clause catches. *)
Definition try_except {A} (body handler : task A) : task A :=
  fun m =>
    match body m with
    | (Threw, m') => handler m'
    | r => r
    end.

Definition lift {A} (o : outcome A) : task A :=
  fun m => match o with Ok a => (Returned a, m) | Raised => (Threw, m) end.

Definition get_self : task BrowserManager := fun m => (Returned (mgr m), m).

Definition put_self (self : BrowserManager) : task unit :=
  fun m => (Returned tt, {| mgr := self; trace := trace m |}).

Definition log_call (c : route_call) : task unit :=
  fun m => (Returned tt, {| mgr := mgr m; trace := trace m ++ [c] |}).

Definition event_is_set (item_id : string) (self : BrowserManager) : bool :=
  match pending_items self !! item_id with
  | Some it => p_event it
  | None => false
  end.

Section Handler.
Context `{PyRuntime}.
Variable env : Env.

(** The control channel runs while the handler is suspended. *)
Definition yield_at (pt : await_point) : task unit :=
  self ← get_self; put_self (run_commands (other_tasks env pt) self).

(** [await call]: the call is made, other tasks run, the call ends. *)
Definition await {A} (pt : await_point) (c : route_call) (o : outcome A)
  : task A :=
  log_call c;; yield_at pt;; lift o.

(** An awaited call on the request or response object. *)
Definition await_read {A} (pt : await_point) (o : outcome A) : task A :=
  yield_at pt;; lift o.

(** [await event.wait()]: returns at once when the event is set, else
    suspends until a verdict sets it.  [Waiting]: the handler is suspended
    here; it goes on with [resume_request] or [resume_response] once a
    verdict has set the event, and not at all when its task is cancelled
    meanwhile. *)
Definition wait_event (item_id : string) (pt : await_point) : task unit :=
  fun m =>
    if event_is_set item_id (mgr m) then (Returned tt, m)
    else
      match yield_at pt m with
      | (_, m') =>
          if event_is_set item_id (mgr m') then (Returned tt, m')
          else (Waiting, m')
      end.

Definition set_pending (item_id : string) (it : PendingItem) : task unit :=
  self ← get_self;
  put_self (with_pending self (<[item_id := it]> (pending_items self))).

(** [if id in self.pending_items: del self.pending_items[id]] *)
Definition del_pending (item_id : string) : task unit :=
  self ← get_self;
  put_self (with_pending self (delete item_id (pending_items self))).

Definition get_pending (item_id : string) : task (option PendingItem) :=
  self ← get_self; mret (pending_items self !! item_id).

(** [if self.on_request_captured: await self.on_request_captured(data)] *)
Definition emit (pt : await_point) (c : capture) (o : outcome unit)
  : task unit :=
  self ← get_self;
  if on_request_captured self then await pt (Captured c) o else mret tt.

Definition reserved : list string :=
  ["x-waf-bypass-repeater"; "x-antigravity-override"].

(** The [for k, v in list(final_headers.items())] loop: the bypass flag and
    the last override value that parsed. *)
Definition scan_step (st : bool * (bool * option dict))
    (kv : string * string) : bool * (bool * option dict) :=
  let kl := Str.lower (fst kv) in
  if String.eqb kl "x-waf-bypass-repeater" then (true, snd st)
  else if String.eqb kl "x-antigravity-override" then
    match json_loads (snd kv) with
    | JsonValue truthy pairs => (fst st, (truthy, pairs))
    | JsonError => st
    end
  else st.

Definition scan_channel (final_headers : dict)
  : bool * (bool * option dict) :=
  fold_left scan_step final_headers (false, (false, Some [])).

Definition strip_reserved (final_headers : dict) : dict :=
  List.filter (fun kv => negb (is_in (Str.lower (fst kv)) reserved))
              final_headers.

(** [if is_repeater_bypass or override_headers: ...] *)
Definition apply_channel (is_repeater_bypass : bool)
    (override_headers : bool * option dict) (final_headers : dict)
  : outcome dict :=
  if is_repeater_bypass || fst override_headers then
    let stripped := strip_reserved final_headers in
    if fst override_headers then
      match snd override_headers with
      | Some pairs => Ok (dict_update stripped pairs)
      | None => Raised
      end
    else Ok stripped
  else Ok final_headers.

Definition is_drop (item : option PendingItem) : bool :=
  match item with
  | Some it => match p_action it with Some Drop => true | _ => false end
  | None => false
  end.

(** [item.get("modified", {}) if item else {}] *)
Definition modified_of (item : option PendingItem) : overrides :=
  match item with
  | Some it => default no_overrides (p_modified it)
  | None => no_overrides
  end.

(** The response half after [await event.wait()] returns. *)
Definition resume_response (res_id : string) (res_status : Z)
    (res_headers : dict) (res_body : string) : task unit :=
  item ← get_pending res_id;
  if is_drop item then
    del_pending res_id;;
    await AtAbort RouteAbort (abort_result env)
  else
    let modified := modified_of item in
    let res_status := default res_status (o_status modified) in
    let res_headers := default res_headers (o_headers modified) in
    let res_body := default res_body (o_body modified) in
    del_pending res_id;;
    await AtFulfill (RouteFulfill res_status res_headers res_body)
          (fulfill_result env).

(** Steps 6 to 8: rewrite the response, capture or suspend, fulfil. *)
Definition response_stage (req_id : string) (response : APIResponse)
  : task unit :=
  let res_id := uuid_res env in
  res_body ← try_except (await_read AtText (resp_text response))
                        (mret "<binary data>");
  let res_headers := resp_headers response in
  let res_status := resp_status response in
  self ← get_self;
  let rules := match_replace_rules self in
  let res_status :=
    match _apply_match_replace rules "Response first line"
                               (ResponseLine res_status) with
    | ResponseLine status => status
    | _ => res_status
    end in
  let res_headers :=
    match _apply_match_replace rules "Response header" (Headers res_headers) with
    | Headers h => h
    | _ => res_headers
    end in
  let res_body :=
    match _apply_match_replace rules "Response body" (Body (Some res_body)) with
    | Body (Some b) => b
    | _ => res_body
    end in
  let res_data :=
    {| cs_id := res_id; cs_req_id := req_id; cs_url := resp_url response;
       cs_status := res_status; cs_headers := res_headers;
       cs_body := res_body; cs_pending := intercept_responses self;
       cs_timestamp := now_res env |} in
  if intercept_responses self then
    set_pending res_id
      {| p_type := KResponse; p_data := CaptureResponse res_data;
         p_event := false; p_action := None; p_modified := None |};;
    emit AtCaptureResponse (CaptureResponse res_data)
         (capture_response_result env);;
    wait_event res_id AtWaitResponse;;
    resume_response res_id res_status res_headers res_body
  else
    emit AtCaptureResponse (CaptureResponse res_data)
         (capture_response_result env);;
    await AtFulfill (RouteFulfill res_status res_headers res_body)
          (fulfill_result env).

(** Step 5: [route.continue_] in bypass mode, else [route.fetch] and the
    response half. *)
Definition dispatch_stage (req_id : string) (is_repeater_bypass : bool)
    (final_method final_url : string) (final_headers : dict)
    (final_body : option string) : task unit :=
  if is_repeater_bypass then
    let continue_headers :=
      List.filter (fun kv => negb (is_in (Str.lower (fst kv))
                                         ["host"; "content-length"]))
                  final_headers in
    try_except
      (await AtContinue
         (RouteContinue (Some {| d_method := final_method; d_url := final_url;
                                 d_headers := continue_headers;
                                 d_post_data := final_body |}))
         (continue_result env))
      (await AtAbort RouteAbort (abort_result env))
  else
    let args := {| d_method := final_method; d_url := final_url;
                   d_headers := final_headers; d_post_data := final_body |} in
    fetched ← try_except
                (response ← await AtFetch (RouteFetch args) (fetch_result env);
                 mret (Some response))
                (await AtAbort RouteAbort (abort_result env);; mret None);
    match fetched with
    | Some response => response_stage req_id response
    | None => mret tt
    end.

(** The request half after [await event.wait()] returns. *)
Definition resume_request (req_id : string) (is_repeater_bypass : bool)
    (final_method final_url : string) (final_headers : dict)
    (final_body : option string) : task unit :=
  item ← get_pending req_id;
  if is_drop item then
    del_pending req_id;;
    await AtAbort RouteAbort (abort_result env)
  else
    let modified := modified_of item in
    let final_method := default final_method (o_method modified) in
    let final_headers := default final_headers (o_headers modified) in
    let final_body :=
      match o_body modified with Some b => Some b | None => final_body end in
    del_pending req_id;;
    dispatch_stage req_id is_repeater_bypass final_method final_url
                   final_headers final_body.

(** Steps 2 and 3 on the values read from the request: the rewritten
    method, url, headers and body. *)
Definition rewrite_request (rules : list MatchReplaceRule) (request : Request)
    (headers : dict) (post_data : option string)
  : string * string * dict * option string :=
  let '(final_method, final_url) :=
    match _apply_match_replace rules "Request first line"
            (RequestLine (method request) (url request)) with
    | RequestLine m u => (m, u)
    | _ => (method request, url request)
    end in
  let final_headers :=
    match _apply_match_replace rules "Request header" (Headers headers) with
    | Headers h => h
    | _ => headers
    end in
  let final_body :=
    match _apply_match_replace rules "Request body" (Body post_data) with
    | Body b => b
    | _ => post_data
    end in
  (final_method, final_url, final_headers, final_body).

(** Steps 3 to 5 on the rewritten request: channel headers, capture or
    suspend, dispatch.  [self] is the manager as read when the handler
    resumed from [all_headers]. *)
Definition request_stage (self : BrowserManager) (request : Request)
    (final_method final_url : string) (final_headers : dict)
    (final_body : option string) : task unit :=
  let req_id := uuid_req env in
  let req_data :=
    {| cq_id := req_id; cq_method := final_method; cq_url := final_url;
       cq_headers := final_headers; cq_body := final_body;
       cq_resourceType := resource_type request;
       cq_timestamp := now_req env;
       cq_pending := intercept_requests self |} in
  let '(is_repeater_bypass, override_headers) := scan_channel final_headers in
  final_headers ← lift (apply_channel is_repeater_bypass override_headers
                                      final_headers);
  if intercept_requests self && negb is_repeater_bypass then
    set_pending req_id
      {| p_type := KRequest; p_data := CaptureRequest req_data;
         p_event := false; p_action := None; p_modified := None |};;
    emit AtCaptureRequest (CaptureRequest req_data)
         (capture_request_result env);;
    wait_event req_id AtWaitRequest;;
    resume_request req_id is_repeater_bypass final_method final_url
                   final_headers final_body
  else
    emit AtCaptureRequest (CaptureRequest req_data)
         (capture_request_result env);;
    dispatch_stage req_id is_repeater_bypass final_method final_url
                   final_headers final_body.

(** The [try] block of [_route_handler]. *)
Definition route_handler_body (request : Request) : task unit :=
  headers ← await_read AtAllHeaders (all_headers request);
  post_data ← lift (post_data request);
  self ← get_self;
  let '(final_method, final_url, final_headers, final_body) :=
    rewrite_request (match_replace_rules self) request headers post_data in
  request_stage self request final_method final_url final_headers final_body.

(** [_route_handler]: the body, and on any exception the passthrough
    [route.continue_()], whose own failure is swallowed. *)
Definition _route_handler (request : Request) : task unit :=
  try_except (route_handler_body request)
    (try_except (await AtFallback (RouteContinue None) (fallback_result env))
                (mret tt)).

End Handler.

(** ** Replay: header partition and channel encoding *)

Definition forbidden : list string :=
  ["host"; "connection"; "keep-alive"; "proxy-authenticate";
   "proxy-authorization"; "te"; "trailer"; "transfer-encoding"; "upgrade";
   "cookie"; "user-agent"; "referer"; "origin"; "content-length"; "date";
   "expect"].

(** The comprehension that builds [safe_headers] in [replay_request]. *)
Definition safe_part (stored : dict) : dict :=
  List.filter (fun kv => negb (is_in (Str.lower (fst kv)) forbidden)
                         && negb (String.prefix "sec-" (Str.lower (fst kv))))
              stored.

(** [safe_headers] as handed to the in-page [fetch]. *)
Definition replay_safe_headers `{PyRuntime} (stored : dict) : dict :=
  let headers_json := json_dumps stored in
  dict_set "X-Antigravity-Override" headers_json
    (dict_set "X-WAF-Bypass-Repeater" "1" (safe_part stored)).

(** ** A runtime for the worked examples

    A regular-expression engine that knows literal patterns only and rejects
    every other pattern, a JSON codec for flat objects of plain strings, and
    decimal [int]. *)

Definition plain_char (c : ascii) : bool :=
  let n := nat_of_ascii c in
  ((48 <=? n) && (n <=? 57) || (65 <=? n) && (n <=? 90)
   || (97 <=? n) && (n <=? 122) || (n =? 32) || (n =? 45) || (n =? 58)
   || (n =? 47))%nat.

Fixpoint all_plain (s : string) : bool :=
  match s with
  | EmptyString => true
  | String c s' => plain_char c && all_plain s'
  end.

Definition literal_re_sub (pattern repl s : string) : outcome string :=
  if all_plain pattern && all_plain repl
  then Ok (Str.replace pattern repl s) else Raised.

Definition dquote : string := String "034"%char EmptyString.

Definition flat_json_dumps (d : dict) : string :=
  "{" +:+ String.concat ", "
            (map (fun kv => dquote +:+ fst kv +:+ dquote +:+ ": "
                            +:+ dquote +:+ snd kv +:+ dquote) d) +:+ "}".

Fixpoint split_str (fuel : nat) (sep s : string) : list string :=
  match fuel with
  | O => [s]
  | S fuel' =>
      match Str.split_once sep s with
      | Some (a, b) => a :: split_str fuel' sep b
      | None => [s]
      end
  end.

Fixpoint all_some {A : Type} (l : list (option A)) : option (list A) :=
  match l with
  | [] => Some []
  | Some a :: l' => match all_some l' with Some r => Some (a :: r) | None => None end
  | None :: _ => None
  end.

Definition flat_json_object (v : string) : option dict :=
  match Str.split_once (dquote +:+ "}") (Str.drop 2 v) with
  | Some (inner, EmptyString) =>
      if String.prefix ("{" +:+ dquote) v then
        all_some (map (Str.split_once (dquote +:+ ": " +:+ dquote))
                      (split_str (String.length inner)
                                 (dquote +:+ ", " +:+ dquote) inner))
      else None
  | _ => None
  end.

Definition flat_json_loads (v : string) : json_result :=
  if String.eqb v "{}" then JsonValue false (Some [])
  else if String.eqb v "[1]" then JsonValue true None
  else match flat_json_object v with
       | Some d => JsonValue true (Some d)
       | None => JsonError
       end.

Definition decimal_int (s : string) : option Z :=
  Z.of_int <$> NilZero.int_of_string s.

Definition demo_runtime : PyRuntime :=
  {| re_sub := literal_re_sub;
     json_loads := flat_json_loads;
     json_dumps := flat_json_dumps;
     py_int := decimal_int |}.

(** ** The rule engine over a store of Python objects

    [_apply_match_replace] once more, this time with the objects it is handed
    and the objects it creates kept in a store, so that what it writes to is
    visible.  Strings and integers are values; dictionaries and lists are
    objects at a location. *)

Module Heap.

Inductive obj :=
| ODict (d : dict)
| OLines (l : list string)
| ORules (l : list MatchReplaceRule)
| OLine (method url : string)
| OStatus (status : Z).

Inductive value :=
| VRef (l : positive)
| VStr (s : string)
| VNone.

(** A computation on the store; [None] is a type error. *)
Definition st (A : Type) : Type :=
  gmap positive obj -> option (A * gmap positive obj).

#[global] Instance st_ret : MRet st := fun A a h => Some (a, h).
#[global] Instance st_bind : MBind st :=
  fun A B k t h => match t h with Some (a, h') => k a h' | None => None end.

Definition fail {A : Type} : st A := fun _ => None.

(** A new object at a location not in use. *)
Definition alloc (o : obj) : st positive :=
  fun h => let l := fresh (dom h) in Some (l, <[l := o]> h).

Definition read (l : positive) : st obj :=
  fun h => match h !! l with Some o => Some (o, h) | None => None end.

(** In-place update of the object at [l]. *)
Definition write (l : positive) (o : obj) : st unit :=
  fun h => match h !! l with Some _ => Some (tt, <[l := o]> h) | None => None end.

Definition read_dict (l : positive) : st dict :=
  o ← read l; match o with ODict d => mret d | _ => fail end.

Definition read_lines (l : positive) : st (list string) :=
  o ← read l; match o with OLines ls => mret ls | _ => fail end.

Definition read_rules (l : positive) : st (list MatchReplaceRule) :=
  o ← read l; match o with ORules rs => mret rs | _ => fail end.

(** [lst.append(x)] *)
Definition append (l : positive) (x : string) : st unit :=
  ls ← read_lines l; write l (OLines (ls ++ [x])).

(** [d[k] = v] *)
Definition set_item (l : positive) (k v : string) : st unit :=
  d ← read_dict l; write l (ODict (dict_set k v d)).

Fixpoint for_each {A : Type} (xs : list A) (body : A -> st unit) : st unit :=
  match xs with
  | [] => mret tt
  | x :: xs' => body x;; for_each xs' body
  end.

Section Engine.
Context `{PyRuntime}.

(** [for rule in rules] of the header branch; [headers] is the location
    the local variable refers to. *)
Fixpoint header_rules (rules : list MatchReplaceRule) (headers : positive)
  : st positive :=
  match rules with
  | [] => mret headers
  | rule :: rules' =>
      d ← read_dict headers;
      header_lines ← alloc (OLines (map header_line d));
      new_lines ← alloc (OLines []);
      lines ← read_lines header_lines;
      for_each lines (fun line =>
        let new_line := apply_rule rule line in
        if Str.is_empty new_line then mret tt else append new_lines new_line);;
      new_headers ← alloc (ODict []);
      kept ← read_lines new_lines;
      for_each kept (fun line =>
        match parse_line line with
        | Some (k, v) => set_item new_headers k v
        | None => mret tt
        end);;
      header_rules rules' new_headers
  end.

Definition _apply_match_replace (self_rules : positive) (item_type : string)
    (data : value) : st value :=
  all_rules ← read_rules self_rules;
  rules_list ← alloc (ORules (List.filter (selected item_type) all_rules));
  rules ← read_rules rules_list;
  match rules with
  | [] => mret data
  | _ =>
    if is_in item_type ["Request header"; "Response header"] then
      match data with
      | VRef l =>
          d ← read_dict l;
          headers ← alloc (ODict d);
          r ← header_rules rules headers;
          mret (VRef r)
      | _ => fail
      end
    else if is_in item_type ["Request body"; "Response body"] then
      match data with
      | VNone => mret VNone
      | VStr body => mret (VStr (apply_rules rules body))
      | VRef _ => fail
      end
    else if String.eqb item_type "Request first line" then
      match data with
      | VRef l =>
          o ← read l;
          match o with
          | OLine method url =>
              let line := apply_rules rules (request_line method url) in
              match Str.split " " line with
              | p0 :: p1 :: _ => r ← alloc (OLine p0 p1); mret (VRef r)
              | _ => mret data
              end
          | _ => fail
          end
      | _ => fail
      end
    else if String.eqb item_type "Response first line" then
      match data with
      | VRef l =>
          o ← read l;
          match o with
          | OStatus status =>
              let line := apply_rules rules (status_line status) in
              match Str.split " " line with
              | _ :: p1 :: _ =>
                  match py_int p1 with
                  | Some n => r ← alloc (OStatus n); mret (VRef r)
                  | None => mret data
                  end
              | _ => mret data
              end
          | _ => fail
          end
      | _ => fail
      end
    else mret data
  end.

End Engine.

(** What a value stands for in a store, in the terms of the rule engine. *)
Definition denote (h : gmap positive obj) (v : value) : option mr_data :=
  match v with
  | VStr s => Some (Body (Some s))
  | VNone => Some (Body None)
  | VRef l =>
      match h !! l with
      | Some (ODict d) => Some (Headers d)
      | Some (OLine m u) => Some (RequestLine m u)
      | Some (OStatus s) => Some (ResponseLine s)
      | _ => None
      end
  end.

(** The argument has the shape the caller passes for this [item_type]. *)
Definition well_typed (item_type : string) (d : mr_data) : bool :=
  match d with
  | Headers _ => is_in item_type ["Request header"; "Response header"]
  | Body _ => is_in item_type ["Request body"; "Response body"]
  | RequestLine _ _ => String.eqb item_type "Request first line"
  | ResponseLine _ => String.eqb item_type "Response first line"
  end.

End Heap.

(** ** Predicates used in the statements *)

(** Header names are distinct and none holds [": "]: true of the names of an
    HTTP message, and of every dictionary the re-parse produces. *)
Definition wf_names (h : dict) : Prop :=
  NoDup (keys h) /\ Forall (fun k => Str.contains ": " k = false) (keys h).

(** A slice as the pipeline hands it to the rule engine: header names as
    above, method and url without a space, a status that [int] reads back
    from its decimal form. *)
Definition wf_slice `{PyRuntime} (data : mr_data) : Prop :=
  match data with
  | Headers h => wf_names h
  | Body _ => True
  | RequestLine m u =>
      Str.contains " " m = false /\ Str.contains " " u = false
  | ResponseLine status => py_int (Str.of_int status) = Some status
  end.

(** No reserved channel header among the names. *)
Definition no_reserved (h : dict) : Prop :=
  Forall (fun k => is_in (Str.lower k) reserved = false) (keys h).

(** Header sets that leave for the network through [route.fetch] or
    [route.continue_] with explicit headers carry no reserved name. *)
Definition egress_clean (c : route_call) : Prop :=
  match c with
  | RouteFetch args => no_reserved (d_headers args)
  | RouteContinue (Some args) => no_reserved (d_headers args)
  | _ => True
  end.

(** The header set that leaves for the network with a call: the one handed
    to [route.fetch] or [route.continue_], and for the bare
    [route.continue_()] the request's own. *)
Definition sent_headers (request : Request) (c : route_call) : option dict :=
  match c with
  | RouteFetch args => Some (d_headers args)
  | RouteContinue (Some args) => Some (d_headers args)
  | RouteContinue None =>
      match all_headers request with Ok h => Some h | Raised => None end
  | _ => None
  end.

Definition is_passthrough (c : route_call) : bool :=
  match c with RouteContinue None => true | _ => false end.

Definition is_abort (c : route_call) : bool :=
  match c with RouteAbort => true | _ => false end.

(** A [forward] command whose replacement headers carry no reserved name. *)
Definition command_clean (c : command) : Prop :=
  match c with
  | CmdForward _ (Some m) =>
      match o_headers m with Some h => no_reserved h | None => True end
  | _ => True
  end.

Definition item_clean (it : PendingItem) : Prop :=
  match p_modified it with
  | Some m => match o_headers m with Some h => no_reserved h | None => True end
  | None => True
  end.

(** A property of the machine that running the task cannot break. *)
Definition stable {A : Type} (I : machine -> Prop) (t : task A) : Prop :=
  forall m, I m -> I (snd (t m)).

(** The three properties followed through the handler. *)
Definition no_passthrough (m : machine) : Prop :=
  Forall (fun c => is_passthrough c = false) (trace m).

Definition absent (item_id : string) (m : machine) : Prop :=
  pending_items (mgr m) !! item_id = None.

Definition clean_so_far (item_id : string) (m : machine) : Prop :=
  Forall egress_clean (trace m) /\
  forall it, pending_items (mgr m) !! item_id = Some it -> item_clean it.

(** What it takes for a property [I] of the machine to survive the handler:
    it survives the control channel, the logging of calls that are in order
    ([okcall]), parking of entries that are in order ([okitem]) and removal
    of entries; header sets that are in order ([okhdr]) make dispatch calls
    in order. *)
Record invariant (env : Env) (I : machine -> Prop)
    (okcall : route_call -> Prop) (okitem : string -> PendingItem -> Prop)
    (okhdr : dict -> Prop) : Prop := {
  inv_commands : forall m pt,
    I m ->
    I {| mgr := run_commands (other_tasks env pt) (mgr m); trace := trace m |};
  inv_log : forall m c,
    okcall c -> I m -> I {| mgr := mgr m; trace := trace m ++ [c] |};
  inv_set : forall m item_id it,
    okitem item_id it -> I m ->
    I {| mgr := with_pending (mgr m) (<[item_id := it]> (pending_items (mgr m)));
         trace := trace m |};
  inv_del : forall m item_id,
    I m ->
    I {| mgr := with_pending (mgr m) (delete item_id (pending_items (mgr m)));
         trace := trace m |};
  ok_captured : forall c, okcall (Captured c);
  ok_abort : okcall RouteAbort;
  ok_fulfill : forall s h b, okcall (RouteFulfill s h b);
  ok_fetch : forall a, okhdr (d_headers a) -> okcall (RouteFetch a);
  ok_continue : forall a, okhdr (d_headers a) -> okcall (RouteContinue (Some a));
  okhdr_filter : forall f h, okhdr h -> okhdr (List.filter f h);
  ok_park_response : forall k d,
    okitem (uuid_res env) {| p_type := k; p_data := d; p_event := false;
                             p_action := None; p_modified := None |}
}.

(** Side conditions of the form "this call is in order". *)
Ltac ok_call :=
  solve [ eapply ok_captured; eassumption
        | eapply ok_abort; eassumption
        | eapply ok_fulfill; eassumption
        | eapply ok_park_response; eassumption
        | auto ].

(** ** Worked examples: managers, requests, environments *)

Definition manager (requests responses : bool) (rules : list MatchReplaceRule)
  : BrowserManager :=
  {| on_request_captured := true;
     intercept_requests := requests;
     intercept_responses := responses;
     pending_items := ∅;
     match_replace_rules := rules |}.

Definition start (self : BrowserManager) : machine :=
  {| mgr := self; trace := [] |}.

Definition idle (pt : await_point) : list command := [].

Definition page_response : APIResponse :=
  {| resp_url := "https://example.com/";
     resp_status := 200;
     resp_headers := [("content-type", "text/html")];
     resp_text := Ok "<html></html>" |}.

(** Every awaited call succeeds; [tasks] is what the control channel does. *)
Definition smooth (tasks : await_point -> list command) : Env :=
  {| uuid_req := "req-1"; uuid_res := "res-1";
     now_req := 1000; now_res := 1001;
     capture_request_result := Ok tt;
     capture_response_result := Ok tt;
     abort_result := Ok tt;
     continue_result := Ok tt;
     fetch_result := Ok page_response;
     fulfill_result := Ok tt;
     fallback_result := Ok tt;
     other_tasks := tasks |}.

(** As [smooth idle], but the passthrough [route.continue_()] raises. *)
Definition fallback_fails : Env :=
  {| uuid_req := "req-1"; uuid_res := "res-1";
     now_req := 1000; now_res := 1001;
     capture_request_result := Ok tt;
     capture_response_result := Ok tt;
     abort_result := Ok tt;
     continue_result := Ok tt;
     fetch_result := Ok page_response;
     fulfill_result := Ok tt;
     fallback_result := Raised;
     other_tasks := idle |}.

(** As [smooth idle], but the capture callback raises. *)
Definition capture_fails : Env :=
  {| uuid_req := "req-1"; uuid_res := "res-1";
     now_req := 1000; now_res := 1001;
     capture_request_result := Raised;
     capture_response_result := Ok tt;
     abort_result := Ok tt;
     continue_result := Ok tt;
     fetch_result := Ok page_response;
     fulfill_result := Ok tt;
     fallback_result := Ok tt;
     other_tasks := idle |}.

(** As [smooth idle], but [route.fetch] raises. *)
Definition fetch_fails : Env :=
  {| uuid_req := "req-1"; uuid_res := "res-1";
     now_req := 1000; now_res := 1001;
     capture_request_result := Ok tt;
     capture_response_result := Ok tt;
     abort_result := Ok tt;
     continue_result := Ok tt;
     fetch_result := Raised;
     fulfill_result := Ok tt;
     fallback_result := Ok tt;
     other_tasks := idle |}.

Definition get_request (headers : dict) : Request :=
  {| method := "GET"; url := "https://example.com/";
     all_headers := Ok headers; post_data := Ok None;
     resource_type := "document" |}.

(** The tester answers the parked request [req-1]. *)
Definition answer_request (cs : list command) (pt : await_point)
  : list command :=
  match pt with AtWaitRequest => cs | _ => [] end.

Definition post_hi : overrides :=
  {| o_method := Some "POST"; o_url := None; o_headers := None;
     o_body := Some "hi"; o_status := None |}.

Definition teapot : overrides :=
  {| o_method := None; o_url := None;
     o_headers := Some [("content-type", "text/plain")];
     o_body := Some "short and stout"; o_status := Some 418 |}.

Definition rule (slice old new : string) (regex : bool) : MatchReplaceRule :=
  {| enabled := true; item := slice; match_ := old; replace := new;
     isRegex := regex; comment := "" |}.

Definition stored_headers : dict :=
  [("Host", "a.example"); ("Cookie", "sid=1"); ("X-Foo", "bar")].

(** The manager while request [req-1] is parked, and its entry. *)
Definition parked : BrowserManager :=
  mgr (snd (@_route_handler demo_runtime (smooth idle) (get_request [])
              (start (manager true false [])))).

Definition parked_item : PendingItem :=
  {| p_type := KRequest;
     p_data := CaptureRequest
       {| cq_id := "req-1"; cq_method := "GET";
          cq_url := "https://example.com/"; cq_headers := [];
          cq_body := None; cq_resourceType := "document";
          cq_timestamp := 1000; cq_pending := true |};
     p_event := false; p_action := None; p_modified := None |}.

Definition bad_regex : MatchReplaceRule := rule "Request header" "(" "x" true.

(** A store with the shared rule list at 1 and a header dictionary at 2. *)
Definition example_store : gmap positive Heap.obj :=
  <[2%positive := Heap.ODict stored_headers]>
    {[1%positive :=
        Heap.ORules [rule "Request header" "a.example" "b.example" false]]}.


(** ** The rule engine as it is described

    A second account of the rule engine, written from its description and
    not from the code: which rules take part, what one substitution gives,
    how lines are read back.  The theorems on the engine compare
    [_apply_match_replace] with it. *)

Module Spec.

Inductive kind := OfHeaders | OfBody | OfRequestLine | OfResponseLine.

Definition kind_of (slice : string) : option kind :=
  if String.eqb slice "Request header" then Some OfHeaders
  else if String.eqb slice "Response header" then Some OfHeaders
  else if String.eqb slice "Request body" then Some OfBody
  else if String.eqb slice "Response body" then Some OfBody
  else if String.eqb slice "Request first line" then Some OfRequestLine
  else if String.eqb slice "Response first line" then Some OfResponseLine
  else None.

(** A rule takes part when it is enabled and is a rule of the slice. *)
Definition takes_part (slice : string) (rule : MatchReplaceRule) : bool :=
  if enabled rule then String.eqb (item rule) slice else false.

(** The first two fields of a line that is split at every single space: the
    text before the first space, and the text from there to the next space
    or to the end of the line.  Either may be empty.  [None]: the line holds
    no space. *)
Definition fields (line : string) : option (string * string) :=
  match Str.split_once " " line with
  | None => None
  | Some (first, rest) =>
      Some (first, match Str.split_once " " rest with
                   | Some (second, _) => second
                   | None => rest
                   end)
  end.

Definition line_of (name value : string) : string :=
  name +:+ ": " +:+ value.

(** A line is read back at its first [": "], and without one at its first
    [":"]; a line without a colon is no header. *)
Definition header_of (line : string) : option (string * string) :=
  match Str.split_once ": " line with
  | Some kv => Some kv
  | None => Str.split_once ":" line
  end.

(** Lines read back into a header set; a later line of the same name wins. *)
Fixpoint gather (lines : list string) (acc : dict) : dict :=
  match lines with
  | [] => acc
  | line :: rest =>
      gather rest match header_of line with
                  | Some (name, value) => dict_set name value acc
                  | None => acc
                  end
  end.

Section Words.
Context `{PyRuntime}.

(** One substitution on one text.  A regular expression that raises leaves
    the text as it was. *)
Definition substitute (rule : MatchReplaceRule) (text : string) : string :=
  if isRegex rule then
    match re_sub (match_ rule) (replace rule) text with
    | Ok text' => text'
    | Raised => text
    end
  else Str.replace (match_ rule) (replace rule) text.

(** The rules that take part, on one text, in list order. *)
Fixpoint run (slice : string) (rules : list MatchReplaceRule) (text : string)
  : string :=
  match rules with
  | [] => text
  | rule :: rest =>
      run slice rest
          (if takes_part slice rule then substitute rule text else text)
  end.

(** One rule on a header set: every line is rewritten, a line that became
    empty disappears, and the rest is read back. *)
Definition rewrite_once (rule : MatchReplaceRule) (h : dict) : dict :=
  gather (List.filter (fun line => negb (Str.is_empty line))
            (map (fun kv => substitute rule (line_of (fst kv) (snd kv))) h))
         [].

Fixpoint run_headers (slice : string) (rules : list MatchReplaceRule)
    (h : dict) : dict :=
  match rules with
  | [] => h
  | rule :: rest =>
      run_headers slice rest
                  (if takes_part slice rule then rewrite_once rule h else h)
  end.

(** The engine: without a rule that takes part the slice comes back as it
    is; otherwise it is rewritten according to its kind. *)
Definition engine (rules : list MatchReplaceRule) (slice : string)
    (data : mr_data) : mr_data :=
  if existsb (takes_part slice) rules then
    match kind_of slice, data with
    | Some OfHeaders, Headers h => Headers (run_headers slice rules h)
    | Some OfBody, Body (Some body) => Body (Some (run slice rules body))
    | Some OfRequestLine, RequestLine method url =>
        match fields (run slice rules
                          (method +:+ " " +:+ url +:+ " HTTP/1.1")) with
        | Some (m, u) => RequestLine m u
        | None => data
        end
    | Some OfResponseLine, ResponseLine status =>
        match fields (run slice rules ("HTTP/1.1 " +:+ Str.of_int status)) with
        | Some (_, token) =>
            match py_int token with
            | Some n => ResponseLine n
            | None => data
            end
        | None => data
        end
    | _, _ => data
    end
  else data.

(** The texts a rule placed after [rules] is applied to. *)
Definition reaches (slice : string) (rules : list MatchReplaceRule)
    (data : mr_data) : list string :=
  match data with
  | Headers h =>
      map (fun kv => line_of (fst kv) (snd kv)) (run_headers slice rules h)
  | Body (Some body) => [run slice rules body]
  | Body None => []
  | RequestLine method url =>
      [run slice rules (method +:+ " " +:+ url +:+ " HTTP/1.1")]
  | ResponseLine status =>
      [run slice rules ("HTTP/1.1 " +:+ Str.of_int status)]
  end.

End Words.

End Spec.

(** ** The channel headers of a request *)

(** Some header is named [X-WAF-Bypass-Repeater], in any letter case. *)
Definition bypass_marked (fh : dict) : Prop :=
  Exists (fun kv => Str.lower (fst kv) = "x-waf-bypass-repeater") fh.

(** The last [X-Antigravity-Override] header (in any letter case) whose
    value [json.loads] accepts decodes to this. *)
Definition last_override `{PyRuntime} (fh : dict) (truthy : bool)
    (pairs : option dict) : Prop :=
  exists before k v after,
    fh = before ++ (k, v) :: after /\
    Str.lower k = "x-antigravity-override" /\
    json_loads v = JsonValue truthy pairs /\
    Forall (fun kv => Str.lower (fst kv) = "x-antigravity-override" ->
                      json_loads (snd kv) = JsonError) after.

(** ** Further predicates *)

(** The command is a verdict for [item_id]. *)
Definition verdict_for (item_id : string) (c : command) : bool :=
  match c with
  | CmdForward i _ => String.eqb i item_id
  | CmdDrop i => String.eqb i item_id
  | _ => false
  end.

(** Every call the task adds to the trace satisfies [P]. *)
Definition logs {A : Type} (P : route_call -> Prop) (t : task A) : Prop :=
  forall m, exists rest,
    trace (snd (t m)) = trace m ++ rest /\ Forall P rest.

(** Captures carry the ids of the run: a request capture the request's id,
    a response capture its own id and the id of the request it answers. *)
Definition linked (env : Env) (c : route_call) : Prop :=
  match c with
  | Captured (CaptureRequest q) => cq_id q = uuid_req env
  | Captured (CaptureResponse r) =>
      cs_id r = uuid_res env /\ cs_req_id r = uuid_req env
  | _ => True
  end.

(** What a run in bypass mode may do: report the request, hand it back to
    the browser without [Host] and [Content-Length], abort. *)
Definition bypass_call (c : route_call) : Prop :=
  match c with
  | Captured (CaptureRequest _) => True
  | RouteContinue (Some args) =>
      Forall (fun k => is_in (Str.lower k) ["host"; "content-length"] = false)
             (keys (d_headers args))
  | RouteAbort => True
  | _ => False
  end.

(** The calls on the route, without the capture events. *)
Definition route_calls (tr : list route_call) : list route_call :=
  List.filter (fun c => match c with Captured _ => false | _ => true end) tr.

(** Unfolds the task combinators down to pairs of result and machine. *)
Ltac run_task :=
  unfold emit, await, await_read, yield_at, log_call, set_pending,
    del_pending, get_pending, try_except;
  unfold mbind, task_bind, bind, mret, task_ret, ret, get_self, put_self,
    lift;
  cbn [mgr trace fst snd].

(** The header set holds an [X-Antigravity-Override] header (in any letter
    case), and every such header decodes to the truthy dictionary
    [stored]. *)
Definition carries_override `{PyRuntime} (stored fh : dict) : Prop :=
  Exists (fun kv => Str.lower (fst kv) = "x-antigravity-override") fh /\
  Forall (fun kv => Str.lower (fst kv) = "x-antigravity-override" ->
                    json_loads (snd kv) = JsonValue true (Some stored)) fh.

(** The calls that settle a route. *)
Definition terminal (c : route_call) : bool :=
  match c with
  | RouteAbort | RouteContinue _ | RouteFulfill _ _ _ => true
  | _ => false
  end.

(** A task that returns has made a call that settles the route; a task that
    is suspended has made none. *)
Definition orderly {A : Type} (t : task A) : Prop :=
  forall m, exists rest,
    trace (snd (t m)) = trace m ++ rest /\
    match fst (t m) with
    | Returned _ => existsb terminal rest = true
    | Waiting => existsb terminal rest = false
    | Threw => True
    end.

(** The name is made of ASCII characters, on which [Str.lower] is
    [str.lower]. *)
Fixpoint is_ascii (s : string) : bool :=
  match s with
  | EmptyString => true
  | String c s' => (nat_of_ascii c <? 128)%nat && is_ascii s'
  end.

(** ** Project files ([backend/project_manager.py])

    The files under [PROJECTS_DIR] are a finite map from paths to their
    text. *)

(** [project_manager.Project]: the fields the manager reads or writes;
    [pj_other] stands for the remaining ones, which it only stores. *)
Record Project := {
  pj_name : string;
  pj_created : string;
  pj_lastModified : string;
  pj_targetUrl : string;
  pj_matchReplaceRules : list MatchReplaceRule;
  pj_other : dict
}.

(** What the platform decides: the characters [str.isalnum] accepts (white
    space is never among them), the separator [os.path.join] puts before a
    relative file name, whether [open(path, 'w')] succeeds, what
    [json.dump(project.dict(), f)] writes and what [Project( **json.load(f))]
    reads ([None]: it raises). *)
Class Platform := {
  isalnum : ascii -> bool;
  sep : string;
  can_write : string -> bool;
  dump : Project -> string;
  parse : string -> option Project
}.

Definition PROJECTS_DIR : string := "D:/ChameleonProjects".

Fixpoint keep (f : ascii -> bool) (s : string) : string :=
  match s with
  | EmptyString => EmptyString
  | String c s' => if f c then String c (keep f s') else keep f s'
  end.

Fixpoint all_chars (f : ascii -> bool) (s : string) : bool :=
  match s with
  | EmptyString => true
  | String c s' => f c && all_chars f s'
  end.

Fixpoint last_char (s : string) : option ascii :=
  match s with
  | EmptyString => None
  | String c EmptyString => Some c
  | String _ s' => last_char s'
  end.

(** [str.strip()] on a string whose only white space is the space
    character, as is every string that passed the filter below. *)
Fixpoint lstrip (s : string) : string :=
  match s with
  | EmptyString => EmptyString
  | String c s' => if Ascii.eqb c " " then lstrip s' else s
  end.

Fixpoint rstrip (s : string) : string :=
  match s with
  | EmptyString => EmptyString
  | String c s' =>
      let r := rstrip s' in
      if Ascii.eqb c " " && Str.is_empty r then EmptyString else String c r
  end.

Definition strip (s : string) : string := rstrip (lstrip s).

Section ProjectManager.
Context `{Platform}.

(** [c.isalnum() or c in (' ', '-', '_')], on a name of ASCII characters,
    where a character is a byte. *)
Definition allowed (c : ascii) : bool :=
  isalnum c || Ascii.eqb c " " || Ascii.eqb c "-" || Ascii.eqb c "_".

Definition safe_name (name : string) : string := strip (keep allowed name).

(** [get_project_path]: the file name is relative, so [os.path.join] puts
    it after the directory and the separator. *)
Definition get_project_path (name : string) : string :=
  PROJECTS_DIR +:+ sep +:+ safe_name name +:+ ".json".

(** [load_project] *)
Definition load_project (name : string) (fs : gmap string string)
  : option Project :=
  let filepath := get_project_path name in
  match fs !! filepath with
  | None => None
  | Some text => parse text
  end.

(** [project.lastModified = datetime.now().isoformat()] *)
Definition touch (now : string) (project : Project) : Project :=
  {| pj_name := pj_name project;
     pj_created := pj_created project;
     pj_lastModified := now;
     pj_targetUrl := pj_targetUrl project;
     pj_matchReplaceRules := pj_matchReplaceRules project;
     pj_other := pj_other project |}.

(** [save_project]: the result, the project object as the call leaves it,
    and the files. *)
Definition save_project (now : string) (project : Project)
    (fs : gmap string string) : bool * Project * gmap string string :=
  let project := touch now project in
  let filepath := get_project_path (pj_name project) in
  if can_write filepath
  then (true, project, <[filepath := dump project]> fs)
  else (false, project, fs).

(** [create_project]; [now] is read once here and once in
    [save_project]. *)
Definition create_project (now now' : string) (name : string)
    (fs : gmap string string) : Project * gmap string string :=
  let project :=
    {| pj_name := name; pj_created := now; pj_lastModified := now;
       pj_targetUrl := "https://example.com";
       pj_matchReplaceRules := []; pj_other := [] |} in
  let '(_, project, fs) := save_project now' project fs in
  (project, fs).

(** [delete_project] *)
Definition delete_project (name : string) (fs : gmap string string)
  : bool * gmap string string :=
  let filepath := get_project_path name in
  match fs !! filepath with
  | Some _ => (true, delete filepath fs)
  | None => (false, fs)
  end.

(** Every project file lies where its project's name puts it. *)
Definition consistent (fs : gmap string string) : Prop :=
  forall filepath text project,
    fs !! filepath = Some text -> parse text = Some project ->
    get_project_path (pj_name project) = filepath.

End ProjectManager.

(** A platform for the worked examples: ASCII letters and digits, the
    separator [/], every file writable, and a codec that keeps the name and
    the two dates on three lines. *)
Definition ascii_alnum (c : ascii) : bool :=
  let n := nat_of_ascii c in
  ((48 <=? n) && (n <=? 57) || (65 <=? n) && (n <=? 90)
   || (97 <=? n) && (n <=? 122))%nat.

Definition newline : string := String "010"%char EmptyString.

Definition lines_dump (p : Project) : string :=
  pj_name p +:+ newline +:+ pj_created p +:+ newline +:+ pj_lastModified p.

Definition lines_parse (text : string) : option Project :=
  match Str.split_once newline text with
  | Some (name, rest) =>
      match Str.split_once newline rest with
      | Some (created, modified) =>
          Some {| pj_name := name; pj_created := created;
                  pj_lastModified := modified;
                  pj_targetUrl := "https://example.com";
                  pj_matchReplaceRules := []; pj_other := [] |}
      | None => None
      end
  | None => None
  end.

Definition demo_platform : Platform :=
  {| isalnum := ascii_alnum; sep := "/"; can_write := fun _ => true;
     dump := lines_dump; parse := lines_parse |}.
(** * Properties *)

(** ** Strings *)

Module StrFacts.

Lemma app_cons (x : ascii) (a b : string) :
  String x a +:+ b = String x (a +:+ b).
Proof. reflexivity. Qed.

Lemma app_nil_l (b : string) : "" +:+ b = b.
Proof. reflexivity. Qed.

Lemma app_assoc (a b c : string) : (a +:+ b) +:+ c = a +:+ (b +:+ c).
Proof.
  induction a as [|x a IH]; [reflexivity|]. now rewrite !app_cons, IH.
Qed.

Lemma app_empty_r (a : string) : a +:+ "" = a.
Proof.
  induction a as [|x a IH]; [reflexivity|]. now rewrite app_cons, IH.
Qed.

Lemma prefix_cons (a b : ascii) (p s : string) :
  String.prefix (String a p) (String b s)
  = Ascii.eqb a b && String.prefix p s.
Proof.
  simpl. destruct (ascii_dec a b) as [->|Hne].
  - now rewrite Ascii.eqb_refl.
  - apply Ascii.eqb_neq in Hne. now rewrite Hne.
Qed.

Lemma prefix_nil_l (s : string) : String.prefix "" s = true.
Proof. now destruct s. Qed.

Lemma prefix_nil_r (p : string) : String.prefix p "" = Str.is_empty p.
Proof. now destruct p. Qed.

Lemma prefix_app (p s t : string) :
  String.prefix p s = true -> String.prefix p (s +:+ t) = true.
Proof.
  revert s. induction p as [|a p IH]; intros s Hp.
  - apply prefix_nil_l.
  - destruct s as [|b s]; [discriminate|].
    change (String b s +:+ t) with (String b (s +:+ t)).
    rewrite prefix_cons in *. apply andb_true_iff in Hp as [-> Hp].
    simpl. now apply IH.
Qed.

Lemma prefix_self_app (p t : string) : String.prefix p (p +:+ t) = true.
Proof.
  induction p as [|a p IH]; [apply prefix_nil_l|].
  change (String a p +:+ t) with (String a (p +:+ t)).
  rewrite prefix_cons, Ascii.eqb_refl. exact IH.
Qed.

Lemma prefix_drop (p s : string) :
  String.prefix p s = true -> s = p +:+ Str.drop (String.length p) s.
Proof.
  revert s. induction p as [|a p IH]; intros s Hp; [reflexivity|].
  destruct s as [|b s]; [discriminate|].
  rewrite prefix_cons in Hp. apply andb_true_iff in Hp as [Hab Hp].
  apply Ascii.eqb_eq in Hab as ->. cbn [String.length Str.drop].
  rewrite app_cons. f_equal. now apply IH.
Qed.

Lemma contains_cons (sub : string) (c : ascii) (s : string) :
  Str.contains sub (String c s)
  = String.prefix sub (String c s) || Str.contains sub s.
Proof. reflexivity. Qed.

Lemma contains_app_r (sub a b : string) :
  Str.contains sub b = true -> Str.contains sub (a +:+ b) = true.
Proof.
  intros Hb. induction a as [|x a IH]; [exact Hb|].
  change (String x a +:+ b) with (String x (a +:+ b)).
  rewrite contains_cons, IH. apply orb_true_r.
Qed.

Lemma contains_app_l (sub a b : string) :
  Str.contains sub a = true -> Str.contains sub (a +:+ b) = true.
Proof.
  induction a as [|x a IH]; intros Ha.
  - cbn [Str.contains] in Ha. rewrite orb_false_r in Ha.
    rewrite prefix_nil_r in Ha. destruct sub; [|discriminate].
    destruct b; reflexivity.
  - change (String x a +:+ b) with (String x (a +:+ b)).
    rewrite contains_cons in *. apply orb_true_iff in Ha as [Ha|Ha].
    + change (String x (a +:+ b)) with (String x a +:+ b).
      now rewrite (prefix_app _ _ _ Ha).
    + rewrite (IH Ha). apply orb_true_r.
Qed.

Lemma contains_self (sep a b : string) :
  Str.contains sep (a +:+ sep +:+ b) = true.
Proof.
  apply contains_app_r. destruct (sep +:+ b) eqn:E.
  - destruct sep; [reflexivity | discriminate].
  - rewrite contains_cons, <- E, prefix_self_app. reflexivity.
Qed.

(** The text before the leftmost separator does not contain it. *)
Lemma split_once_Some (sep s a b : string) :
  Str.is_empty sep = false ->
  Str.split_once sep s = Some (a, b) ->
  s = a +:+ sep +:+ b /\ Str.contains sep a = false.
Proof.
  intros Hsep. revert a b.
  induction s as [|c s IH]; intros a b Hs; cbn [Str.split_once] in Hs.
  - rewrite prefix_nil_r, Hsep in Hs. discriminate.
  - destruct (String.prefix sep (String c s)) eqn:Hp.
    + injection Hs as <- <-. split.
      * now apply prefix_drop.
      * cbn [Str.contains]. rewrite prefix_nil_r, Hsep. reflexivity.
    + destruct (Str.split_once sep s) as [[a' b']|] eqn:E; [|discriminate].
      injection Hs as <- <-. destruct (IH _ _ eq_refl) as [-> Hc].
      split; [reflexivity|].
      rewrite contains_cons, Hc, orb_false_r.
      destruct (String.prefix sep (String c a')) eqn:Hp'; [|reflexivity].
      apply (prefix_app _ _ (sep +:+ b')) in Hp'.
      change (String c a' +:+ sep +:+ b') with (String c (a' +:+ sep +:+ b')) in Hp'.
      congruence.
Qed.

Lemma split_once_None (sep s : string) :
  Str.contains sep s = false -> Str.split_once sep s = None.
Proof.
  induction s as [|c s IH]; cbn [Str.contains Str.split_once]; intros Hc.
  - rewrite orb_false_r in Hc. now rewrite Hc.
  - apply orb_false_iff in Hc as [Hp Hc]. rewrite Hp, (IH Hc). reflexivity.
Qed.

(** Splitting a header line gives back a name that holds no [": "]. *)
Lemma split_once_header (k v : string) :
  Str.contains ": " k = false ->
  Str.split_once ": " (k +:+ ": " +:+ v) = Some (k, v).
Proof.
  induction k as [|c k IH]; intros Hk.
  - rewrite app_nil_l, !app_cons, app_nil_l. cbn [Str.split_once].
    rewrite !prefix_cons, prefix_nil_l. reflexivity.
  - rewrite contains_cons in Hk. apply orb_false_iff in Hk as [Hp Hk].
    change (String c k +:+ ": " +:+ v) with (String c (k +:+ ": " +:+ v)).
    cbn [Str.split_once]. rewrite (IH Hk).
    destruct (String.prefix ": " (String c (k +:+ ": " +:+ v))) eqn:Hp';
      [|reflexivity].
    exfalso. rewrite prefix_cons in Hp, Hp'.
    apply andb_true_iff in Hp' as [Hc Hp']. rewrite Hc in Hp.
    rewrite andb_true_l in Hp.
    destruct k as [|d k].
    + vm_compute in Hp'. discriminate.
    + change (String d k +:+ ": " +:+ v) with (String d (k +:+ ": " +:+ v)) in Hp'.
      rewrite prefix_cons in Hp, Hp'. rewrite prefix_nil_l in *.
      congruence.
Qed.

Lemma contains_weaken (c d : ascii) (s : string) :
  Str.contains (String c (String d "")) s = true ->
  Str.contains (String c "") s = true.
Proof.
  induction s as [|x s IH]; [discriminate|].
  rewrite !contains_cons. intros Hc. apply orb_true_iff in Hc as [Hp|Hc].
  - rewrite prefix_cons in *. apply andb_true_iff in Hp as [-> _].
    now rewrite prefix_nil_l.
  - rewrite (IH Hc). apply orb_true_r.
Qed.

(** [split]: one field when the separator is absent, else the text before
    the first separator and the fields of the rest. *)
Lemma split_nonempty (c : ascii) (s : string) : Str.split c s <> [].
Proof.
  induction s as [|a s IH]; cbn [Str.split]; [discriminate|].
  destruct (Ascii.eqb a c); [discriminate|].
  destruct (Str.split c s); [contradiction | discriminate].
Qed.

Lemma split_absent (c : ascii) (s : string) :
  Str.contains (String c "") s = false -> Str.split c s = [s].
Proof.
  induction s as [|a s IH]; [reflexivity|].
  rewrite contains_cons, prefix_cons, prefix_nil_l, andb_true_r.
  intros Hc. apply orb_false_iff in Hc as [Hac Hc].
  cbn [Str.split]. rewrite Ascii.eqb_sym, Hac, (IH Hc). reflexivity.
Qed.

Lemma split_app (c : ascii) (a rest : string) :
  Str.contains (String c "") a = false ->
  Str.split c (a +:+ String c rest) = a :: Str.split c rest.
Proof.
  induction a as [|x a IH]; intros Ha.
  - rewrite app_nil_l. cbn [Str.split]. now rewrite Ascii.eqb_refl.
  - rewrite contains_cons, prefix_cons, prefix_nil_l, andb_true_r in Ha.
    apply orb_false_iff in Ha as [Hx Ha].
    change (String x a +:+ String c rest) with (String x (a +:+ String c rest)).
    cbn [Str.split]. rewrite Ascii.eqb_sym, Hx, (IH Ha). reflexivity.
Qed.

Lemma split_present (c : ascii) (s : string) :
  Str.contains (String c "") s = true ->
  exists p0 p1 ps, Str.split c s = p0 :: p1 :: ps.
Proof.
  induction s as [|a s IH]; [discriminate|].
  rewrite contains_cons, prefix_cons, prefix_nil_l, andb_true_r.
  intros Hc. cbn [Str.split]. rewrite Ascii.eqb_sym.
  destruct (Ascii.eqb c a); cbn [orb] in Hc.
  - destruct (Str.split c s) as [|w ws] eqn:E; [now apply split_nonempty in E|].
    now exists "", w, ws.
  - destruct (IH Hc) as (p0 & p1 & ps & ->). now exists (String a p0), p1, ps.
Qed.

(** The first field of [token +:+ tail] is [token] when [tail] is empty or
    begins with the separator. *)
Lemma split_token (c : ascii) (token tail : string) :
  Str.contains (String c "") token = false ->
  tail = "" \/ String.prefix (String c "") tail = true ->
  exists ws, Str.split c (token +:+ tail) = token :: ws.
Proof.
  intros Ht [->|Hp].
  - rewrite app_empty_r, split_absent by assumption. now exists [].
  - destruct tail as [|d tail]; [discriminate|].
    rewrite prefix_cons in Hp. apply andb_true_iff in Hp as [Hd _].
    apply Ascii.eqb_eq in Hd as <-. rewrite split_app by assumption.
    now eexists.
Qed.

End StrFacts.

(** ** Header dictionaries *)

Lemma dict_set_keys (k v : string) (d : dict) :
  keys (dict_set k v d) = if is_in k (keys d) then keys d else keys d ++ [k].
Proof.
  unfold keys, is_in. induction d as [|[k' v'] d IH]; [reflexivity|].
  cbn [dict_set map fst existsb].
  rewrite (String.eqb_sym k k'). destruct (String.eqb k' k); [reflexivity|].
  cbn [map fst orb]. rewrite IH.
  now destruct (existsb (String.eqb k) (map fst d)).
Qed.

Lemma is_in_spec (s : string) (l : list string) : is_in s l = true <-> In s l.
Proof.
  unfold is_in. rewrite existsb_exists. split.
  - intros (x & Hx & He). apply String.eqb_eq in He. now subst.
  - intros Hs. exists s. split; [assumption | apply String.eqb_refl].
Qed.

Lemma is_in_false (s : string) (l : list string) :
  is_in s l = false <-> ~ In s l.
Proof.
  rewrite <- is_in_spec. destruct (is_in s l); split; congruence.
Qed.

Lemma dict_set_fresh (k v : string) (d : dict) :
  ~ In k (keys d) -> dict_set k v d = d ++ [(k, v)].
Proof.
  induction d as [|[k' v'] d IH]; intros Hk; [reflexivity|].
  cbn [dict_set]. destruct (String.eqb_spec k' k) as [->|Hne].
  - exfalso. apply Hk. now left.
  - rewrite IH; [reflexivity|]. intros Hin. apply Hk. now right.
Qed.

Lemma dict_set_in (k v k' : string) (d : dict) :
  In k' (keys (dict_set k v d)) <-> k' = k \/ In k' (keys d).
Proof.
  rewrite dict_set_keys. destruct (is_in k (keys d)) eqn:E.
  - apply is_in_spec in E. split; [now right | intros [->|]; assumption].
  - rewrite in_app_iff. cbn [In]. intuition.
Qed.

Lemma dict_set_nodup (k v : string) (d : dict) :
  NoDup (keys d) -> NoDup (keys (dict_set k v d)).
Proof.
  intros Hd. rewrite dict_set_keys. destruct (is_in k (keys d)) eqn:E.
  - assumption.
  - apply is_in_false in E. apply NoDup_app. split; [assumption|]. split.
    + intros x Hx Hx'. apply list_elem_of_In in Hx, Hx'.
      destruct Hx' as [<-|[]]. contradiction.
    + apply NoDup_singleton.
Qed.

Lemma dict_get_none (k : string) (d : dict) :
  dict_get k d = None <-> ~ In k (keys d).
Proof.
  induction d as [|[k' v'] d IH]; cbn [dict_get keys map fst In].
  - intuition.
  - destruct (String.eqb_spec k' k) as [->|Hne].
    + split; [discriminate | intros Hn; exfalso; apply Hn; now left].
    + rewrite IH. unfold keys. intuition.
Qed.

(** ** Rule engine *)

Section EngineFacts.
Context `{PyRuntime}.

Lemma header_line_nonempty (kv : string * string) :
  Str.is_empty (header_line kv) = false.
Proof. destruct kv as [[|c k] v]; reflexivity. Qed.

Lemma parse_line_header (k v : string) :
  Str.contains ": " k = false -> parse_line (header_line (k, v)) = Some (k, v).
Proof.
  intros Hk. unfold parse_line, header_line. cbn [fst snd].
  now rewrite StrFacts.contains_self, StrFacts.split_once_header.
Qed.

Lemma parse_line_colon_free (line : string) :
  Str.contains ":" line = false -> parse_line line = None.
Proof.
  intros Hc. unfold parse_line.
  destruct (Str.contains ": " line) eqn:E.
  - apply StrFacts.contains_weaken in E. congruence.
  - now rewrite Hc.
Qed.

Lemma parse_line_name (line k v : string) :
  parse_line line = Some (k, v) -> Str.contains ": " k = false.
Proof.
  unfold parse_line. destruct (Str.contains ": " line).
  - intros Hs. now apply StrFacts.split_once_Some in Hs.
  - destruct (Str.contains ":" line); [|discriminate].
    intros Hs. apply StrFacts.split_once_Some in Hs as [_ Hk]; [|reflexivity].
    destruct (Str.contains ": " k) eqn:E; [|reflexivity].
    apply StrFacts.contains_weaken in E. congruence.
Qed.

Lemma store_line_wf (acc : dict) (line : string) :
  wf_names acc -> wf_names (store_line acc line).
Proof.
  intros [Hnd Hok]. unfold store_line.
  destruct (parse_line line) as [[k v]|] eqn:E; [|now split].
  split; [now apply dict_set_nodup|].
  rewrite dict_set_keys. destruct (is_in k (keys acc)); [assumption|].
  apply Forall_app. split; [assumption|].
  constructor; [|constructor]. eapply parse_line_name, E.
Qed.

Lemma fold_store_wf (lines : list string) (acc : dict) :
  wf_names acc -> wf_names (fold_left store_line lines acc).
Proof.
  revert acc. induction lines as [|line lines IH]; intros acc Hacc;
    [assumption|].
  cbn [fold_left]. now apply IH, store_line_wf.
Qed.

(** What the re-parse builds is again well formed. *)
Lemma apply_header_rule_wf (rule : MatchReplaceRule) (h : dict) :
  wf_names (apply_header_rule rule h).
Proof.
  unfold apply_header_rule, reparse. apply fold_store_wf.
  split; constructor.
Qed.

(** Linearise and re-parse is the identity on well-formed names. *)
Lemma fold_store_dict (h acc : dict) :
  wf_names h -> (forall k, In k (keys h) -> ~ In k (keys acc)) ->
  fold_left store_line (map header_line h) acc = acc ++ h.
Proof.
  revert acc. induction h as [|[k v] h IH]; intros acc [Hnd Hok] Hdis.
  - cbn. now rewrite app_nil_r.
  - cbn [map fold_left]. unfold keys in *. cbn [map fst] in *.
    apply NoDup_cons in Hnd as [Hk Hnd]. apply Forall_cons in Hok as [Hkok Hok].
    unfold store_line at 2. rewrite (parse_line_header k v Hkok).
    rewrite dict_set_fresh by (apply Hdis; now left).
    rewrite IH.
    + now rewrite <- app_assoc.
    + now split.
    + intros k' Hk' Hin. rewrite map_app, in_app_iff in Hin.
      destruct Hin as [Hin|[<-|[]]].
      * eapply Hdis; [right; exact Hk' | exact Hin].
      * apply Hk. now apply list_elem_of_In.
Qed.

Lemma apply_rules_app (l1 l2 : list MatchReplaceRule) (line : string) :
  apply_rules (l1 ++ l2) line = apply_rules l2 (apply_rules l1 line).
Proof. apply fold_left_app. Qed.

Lemma rewrite_headers_wf (rules : list MatchReplaceRule) (h : dict) :
  wf_names h -> wf_names (rewrite_headers rules h).
Proof.
  revert h. induction rules as [|r rules IH]; intros h Hwf; [assumption|].
  apply IH, apply_header_rule_wf.
Qed.

Lemma rewrite_lines_app (rule : MatchReplaceRule) (l1 l2 : list string) :
  rewrite_lines rule (l1 ++ l2) = rewrite_lines rule l1 ++ rewrite_lines rule l2.
Proof. unfold rewrite_lines. now rewrite map_app, List.filter_app. Qed.

(** A name ends up in the re-parsed dictionary only if it was there or some
    line parses to it. *)
Lemma fold_store_keys (lines : list string) (acc : dict) (k : string) :
  In k (keys (fold_left store_line lines acc)) ->
  In k (keys acc) \/
  exists line v, In line lines /\ parse_line line = Some (k, v).
Proof.
  revert acc. induction lines as [|line lines IH]; intros acc Hin;
    [now left|].
  cbn [fold_left] in Hin. apply IH in Hin as [Hin|(l & v & Hl & Hp)].
  - unfold store_line in Hin.
    destruct (parse_line line) as [[k' v']|] eqn:E; [|now left].
    apply dict_set_in in Hin as [->|Hin]; [|now left].
    right. exists line, v'. split; [now left | assumption].
  - right. exists l, v. split; [now right | assumption].
Qed.

Lemma first_fields (c : ascii) (a b tail : string) :
  Str.contains (String c "") a = false ->
  Str.contains (String c "") b = false ->
  tail = "" \/ String.prefix (String c "") tail = true ->
  exists ws, Str.split c (a +:+ String c "" +:+ b +:+ tail) = a :: b :: ws.
Proof.
  intros Ha Hb Ht.
  change (a +:+ String c "" +:+ b +:+ tail) with (a +:+ String c (b +:+ tail)).
  rewrite StrFacts.split_app by assumption.
  destruct (StrFacts.split_token c b tail Hb Ht) as [ws ->]. now exists ws.
Qed.

End EngineFacts.

(** ** The engine of the code and the engine as described *)

Lemma split_once_found (sep s : string) :
  Str.contains sep s = true -> exists a b, Str.split_once sep s = Some (a, b).
Proof.
  induction s as [|c s IH]; cbn [Str.contains Str.split_once].
  - rewrite orb_false_r. intros ->. eauto.
  - destruct (String.prefix sep (String c s)); [eauto|].
    cbn [orb]. intros Hc. destruct (IH Hc) as (a & b & ->). eauto.
Qed.

Lemma split_fields (line : string) :
  match Str.split " " line with
  | p0 :: p1 :: _ => Some (p0, p1)
  | _ => None
  end = Spec.fields line.
Proof.
  assert (Hhead : forall s,
             exists ws, Str.split " " s =
                        match Str.split_once " " s with
                        | Some (b, _) => b
                        | None => s
                        end :: ws).
  { intros s. destruct (Str.contains " " s) eqn:E.
    - destruct (split_once_found _ _ E) as (b & r & Hs). rewrite Hs.
      apply StrFacts.split_once_Some in Hs as [-> Hb]; [|reflexivity].
      change (b +:+ " " +:+ r) with (b +:+ String " " r).
      rewrite StrFacts.split_app by assumption. eauto.
    - rewrite StrFacts.split_once_None, StrFacts.split_absent by assumption.
      eauto. }
  unfold Spec.fields. destruct (Str.contains " " line) eqn:E.
  - destruct (split_once_found _ _ E) as (a & rest & Hs). rewrite Hs.
    apply StrFacts.split_once_Some in Hs as [-> Ha]; [|reflexivity].
    change (a +:+ " " +:+ rest) with (a +:+ String " " rest).
    rewrite StrFacts.split_app by assumption.
    destruct (Hhead rest) as [ws ->]. reflexivity.
  - rewrite StrFacts.split_once_None, StrFacts.split_absent by assumption.
    reflexivity.
Qed.

Lemma parse_line_spec (line : string) :
  parse_line line = Spec.header_of line.
Proof.
  unfold parse_line, Spec.header_of.
  destruct (Str.contains ": " line) eqn:E.
  - destruct (split_once_found _ _ E) as (a & b & ->). reflexivity.
  - rewrite (StrFacts.split_once_None ": ") by assumption.
    destruct (Str.contains ":" line) eqn:E'; [reflexivity|].
    now rewrite StrFacts.split_once_None.
Qed.

Lemma gather_spec (lines : list string) (acc : dict) :
  fold_left store_line lines acc = Spec.gather lines acc.
Proof.
  revert acc. induction lines as [|line lines IH]; intros acc; [reflexivity|].
  cbn [fold_left Spec.gather]. rewrite IH. unfold store_line.
  now rewrite parse_line_spec.
Qed.

Section EngineSpec.
Context `{PyRuntime}.

Lemma selected_spec (slice : string) (rule : MatchReplaceRule) :
  selected slice rule = Spec.takes_part slice rule.
Proof. reflexivity. Qed.

Lemma takes_part_filter (slice : string) (rules : list MatchReplaceRule) :
  existsb (Spec.takes_part slice) rules =
  match List.filter (selected slice) rules with [] => false | _ => true end.
Proof.
  induction rules as [|r rules IH]; [reflexivity|].
  cbn [existsb List.filter].
  change (Spec.takes_part slice r) with (selected slice r).
  now destruct (selected slice r).
Qed.

Lemma run_spec (slice : string) (rules : list MatchReplaceRule)
    (text : string) :
  apply_rules (List.filter (selected slice) rules) text
  = Spec.run slice rules text.
Proof.
  revert text. induction rules as [|r rules IH]; intros text; [reflexivity|].
  cbn [List.filter Spec.run].
  change (Spec.takes_part slice r) with (selected slice r).
  destruct (selected slice r); [|apply IH].
  unfold apply_rules. cbn [fold_left]. apply IH.
Qed.

Lemma rewrite_once_spec (rule : MatchReplaceRule) (h : dict) :
  apply_header_rule rule h = Spec.rewrite_once rule h.
Proof.
  unfold apply_header_rule, reparse, rewrite_lines, Spec.rewrite_once.
  rewrite gather_spec. now rewrite List.map_map.
Qed.

Lemma run_headers_spec (slice : string) (rules : list MatchReplaceRule)
    (h : dict) :
  rewrite_headers (List.filter (selected slice) rules) h
  = Spec.run_headers slice rules h.
Proof.
  revert h. induction rules as [|r rules IH]; intros h; [reflexivity|].
  cbn [List.filter Spec.run_headers].
  change (Spec.takes_part slice r) with (selected slice r).
  destruct (selected slice r); [|apply IH].
  unfold rewrite_headers. cbn [fold_left]. rewrite rewrite_once_spec.
  apply IH.
Qed.

(** The engine of the code is the engine as described, on every rule list,
    slice name and argument. *)
Lemma engine_spec (rules : list MatchReplaceRule) (slice : string)
    (data : mr_data) :
  _apply_match_replace rules slice data = Spec.engine rules slice data.
Proof.
  unfold _apply_match_replace, Spec.engine.
  rewrite takes_part_filter.
  pose proof (run_spec slice rules) as Hrun.
  pose proof (run_headers_spec slice rules) as Hhdr.
  destruct (List.filter (selected slice) rules) as [|r0 rs] eqn:E;
    [reflexivity|].
  set (sel := r0 :: rs) in *. clearbody sel. clear E r0 rs.
  unfold Spec.kind_of, is_in. cbn [existsb].
  destruct (String.eqb_spec slice "Request header") as [->|H1].
  { destruct data; cbn; now rewrite ?Hhdr. }
  destruct (String.eqb_spec slice "Response header") as [->|H2].
  { destruct data; cbn; now rewrite ?Hhdr. }
  cbn [orb].
  destruct (String.eqb_spec slice "Request body") as [->|H3].
  { destruct data as [|[b|]| |]; cbn; now rewrite ?Hrun. }
  destruct (String.eqb_spec slice "Response body") as [->|H4].
  { destruct data as [|[b|]| |]; cbn; now rewrite ?Hrun. }
  cbn [orb].
  destruct (String.eqb_spec slice "Request first line") as [->|H5].
  { destruct data as [| |m u|]; try reflexivity.
    rewrite Hrun. unfold request_line. rewrite <- split_fields.
    now destruct (Str.split " " _) as [|p0 [|p1 ps]]. }
  destruct (String.eqb_spec slice "Response first line") as [->|H6].
  { destruct data as [| | |st]; try reflexivity.
    rewrite Hrun. unfold status_line. rewrite <- split_fields.
    now destruct (Str.split " " _) as [|p0 [|p1 ps]]. }
  now destruct data as [|[b|]| |].
Qed.

End EngineSpec.

(** ** The rule engine slice by slice *)

Section EngineClaims.
Context `{PyRuntime}.

Lemma of_uint_no_space (d : Decimal.uint) :
  Str.contains " " (NilEmpty.string_of_uint d) = false.
Proof.
  induction d; cbn [NilEmpty.string_of_uint]; [reflexivity|..];
    rewrite StrFacts.contains_cons, StrFacts.prefix_cons, IHd; reflexivity.
Qed.

Lemma of_int_no_space (z : Z) : Str.contains " " (Str.of_int z) = false.
Proof.
  unfold Str.of_int, NilZero.string_of_int, NilZero.string_of_uint.
  destruct (Z.to_int z) as [d|d].
  - destruct d; try reflexivity; apply (of_uint_no_space (_ d)).
  - rewrite StrFacts.contains_cons, StrFacts.prefix_cons.
    destruct d; try reflexivity;
      cbn [andb Ascii.eqb]; apply (of_uint_no_space (_ d)).
Qed.

(** C6, as the code has it.  Without an enabled rule of the slice the first
    line comes back as it is.  Otherwise the virtual line is rewritten by
    the enabled rules of the slice in list order and split at every single
    space.  A line without a space keeps the original method and url (or
    status).  Any other line gives two fields, the text before the first
    space and the text up to the next space or the end, either of which may
    be empty: on the request side they become method and url; on the
    response side the second goes through [int], and the original status
    stays when [int] fails. *)
Theorem first_line_reparse (rules : list MatchReplaceRule)
    (method url : string) (status : Z) :
  _apply_match_replace rules "Request first line" (RequestLine method url)
  = (if existsb (Spec.takes_part "Request first line") rules then
       match Spec.fields (Spec.run "Request first line" rules
                            (method +:+ " " +:+ url +:+ " HTTP/1.1")) with
       | Some (m, u) => RequestLine m u
       | None => RequestLine method url
       end
     else RequestLine method url) /\
  _apply_match_replace rules "Response first line" (ResponseLine status)
  = (if existsb (Spec.takes_part "Response first line") rules then
       match Spec.fields (Spec.run "Response first line" rules
                            ("HTTP/1.1 " +:+ Str.of_int status)) with
       | Some (_, token) =>
           match py_int token with
           | Some n => ResponseLine n
           | None => ResponseLine status
           end
       | None => ResponseLine status
       end
     else ResponseLine status).
Proof.
  split.
  - rewrite engine_spec. unfold Spec.engine.
    destruct (existsb (Spec.takes_part "Request first line") rules);
      reflexivity.
  - rewrite engine_spec. unfold Spec.engine.
    destruct (existsb (Spec.takes_part "Response first line") rules);
      reflexivity.
Qed.

(** C9. A header line that the rule turns into non-empty text without any
    colon is kept by the emptiness test and then ignored by the re-parse: the
    iteration yields what it yields on the dictionary without that header,
    and the header's name is absent unless another line parses to it. *)
Theorem colon_free_line_dropped (rule : MatchReplaceRule) (h1 h2 : dict)
    (k v : string) :
  let new_line := apply_rule rule (header_line (k, v)) in
  Str.is_empty new_line = false ->
  Str.contains ":" new_line = false ->
  In new_line (rewrite_lines rule (map header_line (h1 ++ (k, v) :: h2))) /\
  apply_header_rule rule (h1 ++ (k, v) :: h2) = apply_header_rule rule (h1 ++ h2) /\
  ((forall kv k' v', In kv (h1 ++ h2) ->
       parse_line (apply_rule rule (header_line kv)) = Some (k', v') -> k' <> k) ->
   dict_get k (apply_header_rule rule (h1 ++ (k, v) :: h2)) = None).
Proof.
  intros new_line Hne Hcolon.
  assert (Hlines : rewrite_lines rule (map header_line (h1 ++ (k, v) :: h2))
                   = rewrite_lines rule (map header_line h1) ++ new_line
                     :: rewrite_lines rule (map header_line h2)).
  { rewrite map_app, rewrite_lines_app. f_equal.
    unfold rewrite_lines at 1. cbn [map List.filter]. fold new_line.
    now rewrite Hne. }
  assert (Heq : apply_header_rule rule (h1 ++ (k, v) :: h2)
                = apply_header_rule rule (h1 ++ h2)).
  { unfold apply_header_rule, reparse. rewrite Hlines.
    rewrite map_app, rewrite_lines_app, !fold_left_app. cbn [fold_left].
    unfold store_line at 2. now rewrite (parse_line_colon_free _ Hcolon). }
  split; [|split].
  - rewrite Hlines. apply in_or_app. right. now left.
  - exact Heq.
  - intros Hother. rewrite Heq. apply dict_get_none. intros Hin.
    unfold apply_header_rule, reparse in Hin.
    apply fold_store_keys in Hin as [[]|(line & v' & Hl & Hp)].
    unfold rewrite_lines in Hl. apply filter_In in Hl as [Hl _].
    apply in_map_iff in Hl as (l0 & <- & Hl0).
    apply in_map_iff in Hl0 as (kv & <- & Hkv).
    now apply (Hother kv k v' Hkv Hp).
Qed.

Lemma filter_selected_split (item_type : string)
    (l1 l2 : list MatchReplaceRule) (rule : MatchReplaceRule) :
  List.filter (selected item_type) (l1 ++ rule :: l2) =
  List.filter (selected item_type) l1
  ++ (if selected item_type rule then [rule] else [])
  ++ List.filter (selected item_type) l2.
Proof.
  rewrite List.filter_app. cbn [List.filter].
  now destruct (selected item_type rule).
Qed.

Lemma request_line_fields (m u : string) :
  Str.contains " " m = false -> Str.contains " " u = false ->
  exists ws, Str.split " " (request_line m u) = m :: u :: ws.
Proof.
  intros Hm Hu. apply (first_fields " " m u " HTTP/1.1"); auto.
Qed.

Lemma status_line_fields (status : Z) :
  Str.split " " (status_line status) = ["HTTP/1.1"; Str.of_int status].
Proof.
  unfold status_line.
  change ("HTTP/1.1 " +:+ Str.of_int status)
    with ("HTTP/1.1" +:+ String " " (Str.of_int status)).
  rewrite StrFacts.split_app by reflexivity.
  now rewrite StrFacts.split_absent by apply of_int_no_space.
Qed.

Lemma apply_rule_raised (rule : MatchReplaceRule) (text : string) :
  isRegex rule = true ->
  re_sub (match_ rule) (replace rule) text = Raised ->
  apply_rule rule text = text.
Proof. intros Hre Hr. unfold apply_rule. now rewrite Hre, Hr. Qed.

Lemma apply_rules_skip_at (l1 l2 : list MatchReplaceRule)
    (rule : MatchReplaceRule) (line : string) :
  isRegex rule = true ->
  re_sub (match_ rule) (replace rule) (apply_rules l1 line) = Raised ->
  apply_rules (l1 ++ rule :: l2) line = apply_rules (l1 ++ l2) line.
Proof.
  intros Hre Hr. rewrite !apply_rules_app. unfold apply_rules at 1.
  cbn [fold_left]. now rewrite apply_rule_raised.
Qed.

Lemma rewrite_lines_raises_at (rule : MatchReplaceRule) (h : dict) :
  isRegex rule = true ->
  Forall (fun text => re_sub (match_ rule) (replace rule) text = Raised)
         (map header_line h) ->
  rewrite_lines rule (map header_line h) = map header_line h.
Proof.
  intros Hre. unfold rewrite_lines. induction h as [|kv h IH]; intros Hr;
    [reflexivity|].
  cbn [map] in Hr. apply Forall_cons in Hr as [Hkv Hr].
  cbn [map List.filter]. rewrite apply_rule_raised by assumption.
  rewrite header_line_nonempty. cbn [negb]. now rewrite IH.
Qed.

Lemma rewrite_headers_skip_at (l1 l2 : list MatchReplaceRule)
    (rule : MatchReplaceRule) (h : dict) :
  isRegex rule = true ->
  Forall (fun text => re_sub (match_ rule) (replace rule) text = Raised)
         (map header_line (rewrite_headers l1 h)) ->
  wf_names h ->
  rewrite_headers (l1 ++ rule :: l2) h = rewrite_headers (l1 ++ l2) h.
Proof.
  intros Hre Hr Hwf. unfold rewrite_headers. rewrite !fold_left_app.
  cbn [fold_left]. f_equal. unfold apply_header_rule, reparse.
  rewrite rewrite_lines_raises_at by assumption.
  rewrite fold_store_dict.
  - reflexivity.
  - now apply rewrite_headers_wf.
  - intros k _ Hin. destruct Hin.
Qed.

(** C8, as the code has it.  On a slice as the pipeline provides it, a
    regular-expression rule whose substitution raises on every text it is
    applied to is skipped: the engine gives what the described engine gives
    for the list without that rule, so the rules before it and the rules
    after it run in order, and the result is a slice in every case. *)
Theorem raising_rule_skipped (rules1 rules2 : list MatchReplaceRule)
    (rule : MatchReplaceRule) (slice : string) (data : mr_data) :
  isRegex rule = true ->
  Forall (fun text => re_sub (match_ rule) (replace rule) text = Raised)
         (Spec.reaches slice rules1 data) ->
  wf_slice data ->
  _apply_match_replace (rules1 ++ rule :: rules2) slice data
  = Spec.engine (rules1 ++ rules2) slice data.
Proof.
  intros Hre Hr Hwf. rewrite <- engine_spec. unfold _apply_match_replace.
  rewrite filter_selected_split, List.filter_app.
  destruct (selected slice rule); [|reflexivity].
  pose proof (run_spec slice rules1) as Hrun.
  pose proof (run_headers_spec slice rules1) as Hhdr.
  set (A := List.filter (selected slice) rules1) in *.
  set (B := List.filter (selected slice) rules2).
  cbn [app].
  destruct (A ++ rule :: B) as [|r0 l0] eqn:E; [now destruct A|].
  rewrite <- E. clear E r0 l0.
  destruct (is_in slice ["Request header"; "Response header"]).
  { destruct data as [h| | |]; try (now destruct (A ++ B)).
    cbn [Spec.reaches] in Hr. rewrite <- Hhdr in Hr.
    rewrite rewrite_headers_skip_at by assumption.
    now destruct (A ++ B) eqn:E. }
  destruct (is_in slice ["Request body"; "Response body"]).
  { destruct data as [|[body|]| |]; try (now destruct (A ++ B)).
    cbn [Spec.reaches] in Hr. apply Forall_cons in Hr as [Hr _].
    rewrite <- Hrun in Hr.
    rewrite apply_rules_skip_at by assumption.
    now destruct (A ++ B) eqn:E. }
  destruct (String.eqb slice "Request first line").
  { destruct data as [| |m u|]; try (now destruct (A ++ B)).
    cbn [Spec.reaches] in Hr. apply Forall_cons in Hr as [Hr _].
    rewrite <- Hrun in Hr.
    rewrite apply_rules_skip_at by assumption.
    destruct (A ++ B) eqn:E; [|reflexivity].
    destruct Hwf as [Hm Hu].
    destruct (request_line_fields m u Hm Hu) as [ws Hs].
    unfold apply_rules. cbn [fold_left]. now rewrite Hs. }
  destruct (String.eqb slice "Response first line").
  { destruct data as [| | |status]; try (now destruct (A ++ B)).
    cbn [Spec.reaches] in Hr. apply Forall_cons in Hr as [Hr _].
    rewrite <- Hrun in Hr.
    rewrite apply_rules_skip_at by assumption.
    destruct (A ++ B) eqn:E; [|reflexivity].
    unfold apply_rules. cbn [fold_left]. rewrite status_line_fields.
    cbn in Hwf. now rewrite Hwf. }
  now destruct (A ++ B).
Qed.

End EngineClaims.

(** ** Replay: the safe set *)

Section ReplayClaims.
Context `{PyRuntime}.

Lemma safe_part_keys (stored : dict) (k : string) :
  In k (keys (safe_part stored)) ->
  is_in (Str.lower k) forbidden = false /\
  String.prefix "sec-" (Str.lower k) = false.
Proof.
  unfold keys, safe_part. intros Hin.
  apply in_map_iff in Hin as ([k' v] & <- & Hin).
  apply filter_In in Hin as [_ Hf]. cbn [fst] in *.
  apply andb_true_iff in Hf as [Hf Hs].
  now apply negb_true_iff in Hf, Hs.
Qed.

(** C7, as the code has it.  No header whose lower-cased name is one of host,
    connection, keep-alive, proxy-authenticate, proxy-authorization, te,
    trailer, transfer-encoding, upgrade, cookie, user-agent, referer, origin,
    content-length, date, expect, or begins with sec-, is in the set handed
    to the in-page fetch. *)
Theorem safe_headers_exclude (stored : dict) (k : string) :
  In (Str.lower k)
     ["host"; "connection"; "keep-alive"; "proxy-authenticate";
      "proxy-authorization"; "te"; "trailer"; "transfer-encoding"; "upgrade";
      "cookie"; "user-agent"; "referer"; "origin"; "content-length"; "date";
      "expect"]
  \/ String.prefix "sec-" (Str.lower k) = true ->
  ~ In k (keys (replay_safe_headers stored)).
Proof.
  intros Hk Hin. unfold replay_safe_headers in Hin.
  apply dict_set_in in Hin as [->|Hin].
  { vm_compute in Hk. intuition discriminate. }
  apply dict_set_in in Hin as [->|Hin].
  { vm_compute in Hk. intuition discriminate. }
  apply safe_part_keys in Hin as [Hf Hs].
  destruct Hk as [Hk|Hk]; [|congruence].
  apply is_in_false in Hf. now apply Hf.
Qed.

End ReplayClaims.

(** The claim as written fails on a [Proxy-] name outside the list. *)
Lemma proxy_prefix_kept :
  String.prefix "proxy-" (Str.lower "Proxy-Connection") = true /\
  In "Proxy-Connection"
     (keys (@replay_safe_headers demo_runtime
              [("Proxy-Connection", "keep-alive")])).
Proof. split; [reflexivity | vm_compute; now left]. Qed.

Lemma safe_headers_exclude_witness :
  ~ In "Host"
      (keys (@replay_safe_headers demo_runtime
               [("Host", "a.example"); ("Cookie", "sid=1"); ("X-Foo", "bar")])).
Proof.
  apply (@safe_headers_exclude demo_runtime). left. vm_compute. now left.
Defined.

(** ** Following a property through the handler *)

Section Stable.
Context `{PyRuntime}.
Variable env : Env.
Variable I : machine -> Prop.

Lemma stable_ret {A : Type} (a : A) : stable I (mret a : task A).
Proof. intros m Im. exact Im. Qed.

Lemma stable_bind {A B : Type} (t : task A) (k : A -> task B) :
  stable I t -> (forall a, stable I (k a)) -> stable I (t ≫= k).
Proof.
  intros Ht Hk m Im. specialize (Ht m Im).
  unfold mbind, task_bind, bind. destruct (t m) as [[a| |] m']; cbn in *.
  - now apply Hk.
  - exact Ht.
  - exact Ht.
Qed.

Lemma stable_try {A : Type} (body handler : task A) :
  stable I body -> stable I handler -> stable I (try_except body handler).
Proof.
  intros Hb Hh m Im. specialize (Hb m Im). unfold try_except.
  destruct (body m) as [[a| |] m']; cbn in *; auto.
Qed.

Lemma stable_lift {A : Type} (o : outcome A) : stable I (lift o).
Proof. intros m Im. unfold lift. now destruct o. Qed.

Lemma stable_get_self : stable I get_self.
Proof. intros m Im. exact Im. Qed.

(** From here on [I] is an invariant in the sense of [invariant]. *)
Variable okcall : route_call -> Prop.
Variable okitem : string -> PendingItem -> Prop.
Variable okhdr : dict -> Prop.
Hypothesis Inv : invariant env I okcall okitem okhdr.

(** Parking the request is in order, and replacement headers found on the
    parked request are in order. *)
Hypothesis ok_park_request : forall k d,
  okitem (uuid_req env) {| p_type := k; p_data := d; p_event := false;
                           p_action := None; p_modified := None |}.
Hypothesis ok_modified : forall m h,
  I m -> okhdr h ->
  okhdr (default h (o_headers (modified_of
                      (pending_items (mgr m) !! uuid_req env)))).

Lemma stable_yield (pt : await_point) : stable I (yield_at env pt).
Proof. intros m Im. now apply (inv_commands _ _ _ _ _ Inv). Qed.

Lemma stable_log (c : route_call) : okcall c -> stable I (log_call c).
Proof. intros Hc m Im. now apply (inv_log _ _ _ _ _ Inv). Qed.

Lemma stable_await {A : Type} (pt : await_point) (c : route_call)
    (o : outcome A) :
  okcall c -> stable I (await env pt c o).
Proof.
  intros Hc. unfold await.
  apply stable_bind; [now apply stable_log|]. intros _.
  apply stable_bind; [apply stable_yield|]. intros _. apply stable_lift.
Qed.

Lemma stable_await_read {A : Type} (pt : await_point) (o : outcome A) :
  stable I (await_read env pt o).
Proof.
  unfold await_read. apply stable_bind; [apply stable_yield|].
  intros _. apply stable_lift.
Qed.

Lemma stable_wait_event (item_id : string) (pt : await_point) :
  stable I (wait_event env item_id pt).
Proof.
  intros m Im. unfold wait_event.
  destruct (event_is_set item_id (mgr m)); [exact Im|].
  pose proof (stable_yield pt m Im) as Hy.
  destruct (yield_at env pt m) as [r m']. cbn in Hy.
  now destruct (event_is_set item_id (mgr m')).
Qed.

Lemma stable_set_pending (item_id : string) (it : PendingItem) :
  okitem item_id it -> stable I (set_pending item_id it).
Proof. intros Hok m Im. now apply (inv_set _ _ _ _ _ Inv). Qed.

Lemma stable_del_pending (item_id : string) : stable I (del_pending item_id).
Proof. intros m Im. now apply (inv_del _ _ _ _ _ Inv). Qed.

Lemma stable_get_pending (item_id : string) : stable I (get_pending item_id).
Proof. intros m Im. exact Im. Qed.

Lemma stable_emit (pt : await_point) (c : capture) (o : outcome unit) :
  stable I (emit env pt c o).
Proof.
  unfold emit. apply stable_bind; [apply stable_get_self|]. intros self.
  destruct (on_request_captured self);
    [apply stable_await; ok_call | apply stable_ret].
Qed.

Lemma stable_resume_response (res_id : string) (res_status : Z)
    (res_headers : dict) (res_body : string) :
  stable I (resume_response env res_id res_status res_headers res_body).
Proof.
  unfold resume_response.
  apply stable_bind; [apply stable_get_pending|]. intros item.
  destruct (is_drop item);
    (apply stable_bind; [apply stable_del_pending|]; intros _;
     apply stable_await; ok_call).
Qed.

Lemma stable_response_stage (req_id : string) (response : APIResponse) :
  stable I (response_stage env req_id response).
Proof.
  unfold response_stage.
  apply stable_bind.
  { apply stable_try; [apply stable_await_read | apply stable_ret]. }
  intros res_body. apply stable_bind; [apply stable_get_self|]. intros self.
  destruct (intercept_responses self).
  - apply stable_bind; [apply stable_set_pending; ok_call|]. intros _.
    apply stable_bind; [apply stable_emit|]. intros _.
    apply stable_bind; [apply stable_wait_event|]. intros _.
    apply stable_resume_response.
  - apply stable_bind; [apply stable_emit|]. intros _.
    apply stable_await; ok_call.
Qed.

Lemma stable_dispatch_stage (req_id : string) (is_repeater_bypass : bool)
    (final_method final_url : string) (final_headers : dict)
    (final_body : option string) :
  okhdr final_headers ->
  stable I (dispatch_stage env req_id is_repeater_bypass final_method
                           final_url final_headers final_body).
Proof.
  intros Hh. unfold dispatch_stage. destruct is_repeater_bypass.
  - apply stable_try; apply stable_await;
      [apply (ok_continue _ _ _ _ _ Inv); cbn; now apply (okhdr_filter _ _ _ _ _ Inv) | exact (ok_abort _ _ _ _ _ Inv)].
  - apply stable_bind.
    + apply stable_try.
      * apply stable_bind; [apply stable_await; now apply (ok_fetch _ _ _ _ _ Inv)|].
        intros response. apply stable_ret.
      * apply stable_bind; [apply stable_await; ok_call|]. intros _.
        apply stable_ret.
    + intros [response|]; [apply stable_response_stage | apply stable_ret].
Qed.

Lemma stable_bind_lift {A B : Type} (o : outcome A) (k : A -> task B) :
  (forall a, o = Ok a -> stable I (k a)) -> stable I (lift o ≫= k).
Proof.
  intros Hk m Im. destruct o as [a|]; [|exact Im].
  exact (Hk a eq_refl m Im).
Qed.

Lemma stable_bind_get_pending {B : Type} (item_id : string)
    (k : option PendingItem -> task B) :
  (forall m, I m -> I (snd (k (pending_items (mgr m) !! item_id) m))) ->
  stable I (get_pending item_id ≫= k).
Proof. intros Hk m Im. exact (Hk m Im). Qed.

Lemma stable_resume_request (is_repeater_bypass : bool)
    (final_method final_url : string) (final_headers : dict)
    (final_body : option string) :
  okhdr final_headers ->
  stable I (resume_request env (uuid_req env) is_repeater_bypass final_method
                           final_url final_headers final_body).
Proof.
  intros Hh. unfold resume_request.
  apply stable_bind_get_pending. intros m Im.
  pose proof (ok_modified m final_headers Im Hh) as Hmod.
  destruct (is_drop (pending_items (mgr m) !! uuid_req env)).
  - refine (stable_bind _ _ (stable_del_pending _) _ m Im).
    intros _. apply stable_await; ok_call.
  - refine (stable_bind _ _ (stable_del_pending _) _ m Im).
    intros _. now apply stable_dispatch_stage.
Qed.

Lemma stable_request_stage (self : BrowserManager) (request : Request)
    (final_method final_url : string) (final_headers : dict)
    (final_body : option string) :
  (forall h,
      apply_channel (fst (scan_channel final_headers))
                    (snd (scan_channel final_headers)) final_headers = Ok h ->
      okhdr h) ->
  stable I (request_stage env self request final_method final_url
                          final_headers final_body).
Proof.
  intros Hch. unfold request_stage.
  destruct (scan_channel final_headers) as [byp ov]. cbn [fst snd] in Hch.
  apply stable_bind_lift. intros h Hh. apply Hch in Hh.
  destruct (intercept_requests self && negb byp).
  - apply stable_bind; [apply stable_set_pending; ok_call|]. intros _.
    apply stable_bind; [apply stable_emit|]. intros _.
    apply stable_bind; [apply stable_wait_event|]. intros _.
    now apply stable_resume_request.
  - apply stable_bind; [apply stable_emit|]. intros _.
    now apply stable_dispatch_stage.
Qed.

Lemma stable_body (request : Request) :
  (forall h, okhdr h) -> stable I (route_handler_body env request).
Proof.
  intros Hall. unfold route_handler_body.
  apply stable_bind; [apply stable_await_read|]. intros headers.
  apply stable_bind; [apply stable_lift|]. intros post_data.
  apply stable_bind; [apply stable_get_self|]. intros self.
  destruct (rewrite_request _ _ _ _) as [[[fm fu] fh] fb].
  apply stable_request_stage. intros h _. apply Hall.
Qed.

End Stable.

(** ** Pending registry *)

Lemma forward_item_unknown (item_id : string) (modified : option overrides)
    (self : BrowserManager) :
  pending_items self !! item_id = None ->
  forward_item item_id modified self = (false, self).
Proof. intros Hn. unfold forward_item. now rewrite Hn. Qed.

Lemma drop_item_unknown (item_id : string) (self : BrowserManager) :
  pending_items self !! item_id = None ->
  drop_item item_id self = (false, self).
Proof. intros Hn. unfold drop_item. now rewrite Hn. Qed.

Lemma forward_item_lookup (item_id : string) (ov : overrides)
    (self : BrowserManager) (it : PendingItem) :
  pending_items self !! item_id = Some it ->
  overrides_truthy ov = true ->
  pending_items (snd (forward_item item_id (Some ov) self)) !! item_id =
  Some {| p_type := p_type it; p_data := p_data it; p_event := true;
          p_action := Some Forward; p_modified := Some ov |}.
Proof.
  intros Hs Ht. unfold forward_item. rewrite Hs, Ht. cbn.
  apply lookup_insert_eq.
Qed.

Lemma run_command_absent (item_id : string) (self : BrowserManager)
    (c : command) :
  pending_items self !! item_id = None ->
  pending_items (run_command self c) !! item_id = None.
Proof.
  intros Hn. destruct c as [b|b|i m|i|r]; cbn; try assumption.
  - unfold forward_item. destruct (pending_items self !! i) eqn:E;
      [|assumption].
    cbn. rewrite lookup_insert_ne; [assumption | congruence].
  - unfold drop_item. destruct (pending_items self !! i) eqn:E;
      [|assumption].
    cbn. rewrite lookup_insert_ne; [assumption | congruence].
Qed.

Lemma run_commands_absent (item_id : string) (cs : list command)
    (self : BrowserManager) :
  pending_items self !! item_id = None ->
  pending_items (run_commands cs self) !! item_id = None.
Proof.
  revert self. induction cs as [|c cs IH]; intros self Hn; [assumption|].
  cbn. now apply IH, run_command_absent.
Qed.

Lemma run_command_clean (item_id : string) (self : BrowserManager)
    (c : command) :
  command_clean c ->
  (forall it, pending_items self !! item_id = Some it -> item_clean it) ->
  forall it, pending_items (run_command self c) !! item_id = Some it ->
             item_clean it.
Proof.
  intros Hc Hs it. destruct c as [b|b|i m|i|r]; cbn; try apply Hs.
  - unfold forward_item. destruct (pending_items self !! i) as [old|] eqn:E;
      [|apply Hs].
    cbn. destruct (decide (i = item_id)) as [->|Hne].
    + rewrite lookup_insert_eq. intros [= <-]. specialize (Hs old E).
      unfold item_clean in *. cbn.
      destruct m as [m|]; [|exact Hs].
      destruct (overrides_truthy m); [exact Hc | exact Hs].
    + rewrite lookup_insert_ne by assumption. apply Hs.
  - unfold drop_item. destruct (pending_items self !! i) as [old|] eqn:E;
      [|apply Hs].
    cbn. destruct (decide (i = item_id)) as [->|Hne].
    + rewrite lookup_insert_eq. intros [= <-]. exact (Hs old E).
    + rewrite lookup_insert_ne by assumption. apply Hs.
Qed.

Lemma run_commands_clean (item_id : string) (cs : list command)
    (self : BrowserManager) :
  Forall command_clean cs ->
  (forall it, pending_items self !! item_id = Some it -> item_clean it) ->
  forall it, pending_items (run_commands cs self) !! item_id = Some it ->
             item_clean it.
Proof.
  revert self. induction cs as [|c cs IH]; intros self Hcs Hs; [assumption|].
  apply Forall_cons in Hcs as [Hc Hcs]. cbn.
  apply IH; [assumption|]. now apply run_command_clean.
Qed.

(** ** The three invariants *)

Lemma no_passthrough_invariant (env : Env) :
  invariant env no_passthrough (fun c => is_passthrough c = false)
            (fun _ _ => True) (fun _ => True).
Proof.
  split; try (intros; exact I); try (intros; reflexivity);
    try (intros; assumption).
  intros m c Hc Hm. unfold no_passthrough in *. cbn.
  apply Forall_app. split; [assumption|]. now constructor.
Qed.

Lemma absent_invariant (env : Env) (item_id : string) :
  uuid_res env <> item_id ->
  invariant env (absent item_id) (fun _ => True)
            (fun i _ => i <> item_id) (fun _ => True).
Proof.
  intros Hne. split; try (intros; exact I); try (intros; assumption).
  - intros m pt Hm. unfold absent in *. cbn. now apply run_commands_absent.
  - intros m i it Hi Hm. unfold absent in *. cbn.
    now rewrite lookup_insert_ne.
  - intros m i Hm. unfold absent in *. cbn.
    destruct (decide (i = item_id)) as [->|Hn];
      [apply lookup_delete_eq | now rewrite lookup_delete_ne].
Qed.

Lemma no_reserved_filter (f : string * string -> bool) (h : dict) :
  no_reserved h -> no_reserved (List.filter f h).
Proof.
  unfold no_reserved, keys. rewrite !Forall_forall. intros Hh k Hk.
  apply list_elem_of_In, in_map_iff in Hk as (kv & <- & Hkv).
  apply filter_In in Hkv as [Hkv _]. apply Hh.
  apply list_elem_of_In, in_map_iff. now exists kv.
Qed.

Lemma clean_invariant (env : Env) :
  (forall pt, Forall command_clean (other_tasks env pt)) ->
  invariant env (clean_so_far (uuid_req env)) egress_clean
            (fun _ it => item_clean it) no_reserved.
Proof.
  intros Hcmd. split; try (intros; exact I); try (intros; assumption).
  - intros m pt [Ht Hp]. split; [exact Ht|]. cbn.
    now apply run_commands_clean.
  - intros m c Hc [Ht Hp]. split; [|exact Hp]. cbn.
    apply Forall_app. split; [assumption|]. now constructor.
  - intros m i it Hi [Ht Hp]. split; [exact Ht|]. cbn. intros it'.
    destruct (decide (i = uuid_req env)) as [->|Hn].
    + rewrite lookup_insert_eq. now intros [= <-].
    + rewrite lookup_insert_ne by assumption. apply Hp.
  - intros m i [Ht Hp]. split; [exact Ht|]. cbn. intros it'.
    destruct (decide (i = uuid_req env)) as [->|Hn].
    + now rewrite lookup_delete_eq.
    + rewrite lookup_delete_ne by assumption. apply Hp.
  - intros f h. apply no_reserved_filter.
Qed.

(** ** The scan of the channel headers *)

Section ChannelScan.
Context `{PyRuntime}.

Lemma scan_step_flag (st : bool * (bool * option dict))
    (kv : string * string) :
  fst st = true -> fst (scan_step st kv) = true.
Proof.
  intros Hst. unfold scan_step.
  destruct (String.eqb _ "x-waf-bypass-repeater"); [reflexivity|].
  destruct (String.eqb _ "x-antigravity-override"); [|exact Hst].
  now destruct (json_loads (snd kv)).
Qed.

Lemma scan_fold_flag (l : dict) (st : bool * (bool * option dict)) :
  fst st = true -> fst (fold_left scan_step l st) = true.
Proof.
  revert st. induction l as [|kv l IH]; intros st Hst; [exact Hst|].
  cbn [fold_left]. now apply IH, scan_step_flag.
Qed.

Lemma scan_fold_marked (l : dict) (st : bool * (bool * option dict)) :
  bypass_marked l -> fst (fold_left scan_step l st) = true.
Proof.
  unfold bypass_marked. intros Hex. revert st.
  induction Hex as [kv l Hkv|kv l _ IH]; intros st; cbn [fold_left].
  - apply scan_fold_flag. unfold scan_step. now rewrite Hkv.
  - apply IH.
Qed.

(** The bypass flag is raised by any header of that name. *)
Lemma scan_bypass_marked (fh : dict) :
  bypass_marked fh -> fst (scan_channel fh) = true.
Proof. apply scan_fold_marked. Qed.

Lemma scan_fold_unparsed (l : dict) (st : bool * (bool * option dict)) :
  Forall (fun kv => Str.lower (fst kv) = "x-antigravity-override" ->
                    json_loads (snd kv) = JsonError) l ->
  snd (fold_left scan_step l st) = snd st.
Proof.
  revert st. induction l as [|kv l IH]; intros st Hl; [reflexivity|].
  apply Forall_cons in Hl as [Hkv Hl]. cbn [fold_left].
  rewrite IH by assumption. unfold scan_step.
  destruct (String.eqb _ "x-waf-bypass-repeater"); [reflexivity|].
  destruct (String.eqb _ "x-antigravity-override") eqn:E; [|reflexivity].
  apply String.eqb_eq in E. now rewrite (Hkv E).
Qed.

(** The override the scan ends with is that of the last override header
    that parses. *)
Lemma scan_last_override (fh : dict) (truthy : bool) (pairs : option dict) :
  last_override fh truthy pairs ->
  snd (scan_channel fh) = (truthy, pairs).
Proof.
  intros (before & k & v & after & -> & Hk & Hv & Hafter).
  unfold scan_channel. rewrite fold_left_app. cbn [fold_left].
  rewrite scan_fold_unparsed by assumption.
  unfold scan_step. cbn [fst snd]. rewrite Hk, Hv. reflexivity.
Qed.

Lemma scan_override_origin (l : dict) (st : bool * (bool * option dict))
    (truthy : bool) (pairs : option dict) :
  snd (fold_left scan_step l st) = (truthy, pairs) ->
  last_override l truthy pairs \/
  (snd st = (truthy, pairs) /\
   Forall (fun kv => Str.lower (fst kv) = "x-antigravity-override" ->
                     json_loads (snd kv) = JsonError) l).
Proof.
  revert st. induction l as [|kv l IH]; intros st Hs; [right; now split|].
  cbn [fold_left] in Hs. apply IH in Hs as [Hlast|[Hst Hl]].
  - left. destruct Hlast as (before & k & v & after & -> & Hk & Hv & Ha).
    exists (kv :: before), k, v, after. now repeat split.
  - unfold scan_step in Hst.
    destruct (String.eqb _ "x-waf-bypass-repeater") eqn:Eb.
    { right. split; [exact Hst|]. constructor; [|exact Hl].
      intros Hk. apply String.eqb_eq in Eb. rewrite Hk in Eb. discriminate. }
    destruct (String.eqb _ "x-antigravity-override") eqn:Eo.
    2:{ right. split; [exact Hst|]. constructor; [|exact Hl].
        intros Hk. apply String.eqb_neq in Eo. contradiction. }
    apply String.eqb_eq in Eo.
    destruct (json_loads (snd kv)) as [|t p] eqn:Ej.
    + right. split; [exact Hst|]. now constructor.
    + left. cbn [snd] in Hst. injection Hst as -> ->.
      exists [], (fst kv), (snd kv), l. destruct kv. now repeat split.
Qed.

(** A truthy override at the end of the scan comes from a header. *)
Lemma scan_truthy_origin (fh : dict) (pairs : option dict) :
  snd (scan_channel fh) = (true, pairs) -> last_override fh true pairs.
Proof.
  intros Hs. apply scan_override_origin in Hs as [Hlast|[Hst _]];
    [exact Hlast | discriminate].
Qed.

End ChannelScan.

(** ** The route handler *)

Section HandlerClaims.
Context `{PyRuntime}.
Variable env : Env.

Lemma bind_get_pending {B : Type} (item_id : string)
    (k : option PendingItem -> task B) (m : machine) :
  (get_pending item_id ≫= k) m = k (pending_items (mgr m) !! item_id) m.
Proof. reflexivity. Qed.

Lemma bind_del_pending {B : Type} (item_id : string) (k : unit -> task B)
    (m : machine) :
  (del_pending item_id ≫= k) m =
  k tt {| mgr := with_pending (mgr m) (delete item_id (pending_items (mgr m)));
          trace := trace m |}.
Proof. reflexivity. Qed.

Lemma run_await {A : Type} (pt : await_point) (c : route_call)
    (o : outcome A) (m : machine) :
  await env pt c o m =
  lift o {| mgr := run_commands (other_tasks env pt) (mgr m);
            trace := trace m ++ [c] |}.
Proof. reflexivity. Qed.

(** The handler's own exceptions end in the passthrough, which ends the
    handler whatever its outcome. *)
Lemma fallback_run (m : machine) :
  try_except (await env AtFallback (RouteContinue None) (fallback_result env))
             (mret tt) m =
  (Returned tt,
   {| mgr := run_commands (other_tasks env AtFallback) (mgr m);
      trace := trace m ++ [RouteContinue None] |}).
Proof.
  unfold try_except. rewrite run_await. unfold lift.
  now destruct (fallback_result env) as [[]|].
Qed.

Lemma dispatch_failure_aborts (req_id fm fu : string) (fh : dict)
    (fb : option string) (m0 : machine) :
  (fetch_result env = Raised ->
   trace (snd (dispatch_stage env req_id false fm fu fh fb m0)) =
   trace m0 ++ [RouteFetch {| d_method := fm; d_url := fu; d_headers := fh;
                              d_post_data := fb |}; RouteAbort]) /\
  (continue_result env = Raised ->
   exists args,
     trace (snd (dispatch_stage env req_id true fm fu fh fb m0)) =
     trace m0 ++ [RouteContinue (Some args); RouteAbort]).
Proof.
  split; intros Hr; unfold dispatch_stage, try_except;
    unfold mbind, task_bind, bind; rewrite !run_await, Hr; cbn;
    rewrite run_await; destruct (abort_result env) as [[]|]; cbn;
    rewrite <- ?app_assoc; eauto.
Qed.

(** C2, as the code has it.  When the [try] block raises, the handler makes
    the passthrough call [route.continue_()] as its last call and returns,
    whether or not that call raises: nothing follows it, in particular no
    abort.  When the block does not raise there is no passthrough.  A
    failing [route.fetch] or [route.continue_(...)] is answered inside the
    block by [route.abort()].  (Exceptions are those of class [Exception];
    see [outcome].) *)
Theorem passthrough_fallback (request : Request) (m : machine) :
  no_passthrough m ->
  let body := route_handler_body env request m in
  let run := _route_handler env request m in
  (fst body = Threw ->
     fst run = Returned tt /\ no_passthrough (snd body) /\
     trace (snd run) = trace (snd body) ++ [RouteContinue None]) /\
  (fst body <> Threw -> run = body /\ no_passthrough (snd run)) /\
  (forall req_id fm fu fh fb m0,
     (fetch_result env = Raised ->
      trace (snd (dispatch_stage env req_id false fm fu fh fb m0)) =
      trace m0 ++ [RouteFetch {| d_method := fm; d_url := fu; d_headers := fh;
                                 d_post_data := fb |}; RouteAbort]) /\
     (continue_result env = Raised ->
      exists args,
        trace (snd (dispatch_stage env req_id true fm fu fh fb m0)) =
        trace m0 ++ [RouteContinue (Some args); RouteAbort])).
Proof.
  intros Hm body run.
  assert (Hb : no_passthrough (snd body)).
  { apply (stable_body env no_passthrough _ _ _ (no_passthrough_invariant env));
      auto. }
  assert (Hrun : run = match body with
                       | (Threw, mb) =>
                           try_except
                             (await env AtFallback (RouteContinue None)
                                    (fallback_result env)) (mret tt) mb
                       | (Returned a, mb) => (Returned a, mb)
                       | (Waiting, mb) => (Waiting, mb)
                       end) by reflexivity.
  rewrite Hrun. clear Hrun. clearbody body. clear run.
  destruct body as [[[]| |] mb]; cbn [fst snd] in *.
  - repeat split; try congruence; auto; apply dispatch_failure_aborts.
  - rewrite fallback_run. cbn [fst snd trace].
    repeat split; try congruence; auto; apply dispatch_failure_aborts.
  - repeat split; try congruence; auto; apply dispatch_failure_aborts.
Qed.

(** *** Verdicts *)

Lemma lift_state {A : Type} (o : outcome A) (m : machine) : snd (lift o m) = m.
Proof. unfold lift. now destruct o. Qed.

Lemma resume_response_removes (res_id : string) (st : Z) (hs : dict)
    (b : string) (m : machine) :
  absent res_id (snd (resume_response env res_id st hs b m)).
Proof.
  unfold resume_response. rewrite bind_get_pending.
  destruct (is_drop _); rewrite bind_del_pending, run_await, lift_state;
    unfold absent; cbn; apply run_commands_absent, lookup_delete_eq.
Qed.

Lemma resume_request_removes (req_id : string) (byp : bool) (fm fu : string)
    (fh : dict) (fb : option string) (m : machine) :
  uuid_res env <> req_id ->
  absent req_id (snd (resume_request env req_id byp fm fu fh fb m)).
Proof.
  intros Hne. unfold resume_request. rewrite bind_get_pending.
  destruct (is_drop _); rewrite bind_del_pending.
  - rewrite run_await, lift_state. unfold absent. cbn.
    apply run_commands_absent, lookup_delete_eq.
  - apply (stable_dispatch_stage env (absent req_id) _ _ _
             (absent_invariant env req_id Hne)); [exact I|].
    unfold absent. cbn. apply lookup_delete_eq.
Qed.

(** C3, as the code has it.  A verdict for an id that is not in the registry
    is refused and changes nothing.  A verdict for an id that is in the
    registry is accepted: it records the action, sets the event and leaves
    the entry in place, so that a further verdict arriving before the
    pipeline has resumed is accepted as well.  The resumed pipeline removes
    the entry, and from then on verdicts for the id are refused. *)
Theorem verdict_lifecycle (self : BrowserManager) (item_id : string)
    (modified : option overrides) :
  (pending_items self !! item_id = None ->
   forward_item item_id modified self = (false, self) /\
   drop_item item_id self = (false, self)) /\
  (forall it,
     pending_items self !! item_id = Some it ->
     fst (forward_item item_id modified self) = true /\
     fst (drop_item item_id self) = true /\
     (exists it',
        pending_items (snd (forward_item item_id modified self)) !! item_id
        = Some it' /\ p_action it' = Some Forward /\ p_event it' = true) /\
     (exists it',
        pending_items (snd (drop_item item_id self)) !! item_id = Some it' /\
        p_action it' = Some Drop /\ p_event it' = true)) /\
  (forall byp fm fu fh fb st hs b tr,
     let m := {| mgr := self; trace := tr |} in
     (uuid_res env <> item_id ->
      let after := mgr (snd (resume_request env item_id byp fm fu fh fb m)) in
      forward_item item_id modified after = (false, after) /\
      drop_item item_id after = (false, after)) /\
     (let after := mgr (snd (resume_response env item_id st hs b m)) in
      forward_item item_id modified after = (false, after) /\
      drop_item item_id after = (false, after))).
Proof.
  split; [|split].
  - intros Hn. split;
      [now apply forward_item_unknown | now apply drop_item_unknown].
  - intros it Hs. unfold forward_item, drop_item. rewrite Hs. cbn.
    repeat split; eexists; (split; [apply lookup_insert_eq | now split]).
  - intros byp fm fu fh fb st hs b tr m. split.
    + intros Hne after.
      pose proof (resume_request_removes item_id byp fm fu fh fb m Hne) as Ha.
      split; [now apply forward_item_unknown | now apply drop_item_unknown].
    + intros after.
      pose proof (resume_response_removes item_id st hs b m) as Ha.
      split; [now apply forward_item_unknown | now apply drop_item_unknown].
Qed.

(** *** Reserved headers *)

Lemma no_reserved_strip (h : dict) : no_reserved (strip_reserved h).
Proof.
  unfold no_reserved, strip_reserved, keys. apply Forall_forall. intros k Hk.
  apply list_elem_of_In, in_map_iff in Hk as (kv & <- & Hkv).
  apply filter_In in Hkv as [_ Hf]. now apply negb_true_iff in Hf.
Qed.

Lemma no_reserved_set (k v : string) (d : dict) :
  is_in (Str.lower k) reserved = false -> no_reserved d ->
  no_reserved (dict_set k v d).
Proof.
  unfold no_reserved. rewrite !Forall_forall. intros Hk Hd k' Hin.
  apply list_elem_of_In, dict_set_in in Hin as [->|Hin]; [assumption|].
  now apply Hd, list_elem_of_In.
Qed.

Lemma no_reserved_update (d o : dict) :
  no_reserved d -> no_reserved o -> no_reserved (dict_update d o).
Proof.
  unfold dict_update. revert d.
  induction o as [|[k v] o IH]; intros d Hd Ho; [assumption|].
  unfold no_reserved, keys in Ho. cbn in Ho.
  apply Forall_cons in Ho as [Hk Ho]. cbn [fold_left fst snd].
  apply IH; [|exact Ho]. now apply no_reserved_set.
Qed.

Lemma apply_channel_clean (byp truthy : bool) (pairs : option dict)
    (fh h : dict) :
  byp || truthy = true ->
  (truthy = true -> forall p, pairs = Some p -> no_reserved p) ->
  apply_channel byp (truthy, pairs) fh = Ok h -> no_reserved h.
Proof.
  intros Hon Hp. unfold apply_channel. cbn [fst snd]. rewrite Hon.
  destruct truthy.
  - destruct pairs as [p|]; [|discriminate]. intros [= <-].
    apply no_reserved_update; [apply no_reserved_strip | now apply Hp].
  - intros [= <-]. apply no_reserved_strip.
Qed.

(** C1, as the code has it.  When the rewritten headers carry the bypass
    header, or the last override header whose value [json.loads] accepts
    decodes to something truthy, every header set the request stage hands to
    [route.fetch] or to [route.continue_] is free of both reserved names,
    provided neither such a decoded override nor replacement headers sent by
    the tester bring such a name back.  (An override header that parses
    replaces the one before it, so a truthy override followed by an empty
    one strips nothing.  The passthrough [route.continue_()] carries no
    header set of the handler's: the browser sends the request as it
    was.) *)
Theorem stripped_before_egress (self : BrowserManager) (request : Request)
    (fm fu : string) (fh : dict) (fb : option string) (m : machine) :
  (forall pt, Forall command_clean (other_tasks env pt)) ->
  absent (uuid_req env) m ->
  Forall egress_clean (trace m) ->
  bypass_marked fh \/ (exists pairs, last_override fh true pairs) ->
  (forall pairs, last_override fh true (Some pairs) -> no_reserved pairs) ->
  Forall egress_clean
         (trace (snd (request_stage env self request fm fu fh fb m))).
Proof.
  intros Hcmd Habs Htr Hmark Hclean.
  assert (Hon : fst (scan_channel fh) || fst (snd (scan_channel fh)) = true).
  { destruct Hmark as [Hb|[pairs Ho]].
    - now rewrite (scan_bypass_marked fh Hb).
    - rewrite (scan_last_override fh true pairs Ho). apply orb_true_r. }
  assert (Hpairs : fst (snd (scan_channel fh)) = true ->
                   forall pairs, snd (snd (scan_channel fh)) = Some pairs ->
                                 no_reserved pairs).
  { intros Ht pairs Hp. apply Hclean, scan_truthy_origin.
    destruct (snd (scan_channel fh)) as [t p]. cbn [fst snd] in *.
    now subst. }
  assert (Hinv : clean_so_far (uuid_req env)
                   (snd (request_stage env self request fm fu fh fb m))).
  { apply (stable_request_stage env _ _ _ _ (clean_invariant env Hcmd)).
    - intros k d. exact I.
    - intros m0 h [_ Hit] Hh.
      destruct (pending_items (mgr m0) !! uuid_req env) as [it|] eqn:E;
        [|exact Hh].
      specialize (Hit it eq_refl). unfold item_clean in Hit.
      unfold modified_of. destruct (p_modified it) as [ov|]; [|exact Hh].
      cbn. now destruct (o_headers ov).
    - intros h. destruct (scan_channel fh) as [byp [truthy pairs]].
      cbn [fst snd] in *. now apply apply_channel_clean.
    - split; [exact Htr|]. intros it Hit. unfold absent in Habs. congruence. }
  exact (proj1 Hinv).
Qed.

(** *** Overrides of a forward verdict *)

Lemma trace_grows_invariant (prefix : list route_call) :
  invariant env (fun m => exists rest, trace m = prefix ++ rest)
            (fun _ => True) (fun _ _ => True) (fun _ => True).
Proof.
  split; try (intros; exact I); try (intros; assumption).
  intros m c _ [rest Hr]. exists (rest ++ [c]). cbn.
  now rewrite Hr, app_assoc.
Qed.

Lemma response_stage_grows (req_id : string) (response : APIResponse)
    (m : machine) :
  exists rest, trace (snd (response_stage env req_id response m)) = trace m ++ rest.
Proof.
  apply (stable_response_stage env _ _ _ _ (trace_grows_invariant (trace m))).
  exists []. now rewrite app_nil_r.
Qed.

Lemma dispatch_fetch_first (req_id fm fu : string) (fh : dict)
    (fb : option string) (m : machine) :
  exists rest,
    trace (snd (dispatch_stage env req_id false fm fu fh fb m)) =
    trace m ++ RouteFetch {| d_method := fm; d_url := fu; d_headers := fh;
                             d_post_data := fb |} :: rest.
Proof.
  unfold dispatch_stage, try_except. unfold mbind, task_bind, bind.
  rewrite !run_await. unfold lift.
  destruct (fetch_result env) as [response|]; cbn.
  - destruct (response_stage_grows req_id response
                {| mgr := run_commands (other_tasks env AtFetch) (mgr m);
                   trace := trace m ++ [RouteFetch {| d_method := fm;
                     d_url := fu; d_headers := fh; d_post_data := fb |}] |})
      as [rest Hr].
    exists rest. rewrite Hr. cbn. now rewrite <- app_assoc.
  - rewrite run_await. unfold lift.
    destruct (abort_result env) as [[]|]; cbn;
      exists [RouteAbort]; now rewrite <- app_assoc.
Qed.

(** C5. After a forward verdict with overrides the resumed request half
    makes [route.fetch] its next call, with the overridden method, headers
    and body where the override has them and the rewritten values
    elsewhere; the resumed response half fulfils with the overridden
    status, headers and body in the same way.  (A request is parked only
    outside bypass mode, hence the [false].) *)
Theorem forward_overrides_used (self : BrowserManager) (item_id : string)
    (it : PendingItem) (ov : overrides) (tr : list route_call)
    (fm fu : string) (fh : dict) (fb : option string)
    (st : Z) (hs : dict) (body : string) :
  pending_items self !! item_id = Some it ->
  overrides_truthy ov = true ->
  let woken := {| mgr := snd (forward_item item_id (Some ov) self);
                  trace := tr |} in
  (exists rest,
     trace (snd (resume_request env item_id false fm fu fh fb woken)) =
     tr ++ RouteFetch
             {| d_method := default fm (o_method ov);
                d_url := fu;
                d_headers := default fh (o_headers ov);
                d_post_data := match o_body ov with
                               | Some b => Some b
                               | None => fb
                               end |} :: rest) /\
  trace (snd (resume_response env item_id st hs body woken)) =
  tr ++ [RouteFulfill (default st (o_status ov)) (default hs (o_headers ov))
                      (default body (o_body ov))].
Proof.
  intros Hs Ht woken.
  pose proof (forward_item_lookup item_id ov self it Hs Ht) as Hl.
  split.
  - unfold resume_request. rewrite bind_get_pending.
    subst woken. cbn [mgr]. rewrite Hl. cbn [is_drop p_action modified_of
      p_modified default]. rewrite bind_del_pending. cbn [trace].
    apply dispatch_fetch_first.
  - unfold resume_response. rewrite bind_get_pending.
    subst woken. cbn [mgr]. rewrite Hl. cbn [is_drop p_action modified_of
      p_modified default]. rewrite bind_del_pending, run_await, lift_state.
    reflexivity.
Qed.

End HandlerClaims.

(** ** Runs of the handler on concrete requests *)

(** The claim C1 as written fails.  An override value that is not JSON, on
    a request without the bypass header, leaves both the flag and the
    override empty: nothing is stripped and [route.fetch] is called with the
    reserved header in place.  And when the channel step raises (here on an
    override that is a JSON list), the passthrough sends the request as the
    browser made it, reserved headers included. *)
Lemma reserved_header_reaches_wire :
  (@json_loads demo_runtime "{oops" = JsonError /\
   trace (snd (@_route_handler demo_runtime (smooth idle)
                 (get_request [("X-Antigravity-Override", "{oops")])
                 (start (manager false false [])))) !! 1%nat
   ≫= sent_headers (get_request [("X-Antigravity-Override", "{oops")])
   = Some [("X-Antigravity-Override", "{oops")]) /\
  (@json_loads demo_runtime "[1]" = JsonValue true None /\
   trace (snd (@_route_handler demo_runtime (smooth idle)
                 (get_request [("X-WAF-Bypass-Repeater", "1");
                               ("X-Antigravity-Override", "[1]")])
                 (start (manager false false [])))) !! 0%nat
   ≫= sent_headers (get_request [("X-WAF-Bypass-Repeater", "1");
                                 ("X-Antigravity-Override", "[1]")])
   = Some [("X-WAF-Bypass-Repeater", "1");
           ("X-Antigravity-Override", "[1]")]).
Proof. vm_compute. repeat split. Qed.

(** An override object may itself name a reserved header; the merge puts it
    back after the strip. *)
Lemma override_can_reintroduce :
  trace (snd (@_route_handler demo_runtime (smooth idle)
                (get_request
                   [("X-Antigravity-Override",
                     flat_json_dumps [("X-WAF-Bypass-Repeater", "1")])])
                (start (manager false false [])))) !! 1%nat =
  Some (RouteFetch {| d_method := "GET"; d_url := "https://example.com/";
                      d_headers := [("X-WAF-Bypass-Repeater", "1")];
                      d_post_data := None |}).
Proof. vm_compute. reflexivity. Qed.

(** The claim C2 as written fails twice.  An exception in the channel-header
    step followed by a failing passthrough ends the handler without any
    abort; and a failing [route.fetch] is aborted without any passthrough. *)
Lemma fallback_failure_not_aborted :
  (fst (@_route_handler demo_runtime fallback_fails
          (get_request [("X-Antigravity-Override", "[1]")])
          (start (manager false false []))) = Returned tt /\
   trace (snd (@_route_handler demo_runtime fallback_fails
                 (get_request [("X-Antigravity-Override", "[1]")])
                 (start (manager false false [])))) = [RouteContinue None] /\
   existsb is_abort
     (trace (snd (@_route_handler demo_runtime fallback_fails
                    (get_request [("X-Antigravity-Override", "[1]")])
                    (start (manager false false []))))) = false) /\
  (drop 1 (trace (snd (@_route_handler demo_runtime fetch_fails
                         (get_request [])
                         (start (manager false false [])))))
   = [RouteFetch {| d_method := "GET"; d_url := "https://example.com/";
                    d_headers := []; d_post_data := None |}; RouteAbort] /\
   existsb is_passthrough
     (trace (snd (@_route_handler demo_runtime fetch_fails
                    (get_request [])
                    (start (manager false false []))))) = false).
Proof. vm_compute. repeat split. Qed.

(** The claim C3 as written fails: while request [req-1] is parked and its
    pipeline has not yet resumed, a forward and then a drop are both
    accepted, and the second replaces the recorded action. *)
Lemma second_verdict_accepted :
  fst (forward_item "req-1" None parked) = true /\
  fst (drop_item "req-1" (snd (forward_item "req-1" None parked))) = true /\
  p_action <$> pending_items (snd (forward_item "req-1" None parked)) !! "req-1"
  = Some (Some Forward) /\
  p_action <$> pending_items
                 (snd (drop_item "req-1"
                         (snd (forward_item "req-1" None parked)))) !! "req-1"
  = Some (Some Drop).
Proof. vm_compute. repeat split. Qed.

(** Both verdicts reach the pipeline before it resumes: the request the
    tester forwarded first is aborted. *)
Lemma forward_then_drop_aborts :
  trace (snd (@_route_handler demo_runtime
                (smooth (answer_request [CmdForward "req-1" None;
                                         CmdDrop "req-1"]))
                (get_request []) (start (manager true false []))))
  !! 1%nat = Some RouteAbort.
Proof. vm_compute. reflexivity. Qed.

(** C4 fails on the code.  With request interception on, a request that
    carries the bypass header is captured with [pending] set, yet nothing is
    parked and the request goes on at once through [route.continue_]. *)
Theorem bypass_capture_marked_pending :
  @_route_handler demo_runtime (smooth idle)
    (get_request [("X-WAF-Bypass-Repeater", "1")])
    (start (manager true false [])) =
  (Returned tt,
   {| mgr := manager true false [];
      trace :=
        [Captured (CaptureRequest
           {| cq_id := "req-1"; cq_method := "GET";
              cq_url := "https://example.com/";
              cq_headers := [("X-WAF-Bypass-Repeater", "1")];
              cq_body := None; cq_resourceType := "document";
              cq_timestamp := 1000; cq_pending := true |});
         RouteContinue (Some {| d_method := "GET";
                                d_url := "https://example.com/";
                                d_headers := []; d_post_data := None |})] |}).
Proof. vm_compute. reflexivity. Qed.

(** Spec scenario 3: the parked request is forwarded with method and body
    replaced. *)
Lemma suspend_and_modify :
  trace (snd (@_route_handler demo_runtime
                (smooth (answer_request [CmdForward "req-1" (Some post_hi)]))
                (get_request [("accept", "*/*")])
                (start (manager true false [])))) !! 1%nat =
  Some (RouteFetch {| d_method := "POST"; d_url := "https://example.com/";
                      d_headers := [("accept", "*/*")];
                      d_post_data := Some "hi" |}).
Proof. vm_compute. reflexivity. Qed.

(** Spec scenario 5: the replayed request leaves through the browser with
    the stored headers restored and neither reserved header ([Host] is left
    to the browser). *)
Lemma replay_restores_headers :
  trace (snd (@_route_handler demo_runtime (smooth idle)
                (get_request (@replay_safe_headers demo_runtime stored_headers))
                (start (manager false false [])))) !! 1%nat =
  Some (RouteContinue
          (Some {| d_method := "GET"; d_url := "https://example.com/";
                   d_headers := [("X-Foo", "bar"); ("Cookie", "sid=1")];
                   d_post_data := None |})).
Proof. vm_compute. reflexivity. Qed.

(** Spec scenario 6: a literal rule turns status 200 into 418. *)
Lemma status_rewrite :
  @_apply_match_replace demo_runtime
    [rule "Response first line" "200" "418" false]
    "Response first line" (ResponseLine 200) = ResponseLine 418.
Proof. vm_compute. reflexivity. Qed.

(** ** The theorems at concrete inputs *)

(** The claim C6 as written fails: the line is split at every single
    space, so fields may be empty.  A rewritten request line of one token
    followed by a space does not keep the original method and url but gives
    an empty url; and a status line whose status token follows two spaces
    keeps the original status, because the field read is the empty one
    between them. *)
Lemma space_splits_fields :
  @_apply_match_replace demo_runtime
    [rule "Request first line" "GET https://example.com/ HTTP/1.1" "X " false]
    "Request first line" (RequestLine "GET" "https://example.com/")
  = RequestLine "X" EmptyString /\
  Str.replace "200" " 418" (status_line 200) = "HTTP/1.1  418" /\
  @_apply_match_replace demo_runtime
    [rule "Response first line" "200" " 418" false]
    "Response first line" (ResponseLine 200)
  = ResponseLine 200.
Proof. vm_compute. repeat split. Qed.

(** The claim C8 as written fails on a slice the re-parse does not read
    back: the only rule raises and is skipped, yet the header named [a: b]
    comes back as the header [a]. *)
Lemma raising_rule_reparses :
  (forall text, @re_sub demo_runtime (match_ bad_regex) (replace bad_regex)
                  text = Raised) /\
  @_apply_match_replace demo_runtime [bad_regex] "Request header"
    (Headers [("a: b", "c")])
  = Headers [("a", "b: c")].
Proof. split; [intros text; reflexivity | vm_compute; reflexivity]. Qed.

(** An override header that parses replaces the one before it: after a
    truthy override, an empty one in another letter case leaves the scan
    without override, nothing is stripped, and [route.fetch] is handed both
    reserved headers. *)
Lemma later_empty_override_wins :
  @scan_channel demo_runtime
    [("X-Antigravity-Override", flat_json_dumps [("A", "b")]);
     ("x-antigravity-override", "{}")]
  = (false, (false, Some [])) /\
  trace (snd (@_route_handler demo_runtime (smooth idle)
                (get_request
                   [("X-Antigravity-Override", flat_json_dumps [("A", "b")]);
                    ("x-antigravity-override", "{}")])
                (start (manager false false [])))) !! 1%nat
  = Some (RouteFetch
            {| d_method := "GET"; d_url := "https://example.com/";
               d_headers :=
                 [("X-Antigravity-Override", flat_json_dumps [("A", "b")]);
                  ("x-antigravity-override", "{}")];
               d_post_data := None |}).
Proof. vm_compute. split; reflexivity. Qed.

Lemma stored_headers_wf : wf_names stored_headers.
Proof.
  split.
  - apply (bool_decide_unpack _). vm_compute. exact I.
  - unfold keys. cbn. repeat constructor.
Qed.

Lemma stripped_before_egress_witness :
  Forall egress_clean
    (trace (snd (@request_stage demo_runtime (smooth idle)
                   (manager false false [])
                   (get_request (@replay_safe_headers demo_runtime stored_headers))
                   "GET" "https://example.com/"
                   (@replay_safe_headers demo_runtime stored_headers) None
                   (start (manager false false []))))).
Proof.
  apply (@stripped_before_egress demo_runtime).
  - intros pt. constructor.
  - reflexivity.
  - constructor.
  - right. exists (Some stored_headers).
    exists [("X-Foo", "bar"); ("X-WAF-Bypass-Repeater", "1")],
           "X-Antigravity-Override", (flat_json_dumps stored_headers), [].
    repeat split. constructor.
  - intros pairs Ho. apply (@scan_last_override demo_runtime) in Ho.
    vm_compute in Ho. injection Ho as <-.
    unfold no_reserved. cbn. repeat constructor.
Defined.

Lemma passthrough_fallback_witness :
  no_passthrough (start (manager false false [])) /\
  fst (@_route_handler demo_runtime fallback_fails
         (get_request [("X-Antigravity-Override", "[1]")])
         (start (manager false false []))) = Returned tt /\
  trace (snd (@_route_handler demo_runtime fallback_fails
                (get_request [("X-Antigravity-Override", "[1]")])
                (start (manager false false [])))) = [RouteContinue None].
Proof.
  assert (Hm : no_passthrough (start (manager false false [])))
    by constructor.
  split; [exact Hm|].
  destruct (@passthrough_fallback demo_runtime fallback_fails
              (get_request [("X-Antigravity-Override", "[1]")])
              (start (manager false false [])) Hm) as (Hthrew & _ & _).
  destruct (Hthrew eq_refl) as (Hret & _ & Htrace).
  split; [exact Hret | exact Htrace].
Defined.

Lemma verdict_lifecycle_witness :
  pending_items parked !! "req-1" = Some parked_item /\
  fst (forward_item "req-1" (Some post_hi) parked) = true /\
  forward_item "ghost" (Some post_hi) parked = (false, parked).
Proof.
  assert (Hp : pending_items parked !! "req-1" = Some parked_item)
    by (vm_compute; reflexivity).
  assert (Hg : pending_items parked !! "ghost" = None)
    by (vm_compute; reflexivity).
  destruct (@verdict_lifecycle demo_runtime (smooth idle) parked "req-1"
              (Some post_hi)) as (_ & Hparked & _).
  destruct (@verdict_lifecycle demo_runtime (smooth idle) parked "ghost"
              (Some post_hi)) as (Hghost & _ & _).
  split; [exact Hp|]. split.
  - exact (proj1 (Hparked parked_item Hp)).
  - exact (proj1 (Hghost Hg)).
Defined.

Lemma forward_overrides_used_witness :
  pending_items parked !! "req-1" = Some parked_item /\
  overrides_truthy post_hi = true /\
  exists rest,
    trace (snd (@resume_request demo_runtime (smooth idle) "req-1" false
                  "GET" "https://example.com/" [("accept", "*/*")] None
                  {| mgr := snd (forward_item "req-1" (Some post_hi) parked);
                     trace := [] |})) =
    RouteFetch {| d_method := "POST"; d_url := "https://example.com/";
                  d_headers := [("accept", "*/*")];
                  d_post_data := Some "hi" |} :: rest.
Proof.
  assert (Hp : pending_items parked !! "req-1" = Some parked_item)
    by (vm_compute; reflexivity).
  assert (Ht : overrides_truthy post_hi = true) by reflexivity.
  split; [exact Hp|]. split; [exact Ht|].
  exact (proj1 (@forward_overrides_used demo_runtime (smooth idle) parked
                  "req-1" parked_item post_hi [] "GET" "https://example.com/"
                  [("accept", "*/*")] None 200 [] "" Hp Ht)).
Defined.

Lemma raising_rule_skipped_witness :
  @_apply_match_replace demo_runtime
    ([rule "Request header" "bar" "baz" false]
       ++ bad_regex
       :: [rule "Request header" "a.example" "b.example" false])
    "Request header" (Headers stored_headers)
  = Headers [("Host", "b.example"); ("Cookie", "sid=1"); ("X-Foo", "baz")].
Proof.
  exact (@raising_rule_skipped demo_runtime
           [rule "Request header" "bar" "baz" false]
           [rule "Request header" "a.example" "b.example" false]
           bad_regex "Request header" (Headers stored_headers)
           eq_refl
           ltac:(vm_compute; repeat constructor)
           stored_headers_wf).
Defined.

Lemma colon_free_line_dropped_witness :
  @apply_header_rule demo_runtime
    (rule "Request header" "Host: a.example" "gone" false)
    ([] ++ ("Host", "a.example") :: [("X-Foo", "bar")])
  = @apply_header_rule demo_runtime
      (rule "Request header" "Host: a.example" "gone" false)
      ([] ++ [("X-Foo", "bar")]).
Proof.
  apply (@colon_free_line_dropped demo_runtime
           (rule "Request header" "Host: a.example" "gone" false)
           [] [("X-Foo", "bar")] "Host" "a.example");
    vm_compute; reflexivity.
Defined.

(** ** The rule engine leaves its arguments alone *)

Section HeapFacts.
Context `{PyRuntime}.

Lemma st_bind_some {A B : Type} (t : Heap.st A) (k : A -> Heap.st B)
    (h h1 : gmap positive Heap.obj) (a : A) :
  t h = Some (a, h1) -> (t ≫= k) h = k a h1.
Proof. intros Ht. unfold mbind, Heap.st_bind. now rewrite Ht. Qed.

Lemma alloc_fresh (o : Heap.obj) (h : gmap positive Heap.obj) :
  h !! fresh (dom h) = None.
Proof. apply not_elem_of_dom, is_fresh. Qed.

Lemma alloc_eq (o : Heap.obj) (h : gmap positive Heap.obj) :
  Heap.alloc o h = Some (fresh (dom h), <[fresh (dom h) := o]> h).
Proof. reflexivity. Qed.

Lemma read_dict_eq (l : positive) (d : dict) (h : gmap positive Heap.obj) :
  h !! l = Some (Heap.ODict d) -> Heap.read_dict l h = Some (d, h).
Proof.
  intros Hl. unfold Heap.read_dict, Heap.read, mbind, Heap.st_bind.
  now rewrite Hl.
Qed.

Lemma read_lines_eq (l : positive) (ls : list string) (h : gmap positive Heap.obj) :
  h !! l = Some (Heap.OLines ls) -> Heap.read_lines l h = Some (ls, h).
Proof.
  intros Hl. unfold Heap.read_lines, Heap.read, mbind, Heap.st_bind.
  now rewrite Hl.
Qed.

Lemma read_rules_eq (l : positive) (rs : list MatchReplaceRule) (h : gmap positive Heap.obj) :
  h !! l = Some (Heap.ORules rs) -> Heap.read_rules l h = Some (rs, h).
Proof.
  intros Hl. unfold Heap.read_rules, Heap.read, mbind, Heap.st_bind.
  now rewrite Hl.
Qed.

Lemma append_eq (l : positive) (ls : list string) (x : string) (h : gmap positive Heap.obj) :
  h !! l = Some (Heap.OLines ls) ->
  Heap.append l x h = Some (tt, <[l := Heap.OLines (ls ++ [x])]> h).
Proof.
  intros Hl. unfold Heap.append.
  rewrite (st_bind_some _ _ _ _ _ (read_lines_eq _ _ _ Hl)).
  unfold Heap.write. now rewrite Hl.
Qed.

Lemma set_item_eq (l : positive) (d : dict) (k v : string) (h : gmap positive Heap.obj) :
  h !! l = Some (Heap.ODict d) ->
  Heap.set_item l k v h = Some (tt, <[l := Heap.ODict (dict_set k v d)]> h).
Proof.
  intros Hl. unfold Heap.set_item.
  rewrite (st_bind_some _ _ _ _ _ (read_dict_eq _ _ _ Hl)).
  unfold Heap.write. now rewrite Hl.
Qed.

(** The loop over [header_lines] only grows the list it created. *)
Lemma append_loop (rule : MatchReplaceRule) (nl : positive)
    (lines acc : list string) (h : gmap positive Heap.obj) :
  h !! nl = Some (Heap.OLines acc) ->
  Heap.for_each lines
    (fun line =>
       let new_line := apply_rule rule line in
       if Str.is_empty new_line then mret tt else Heap.append nl new_line) h
  = Some (tt, <[nl := Heap.OLines (acc ++ rewrite_lines rule lines)]> h).
Proof.
  revert acc h. induction lines as [|line lines IH]; intros acc h Hl.
  - cbn. rewrite app_nil_r. now rewrite insert_id.
  - cbn [Heap.for_each]. unfold rewrite_lines. cbn [map List.filter].
    fold (rewrite_lines rule lines).
    destruct (Str.is_empty (apply_rule rule line)) eqn:E; cbn [negb].
    + rewrite (st_bind_some _ _ h h tt) by reflexivity. now apply IH.
    + rewrite (st_bind_some _ _ _ _ _ (append_eq _ _ _ _ Hl)).
      rewrite (IH (acc ++ [apply_rule rule line])) by apply lookup_insert_eq.
      rewrite insert_insert_eq, <- app_assoc. reflexivity.
Qed.

(** The loop over [new_lines] only fills the dictionary it created. *)
Lemma store_loop (nh : positive) (lines : list string) (acc : dict)
    (h : gmap positive Heap.obj) :
  h !! nh = Some (Heap.ODict acc) ->
  Heap.for_each lines
    (fun line =>
       match parse_line line with
       | Some (k, v) => Heap.set_item nh k v
       | None => mret tt
       end) h
  = Some (tt, <[nh := Heap.ODict (fold_left store_line lines acc)]> h).
Proof.
  revert acc h. induction lines as [|line lines IH]; intros acc h Hl.
  - cbn. now rewrite insert_id.
  - cbn [Heap.for_each fold_left]. unfold store_line at 2.
    destruct (parse_line line) as [[k v]|] eqn:E.
    + rewrite (st_bind_some _ _ _ _ _ (set_item_eq _ _ k v _ Hl)).
      rewrite (IH (dict_set k v acc)) by apply lookup_insert_eq.
      now rewrite insert_insert_eq.
    + rewrite (st_bind_some _ _ h h tt) by reflexivity. now apply IH.
Qed.

Lemma fresh_insert_ne (o : Heap.obj) (l : positive) (h : gmap positive Heap.obj) :
  is_Some (h !! l) -> fresh (dom h) <> l.
Proof.
  intros Hl Heq. rewrite <- Heq in Hl.
  rewrite (alloc_fresh o h) in Hl. now destruct Hl.
Qed.

Lemma subseteq_alloc (o : Heap.obj) (h0 h : gmap positive Heap.obj) :
  h0 ⊆ h -> h0 ⊆ <[fresh (dom h) := o]> h.
Proof.
  intros Hs. apply insert_subseteq_r; [|exact Hs].
  eapply lookup_weaken_None; [apply (alloc_fresh o h) | exact Hs].
Qed.

Lemma subseteq_overwrite (o : Heap.obj) (l : positive) (h0 h : gmap positive Heap.obj) :
  h0 !! l = None -> h0 ⊆ h -> h0 ⊆ <[l := o]> h.
Proof. intros Hn Hs. now apply insert_subseteq_r. Qed.

(** One iteration of the header loop: three objects are created, two of
    them written to, and the store as it was is untouched. *)
Lemma header_rules_step (rule : MatchReplaceRule)
    (rest : list MatchReplaceRule) (l : positive) (d : dict) (h : gmap positive Heap.obj) :
  h !! l = Some (Heap.ODict d) ->
  exists l' h',
    Heap.header_rules (rule :: rest) l h = Heap.header_rules rest l' h' /\
    h ⊆ h' /\ h' !! l' = Some (Heap.ODict (apply_header_rule rule d)).
Proof.
  intros Hl. cbn [Heap.header_rules].
  rewrite (st_bind_some _ _ _ _ _ (read_dict_eq _ _ _ Hl)).
  rewrite (st_bind_some _ _ _ _ _ (alloc_eq _ _)).
  set (l1 := fresh (dom h)).
  set (h1 := <[l1 := Heap.OLines (map header_line d)]> h).
  rewrite (st_bind_some _ _ _ _ _ (alloc_eq _ _)).
  set (l2 := fresh (dom h1)).
  set (h2 := <[l2 := Heap.OLines []]> h1).
  assert (H12 : l2 <> l1).
  { apply (fresh_insert_ne (Heap.OLines [])). unfold h1.
    rewrite lookup_insert_eq. eauto. }
  assert (Hl1 : h2 !! l1 = Some (Heap.OLines (map header_line d))).
  { unfold h2. rewrite lookup_insert_ne by exact H12.
    apply lookup_insert_eq. }
  rewrite (st_bind_some _ _ _ _ _ (read_lines_eq _ _ _ Hl1)).
  assert (Hl2 : h2 !! l2 = Some (Heap.OLines [])) by apply lookup_insert_eq.
  rewrite (st_bind_some _ _ _ _ _ (append_loop rule l2 _ [] h2 Hl2)).
  rewrite app_nil_l.
  set (lines := rewrite_lines rule (map header_line d)).
  set (h2' := <[l2 := Heap.OLines lines]> h2).
  rewrite (st_bind_some _ _ _ _ _ (alloc_eq _ _)).
  set (l3 := fresh (dom h2')).
  set (h3 := <[l3 := Heap.ODict []]> h2').
  assert (H32 : l3 <> l2).
  { apply (fresh_insert_ne (Heap.ODict [])). unfold h2'.
    rewrite lookup_insert_eq. eauto. }
  assert (Hk : h3 !! l2 = Some (Heap.OLines lines)).
  { unfold h3. rewrite lookup_insert_ne by exact H32.
    apply lookup_insert_eq. }
  rewrite (st_bind_some _ _ _ _ _ (read_lines_eq _ _ _ Hk)).
  assert (Hl3 : h3 !! l3 = Some (Heap.ODict [])) by apply lookup_insert_eq.
  rewrite (st_bind_some _ _ _ _ _ (store_loop l3 lines [] h3 Hl3)).
  eexists _, _. split; [reflexivity|]. split.
  - assert (S1 : h ⊆ h1) by (apply subseteq_alloc; reflexivity).
    assert (S2 : h ⊆ h2) by (apply subseteq_alloc; exact S1).
    assert (N2 : h !! l2 = None).
    { eapply lookup_weaken_None;
        [apply (alloc_fresh (Heap.OLines []) h1) | exact S1]. }
    assert (S2' : h ⊆ h2') by (apply subseteq_overwrite; assumption).
    assert (S3 : h ⊆ h3) by (apply subseteq_alloc; exact S2').
    apply subseteq_overwrite; [|exact S3].
    eapply lookup_weaken_None;
      [apply (alloc_fresh (Heap.ODict []) h2') | exact S2'].
  - rewrite lookup_insert_eq. reflexivity.
Qed.

Lemma header_rules_run (rules : list MatchReplaceRule) (l : positive)
    (d : dict) (h : gmap positive Heap.obj) :
  h !! l = Some (Heap.ODict d) ->
  exists l' h',
    Heap.header_rules rules l h = Some (l', h') /\
    h ⊆ h' /\ h' !! l' = Some (Heap.ODict (rewrite_headers rules d)).
Proof.
  revert l d h. induction rules as [|rule rest IH]; intros l d h Hl.
  - exists l, h. split; [reflexivity|]. split; [reflexivity | exact Hl].
  - destruct (header_rules_step rule rest l d h Hl) as (l1 & h1 & -> & S1 & Hl1).
    destruct (IH l1 _ h1 Hl1) as (l' & h' & Hrun & S2 & Hl').
    exists l', h'. split; [exact Hrun|]. split; [|exact Hl'].
    now transitivity h1.
Qed.

Lemma denote_weaken (h h' : gmap positive Heap.obj) (v : Heap.value) (d : mr_data) :
  h ⊆ h' -> Heap.denote h v = Some d -> Heap.denote h' v = Some d.
Proof.
  intros Hs. destruct v as [l|s|]; cbn; try (intros Hd; exact Hd).
  destruct (h !! l) as [o|] eqn:E; [|discriminate].
  now rewrite (lookup_weaken _ _ _ _ E Hs).
Qed.

(** C10. Run on a store, [_apply_match_replace] returns for every argument
    of the shape its callers pass, the value it returns stands for the
    result of the rule engine, and every object that was in the store before
    the call is in it unchanged afterwards: the argument and the shared rule
    list in particular.  What the call writes to are objects it created. *)
Theorem apply_match_replace_frame (self_rules : positive)
    (all_rules : list MatchReplaceRule) (item_type : string)
    (data : Heap.value) (d : mr_data) (h : gmap positive Heap.obj) :
  h !! self_rules = Some (Heap.ORules all_rules) ->
  Heap.denote h data = Some d ->
  Heap.well_typed item_type d = true ->
  exists v h',
    Heap._apply_match_replace self_rules item_type data h = Some (v, h') /\
    Heap.denote h' v = Some (_apply_match_replace all_rules item_type d) /\
    h ⊆ h' /\
    h' !! self_rules = Some (Heap.ORules all_rules) /\
    Heap.denote h' data = Some d.
Proof.
  intros Hr Hd Ht.
  assert (Hgoal : exists v h',
    Heap._apply_match_replace self_rules item_type data h = Some (v, h') /\
    Heap.denote h' v = Some (_apply_match_replace all_rules item_type d) /\
    h ⊆ h').
  2:{ destruct Hgoal as (v & h' & Hrun & Hv & Hs). exists v, h'.
      repeat split; try assumption.
      - exact (lookup_weaken _ _ _ _ Hr Hs).
      - exact (denote_weaken _ _ _ _ Hs Hd). }
  unfold Heap._apply_match_replace, _apply_match_replace.
  rewrite (st_bind_some _ _ _ _ _ (read_rules_eq _ _ _ Hr)).
  rewrite (st_bind_some _ _ _ _ _ (alloc_eq _ _)).
  set (rules := List.filter (selected item_type) all_rules).
  set (l0 := fresh (dom h)).
  set (h0 := <[l0 := Heap.ORules rules]> h).
  assert (S0 : h ⊆ h0) by (apply subseteq_alloc; reflexivity).
  assert (Hl0 : h0 !! l0 = Some (Heap.ORules rules)) by apply lookup_insert_eq.
  rewrite (st_bind_some _ _ _ _ _ (read_rules_eq _ _ _ Hl0)).
  cbv zeta.
  destruct rules as [|r rs] eqn:Erules.
  { exists data, h0. split; [reflexivity|]. split; [|exact S0].
    exact (denote_weaken _ _ _ _ S0 Hd). }
  rewrite <- Erules. clear Erules.
  destruct d as [dd|body|m u|status]; cbn [Heap.well_typed] in Ht.
  - (* header dictionary *)
    rewrite Ht.
    destruct data as [l|s|]; cbn [Heap.denote] in Hd; try discriminate.
    destruct (h !! l) as [[dd'| | | |]|] eqn:El; try discriminate.
    injection Hd as ->.
    pose proof (lookup_weaken _ _ _ _ El S0) as El0.
    rewrite (st_bind_some _ _ _ _ _ (read_dict_eq _ _ _ El0)).
    rewrite (st_bind_some _ _ _ _ _ (alloc_eq _ _)).
    set (lh := fresh (dom h0)). set (hh := <[lh := Heap.ODict dd]> h0).
    assert (Sh : h ⊆ hh) by (apply subseteq_alloc; exact S0).
    destruct (header_rules_run rules lh dd hh (lookup_insert_eq _ _ _))
      as (l' & h' & Hrun & S' & Hl').
    rewrite (st_bind_some _ _ _ _ _ Hrun).
    exists (Heap.VRef l'), h'. split; [reflexivity|]. split.
    + cbn [Heap.denote]. now rewrite Hl'.
    + now transitivity hh.
  - (* body *)
    apply is_in_spec in Ht. cbn [In] in Ht.
    destruct data as [l|s|]; cbn [Heap.denote] in Hd;
      [destruct (h !! l) as [[]|]; discriminate | |];
      injection Hd as <-;
      destruct Ht as [<-|[<-|[]]];
      (eexists _, h0; split; [reflexivity|]; split; [reflexivity | exact S0]).
  - (* request first line *)
    apply String.eqb_eq in Ht. subst item_type.
    destruct data as [l|s|]; cbn [Heap.denote] in Hd; try discriminate.
    destruct (h !! l) as [[| | |m' u'|]|] eqn:El; try discriminate.
    injection Hd as -> ->.
    pose proof (lookup_weaken _ _ _ _ El S0) as El0.
    change (is_in "Request first line" ["Request header"; "Response header"])
      with false.
    change (is_in "Request first line" ["Request body"; "Response body"])
      with false.
    change (String.eqb "Request first line" "Request first line") with true.
    cbv iota.
    unfold Heap.read at 1.
    unfold mbind at 1, Heap.st_bind at 1. rewrite El0.
    destruct (Str.split " " (apply_rules rules (request_line m u)))
      as [|p0 [|p1 ps]].
    + exists (Heap.VRef l), h0. split; [reflexivity|]. split; [|exact S0].
      cbn [Heap.denote]. now rewrite El0.
    + exists (Heap.VRef l), h0. split; [reflexivity|]. split; [|exact S0].
      cbn [Heap.denote]. now rewrite El0.
    + rewrite (st_bind_some _ _ _ _ _ (alloc_eq _ _)).
      eexists _, _. split; [reflexivity|]. split.
      * cbn [Heap.denote]. now rewrite lookup_insert_eq.
      * apply subseteq_alloc. exact S0.
  - (* response first line *)
    apply String.eqb_eq in Ht. subst item_type.
    destruct data as [l|s|]; cbn [Heap.denote] in Hd; try discriminate.
    destruct (h !! l) as [[| | | |status']|] eqn:El; try discriminate.
    injection Hd as ->.
    pose proof (lookup_weaken _ _ _ _ El S0) as El0.
    change (is_in "Response first line" ["Request header"; "Response header"])
      with false.
    change (is_in "Response first line" ["Request body"; "Response body"])
      with false.
    change (String.eqb "Response first line" "Request first line") with false.
    change (String.eqb "Response first line" "Response first line") with true.
    cbv iota.
    unfold Heap.read at 1.
    unfold mbind at 1, Heap.st_bind at 1. rewrite El0.
    destruct (Str.split " " (apply_rules rules (status_line status)))
      as [|p0 [|p1 ps]].
    + exists (Heap.VRef l), h0. split; [reflexivity|]. split; [|exact S0].
      cbn [Heap.denote]. now rewrite El0.
    + exists (Heap.VRef l), h0. split; [reflexivity|]. split; [|exact S0].
      cbn [Heap.denote]. now rewrite El0.
    + destruct (py_int p1) as [n|].
      * rewrite (st_bind_some _ _ _ _ _ (alloc_eq _ _)).
        eexists _, _. split; [reflexivity|]. split.
        -- cbn [Heap.denote]. now rewrite lookup_insert_eq.
        -- apply subseteq_alloc. exact S0.
      * exists (Heap.VRef l), h0. split; [reflexivity|]. split; [|exact S0].
        cbn [Heap.denote]. now rewrite El0.
Qed.

End HeapFacts.

Lemma apply_match_replace_frame_witness :
  exists v h',
    @Heap._apply_match_replace demo_runtime 1%positive "Request header"
      (Heap.VRef 2%positive) example_store = Some (v, h') /\
    Heap.denote h' v =
    Some (@_apply_match_replace demo_runtime
            [rule "Request header" "a.example" "b.example" false]
            "Request header" (Headers stored_headers)) /\
    example_store ⊆ h' /\
    h' !! 1%positive =
    Some (Heap.ORules [rule "Request header" "a.example" "b.example" false]) /\
    Heap.denote h' (Heap.VRef 2%positive) = Some (Headers stored_headers).
Proof.
  apply (@apply_match_replace_frame demo_runtime);
    vm_compute; reflexivity.
Defined.

(** Without a selected rule the call hands back the very object it was
    given, and still writes nothing to it. *)
Lemma no_rule_returns_argument :
  fst <$> @Heap._apply_match_replace demo_runtime 1%positive "Response header"
            (Heap.VRef 2%positive) example_store
  = Some (Heap.VRef 2%positive).
Proof. vm_compute. reflexivity. Qed.

(** * Further properties of the code *)

(** ** [str.replace] and dictionaries *)

Lemma replace_from_skip (old new : string) (n : nat) (s : string) :
  (String.length s <= n)%nat -> Str.replace_from old new n s = EmptyString.
Proof.
  revert n. induction s as [|c s IH]; intros n Hn; [reflexivity|].
  cbn [String.length] in Hn. destruct n as [|n]; [lia|].
  cbn [Str.replace_from]. apply IH. lia.
Qed.

Lemma replace_absent (old new s : string) :
  Str.is_empty old = false -> Str.contains old s = false ->
  Str.replace old new s = s.
Proof.
  intros Ho Hc. unfold Str.replace. rewrite Ho.
  induction s as [|c s IH]; [reflexivity|].
  rewrite StrFacts.contains_cons in Hc.
  apply orb_false_iff in Hc as [Hp Hc].
  cbn [Str.replace_from]. rewrite Hp. f_equal. now apply IH.
Qed.

Lemma prefix_refl (s : string) : String.prefix s s = true.
Proof.
  pose proof (StrFacts.prefix_self_app s EmptyString) as Hp.
  now rewrite StrFacts.app_empty_r in Hp.
Qed.

Lemma replace_whole (s : string) :
  Str.is_empty s = false -> Str.replace s EmptyString s = EmptyString.
Proof.
  intros Hs. unfold Str.replace. rewrite Hs.
  destruct s as [|c s]; [discriminate|].
  cbn [Str.replace_from]. rewrite prefix_refl.
  rewrite StrFacts.app_nil_l. apply replace_from_skip.
  cbn [String.length]. lia.
Qed.

Lemma dict_get_set_eq (k v : string) (d : dict) :
  dict_get k (dict_set k v d) = Some v.
Proof.
  induction d as [|[k' v'] d IH]; cbn [dict_set dict_get].
  - now rewrite String.eqb_refl.
  - destruct (String.eqb k' k) eqn:E; cbn [dict_get]; now rewrite E.
Qed.

Lemma dict_get_set_ne (k k' v : string) (d : dict) :
  k' <> k -> dict_get k (dict_set k' v d) = dict_get k d.
Proof.
  intros Hne. induction d as [|[k0 v0] d IH]; cbn [dict_set dict_get].
  - apply String.eqb_neq in Hne. now rewrite Hne.
  - destruct (String.eqb k0 k') eqn:E; cbn [dict_get].
    + apply String.eqb_eq in E. subst k0.
      apply String.eqb_neq in Hne. now rewrite Hne.
    + now rewrite IH.
Qed.

(** ** Rule engine: composition, deletion, collisions *)

Section EngineExtras.
Context `{PyRuntime}.

Lemma literal_absent (rule : MatchReplaceRule) (line : string) :
  isRegex rule = false -> Str.is_empty (match_ rule) = false ->
  Str.contains (match_ rule) line = false ->
  apply_rule rule line = line.
Proof.
  intros Hre Hm Hc. unfold apply_rule. rewrite Hre. now apply replace_absent.
Qed.

Lemma rewrite_lines_absent (rule : MatchReplaceRule) (h : dict) :
  isRegex rule = false -> Str.is_empty (match_ rule) = false ->
  (forall kv, In kv h -> Str.contains (match_ rule) (header_line kv) = false) ->
  rewrite_lines rule (map header_line h) = map header_line h.
Proof.
  intros Hre Hm Hh. unfold rewrite_lines.
  induction h as [|kv h IH]; [reflexivity|].
  cbn [map List.filter].
  rewrite literal_absent by (try assumption; apply Hh; now left).
  rewrite header_line_nonempty. cbn [negb]. f_equal.
  apply IH. intros kv' Hin. apply Hh. now right.
Qed.

(** X1. A literal rule whose text occurs in no header line leaves a header
    dictionary with well-formed names exactly as it was: linearise, rewrite
    and re-parse is the identity. *)
Theorem unmatched_rule_keeps_headers (rules : list MatchReplaceRule)
    (item_type : string) (h : dict) :
  wf_names h ->
  (forall rule, In rule rules ->
     isRegex rule = false /\ Str.is_empty (match_ rule) = false /\
     forall kv, In kv h -> Str.contains (match_ rule) (header_line kv) = false) ->
  _apply_match_replace rules item_type (Headers h) = Headers h.
Proof.
  intros Hwf Hrules. unfold _apply_match_replace.
  assert (Hsel : forall rule,
             In rule (List.filter (selected item_type) rules) ->
             apply_header_rule rule h = h).
  { intros rule Hin. apply filter_In in Hin as [Hin _].
    destruct (Hrules rule Hin) as (Hre & Hm & Hh).
    unfold apply_header_rule, reparse.
    rewrite rewrite_lines_absent by assumption.
    now rewrite fold_store_dict. }
  assert (Hall : rewrite_headers (List.filter (selected item_type) rules) h = h).
  { induction (List.filter (selected item_type) rules) as [|r rs IH];
      [reflexivity|].
    cbn. rewrite Hsel by now left.
    apply IH. intros rule Hin. apply Hsel. now right. }
  rewrite Hall.
  destruct (List.filter (selected item_type) rules); [reflexivity|].
  destruct (is_in item_type _); [reflexivity|].
  destruct (is_in item_type _); [reflexivity|].
  destruct (String.eqb item_type _); [reflexivity|].
  now destruct (String.eqb item_type _).
Qed.

(** X2. Deleting a header: a literal rule whose text is one whole header
    line and whose replacement is empty removes that header and nothing
    else, provided the line's text occurs in no other line. *)
Theorem whole_line_rule_deletes_header (rule : MatchReplaceRule)
    (h1 h2 : dict) (k v : string) :
  wf_names (h1 ++ (k, v) :: h2) ->
  isRegex rule = false ->
  match_ rule = header_line (k, v) ->
  replace rule = EmptyString ->
  (forall kv, In kv (h1 ++ h2) ->
     Str.contains (header_line (k, v)) (header_line kv) = false) ->
  apply_header_rule rule (h1 ++ (k, v) :: h2) = h1 ++ h2.
Proof.
  intros Hwf Hre Hm Hr Hother.
  assert (Hne : Str.is_empty (match_ rule) = false)
    by (rewrite Hm; apply header_line_nonempty).
  assert (Hwf' : wf_names (h1 ++ h2)).
  { destruct Hwf as [Hnd Hok]. unfold wf_names, keys in *.
    rewrite map_app in *. cbn [map fst] in *.
    apply NoDup_app in Hnd as (Hn1 & Hdis & Hn2).
    apply NoDup_cons in Hn2 as [_ Hn2].
    apply Forall_app in Hok as [Ho1 Ho2]. apply Forall_cons in Ho2 as [_ Ho2].
    split.
    - apply NoDup_app. split; [assumption|]. split; [|assumption].
      intros x Hx Hx2. apply (Hdis x Hx). now right.
    - apply Forall_app. now split. }
  unfold apply_header_rule, reparse.
  rewrite map_app, rewrite_lines_app. cbn [map].
  change (header_line (k, v) :: map header_line h2)
    with ([header_line (k, v)] ++ map header_line h2).
  rewrite rewrite_lines_app.
  assert (Hgone : rewrite_lines rule [header_line (k, v)] = []).
  { unfold rewrite_lines, apply_rule. cbn [map List.filter].
    rewrite Hre, Hm, Hr, replace_whole by apply header_line_nonempty.
    reflexivity. }
  rewrite Hgone, app_nil_l, <- rewrite_lines_app, <- map_app.
  rewrite rewrite_lines_absent; try assumption.
  - now rewrite fold_store_dict.
  - rewrite Hm. exact Hother.
Qed.

(** X3. Collisions: when several rewritten lines carry the same name, the
    re-parsed dictionary holds that name once, with the value of the last
    such line. *)
Theorem last_line_wins (l1 l2 : list string) (line k v : string) :
  parse_line line = Some (k, v) ->
  (forall line' k' v', In line' l2 -> parse_line line' = Some (k', v') ->
                       k' <> k) ->
  dict_get k (reparse (l1 ++ line :: l2)) = Some v /\
  NoDup (keys (reparse (l1 ++ line :: l2))).
Proof.
  intros Hp Hl2. split.
  - unfold reparse. rewrite fold_left_app. cbn [fold_left].
    unfold store_line at 2. rewrite Hp.
    generalize (dict_get_set_eq k v (fold_left store_line l1 [])).
    generalize (dict_set k v (fold_left store_line l1 [])).
    induction l2 as [|line' l2 IH]; intros acc Hacc; [exact Hacc|].
    cbn [fold_left]. apply IH.
    + intros l' k' v' Hin. apply Hl2. now right.
    + unfold store_line.
      destruct (parse_line line') as [[k' v']|] eqn:E; [|exact Hacc].
      rewrite dict_get_set_ne; [exact Hacc|].
      eapply Hl2; [now left | exact E].
  - unfold reparse. apply fold_store_wf. split; constructor.
Qed.

(** X4. Rule lists compose on header and body slices: running a list is
    running its first part and then its second part on the result. *)
Theorem rules_compose (l1 l2 : list MatchReplaceRule) (item_type : string)
    (data : mr_data) :
  is_in item_type ["Request header"; "Response header";
                   "Request body"; "Response body"] = true ->
  _apply_match_replace (l1 ++ l2) item_type data =
  _apply_match_replace l2 item_type (_apply_match_replace l1 item_type data).
Proof.
  intros Hit. apply is_in_spec in Hit. cbn [In] in Hit.
  unfold _apply_match_replace. rewrite List.filter_app.
  set (A := List.filter (selected item_type) l1).
  set (B := List.filter (selected item_type) l2).
  destruct Hit as [<-|[<-|[<-|[<-|[]]]]];
    (destruct A as [|a A];
     [reflexivity|];
     destruct B as [|b B];
     [rewrite app_nil_r; destruct data as [h|[body|]|m u|st]; reflexivity|];
     destruct data as [h|[body|]|m u|st]; try reflexivity;
     cbn -[rewrite_headers apply_rules app];
     unfold rewrite_headers, apply_rules; now rewrite fold_left_app).
Qed.

(** X5. A body is never lost: an absent body stays absent whatever the
    rules, and a literal rule that deletes the whole body leaves the empty
    string, not an absent body. *)
Theorem body_deleted_not_absent (rules : list MatchReplaceRule)
    (rule : MatchReplaceRule) (item_type body : string) :
  is_in item_type ["Request body"; "Response body"] = true ->
  selected item_type rule = true ->
  isRegex rule = false -> match_ rule = body -> replace rule = EmptyString ->
  Str.is_empty body = false ->
  _apply_match_replace rules item_type (Body None) = Body None /\
  _apply_match_replace [rule] item_type (Body (Some body)) =
  Body (Some EmptyString).
Proof.
  intros Hit Hsel Hre Hm Hr Hb. apply is_in_spec in Hit. cbn [In] in Hit.
  unfold _apply_match_replace. cbn [List.filter]. rewrite Hsel.
  assert (Hrule : apply_rules [rule] body = EmptyString).
  { unfold apply_rules, apply_rule. cbn [fold_left].
    now rewrite Hre, Hm, Hr, replace_whole. }
  destruct Hit as [<-|[<-|[]]];
    (split;
     [now destruct (List.filter _ rules)
     | cbn -[apply_rules]; now rewrite Hrule]).
Qed.

(** X6. A rewritten line with a colon but no space after it is still a
    header: the text before the first colon is the name, the rest the
    value. *)
Theorem colon_without_space_accepted (k v : string) :
  Str.contains ":" k = false ->
  Str.contains ": " v = false ->
  String.prefix " " v = false ->
  parse_line (k +:+ ":" +:+ v) = Some (k, v).
Proof.
  intros Hk Hv Hsp. unfold parse_line.
  assert (Hno : Str.contains ": " (k +:+ ":" +:+ v) = false).
  { induction k as [|c k IH].
    - rewrite StrFacts.app_nil_l.
      change (":" +:+ v) with (String ":" v).
      rewrite StrFacts.contains_cons, Hv, orb_false_r.
      rewrite StrFacts.prefix_cons. cbn [Ascii.eqb Bool.eqb andb].
      destruct v as [|d v]; [reflexivity|].
      rewrite StrFacts.prefix_cons in *. rewrite StrFacts.prefix_nil_l in *.
      now rewrite andb_true_r in *.
    - rewrite StrFacts.contains_cons, StrFacts.prefix_cons,
        StrFacts.prefix_nil_l, andb_true_r in Hk.
      apply orb_false_iff in Hk as [Hc Hk].
      rewrite StrFacts.app_cons, StrFacts.contains_cons, (IH Hk), orb_false_r.
      now rewrite StrFacts.prefix_cons, Hc. }
  rewrite Hno.
  assert (Hyes : Str.contains ":" (k +:+ ":" +:+ v) = true)
    by apply StrFacts.contains_self.
  rewrite Hyes. clear Hno Hyes.
  induction k as [|c k IH].
  - rewrite StrFacts.app_nil_l. change (":" +:+ v) with (String ":" v).
    cbn [Str.split_once]. rewrite StrFacts.prefix_cons, StrFacts.prefix_nil_l.
    reflexivity.
  - rewrite StrFacts.contains_cons, StrFacts.prefix_cons,
      StrFacts.prefix_nil_l, andb_true_r in Hk.
    apply orb_false_iff in Hk as [Hc Hk].
    rewrite StrFacts.app_cons. cbn [Str.split_once].
    rewrite StrFacts.prefix_cons, Hc. cbn [andb]. now rewrite (IH Hk).
Qed.

End EngineExtras.

Lemma unmatched_rule_keeps_headers_witness :
  @_apply_match_replace demo_runtime
    [rule "Request header" "zzz" "y" false] "Request header"
    (Headers stored_headers) = Headers stored_headers.
Proof.
  apply (@unmatched_rule_keeps_headers demo_runtime).
  - exact stored_headers_wf.
  - intros r [<-|[]]. split; [reflexivity|]. split; [reflexivity|].
    intros kv Hin. cbn in Hin.
    destruct Hin as [<-|[<-|[<-|[]]]]; vm_compute; reflexivity.
Defined.

Lemma whole_line_rule_deletes_header_witness :
  @apply_header_rule demo_runtime
    (rule "Request header" "Cookie: sid=1" EmptyString false)
    ([("Host", "a.example")] ++ ("Cookie", "sid=1") :: [("X-Foo", "bar")])
  = [("Host", "a.example")] ++ [("X-Foo", "bar")].
Proof.
  apply (@whole_line_rule_deletes_header demo_runtime).
  - exact stored_headers_wf.
  - reflexivity.
  - reflexivity.
  - reflexivity.
  - intros kv Hin. cbn in Hin.
    destruct Hin as [<-|[<-|[]]]; vm_compute; reflexivity.
Defined.

Lemma last_line_wins_witness :
  dict_get "A" (reparse (["A: 1"] ++ "A: 2" :: ["B: 3"])) = Some "2" /\
  NoDup (keys (reparse (["A: 1"] ++ "A: 2" :: ["B: 3"]))).
Proof.
  apply last_line_wins.
  - vm_compute. reflexivity.
  - intros line' k' v' [<-|[]] Hp. vm_compute in Hp.
    injection Hp as <- _. discriminate.
Defined.

Lemma rules_compose_witness :
  @_apply_match_replace demo_runtime
    ([rule "Request body" "a" "b" false] ++ [rule "Request body" "b" "c" false])
    "Request body" (Body (Some "aa"))
  = @_apply_match_replace demo_runtime [rule "Request body" "b" "c" false]
      "Request body"
      (@_apply_match_replace demo_runtime [rule "Request body" "a" "b" false]
         "Request body" (Body (Some "aa"))).
Proof.
  apply (@rules_compose demo_runtime). reflexivity.
Defined.

Lemma body_deleted_not_absent_witness :
  @_apply_match_replace demo_runtime [] "Request body" (Body None) = Body None /\
  @_apply_match_replace demo_runtime
    [rule "Request body" "secret" EmptyString false] "Request body"
    (Body (Some "secret")) = Body (Some EmptyString).
Proof.
  apply (@body_deleted_not_absent demo_runtime); reflexivity.
Defined.

Lemma colon_without_space_accepted_witness :
  parse_line ("Name" +:+ ":" +:+ "value") = Some ("Name", "value").
Proof.
  apply colon_without_space_accepted; reflexivity.
Defined.

(** On first lines rule lists do not compose: the re-parse between the two
    halves drops what follows the second field. *)
Lemma first_line_rules_do_not_compose :
  @_apply_match_replace demo_runtime
    ([rule "Request first line" "/x" "/x y" false]
       ++ [rule "Request first line" " y" "/y" false])
    "Request first line" (RequestLine "GET" "/x")
  <> @_apply_match_replace demo_runtime
       [rule "Request first line" " y" "/y" false] "Request first line"
       (@_apply_match_replace demo_runtime
          [rule "Request first line" "/x" "/x y" false]
          "Request first line" (RequestLine "GET" "/x")).
Proof. vm_compute. discriminate. Qed.

(** ** Pending registry: what verdict intake leaves alone *)

Lemma run_command_entry (self : BrowserManager) (c : command)
    (item_id : string) :
  match pending_items (run_command self c) !! item_id with
  | Some it' =>
      exists it, pending_items self !! item_id = Some it /\
                 p_type it' = p_type it /\ p_data it' = p_data it
  | None => pending_items self !! item_id = None
  end.
Proof.
  assert (Hsame : match pending_items self !! item_id with
                  | Some it' =>
                      exists it, pending_items self !! item_id = Some it /\
                                 p_type it' = p_type it /\ p_data it' = p_data it
                  | None => pending_items self !! item_id = None
                  end).
  { destruct (pending_items self !! item_id) as [it|] eqn:E; eauto. }
  destruct c as [b|b|i m|i|r]; cbn; try exact Hsame.
  - unfold forward_item. destruct (pending_items self !! i) as [old|] eqn:E;
      [|exact Hsame].
    cbn. destruct (decide (i = item_id)) as [->|Hne].
    + rewrite lookup_insert_eq. exists old. now rewrite E.
    + rewrite lookup_insert_ne by assumption. exact Hsame.
  - unfold drop_item. destruct (pending_items self !! i) as [old|] eqn:E;
      [|exact Hsame].
    cbn. destruct (decide (i = item_id)) as [->|Hne].
    + rewrite lookup_insert_eq. exists old. now rewrite E.
    + rewrite lookup_insert_ne by assumption. exact Hsame.
Qed.

Lemma run_command_callback (self : BrowserManager) (c : command) :
  on_request_captured (run_command self c) = on_request_captured self.
Proof.
  destruct c as [b|b|i m|i|r]; cbn; try reflexivity.
  - unfold forward_item. now destruct (pending_items self !! i).
  - unfold drop_item. now destruct (pending_items self !! i).
Qed.

(** X7. The control channel never creates or removes a registry entry and
    never touches the snapshot of a parked item: after any sequence of
    commands the registry has the same ids, each entry has the kind and the
    captured data it was parked with, and the capture callback is the same. *)
Theorem commands_keep_entries (cs : list command) (self : BrowserManager) :
  dom (pending_items (run_commands cs self)) = dom (pending_items self) /\
  (forall item_id it',
     pending_items (run_commands cs self) !! item_id = Some it' ->
     exists it, pending_items self !! item_id = Some it /\
                p_type it' = p_type it /\ p_data it' = p_data it) /\
  on_request_captured (run_commands cs self) = on_request_captured self.
Proof.
  revert self. induction cs as [|c cs IH]; intros self.
  - split; [reflexivity|]. split; [eauto | reflexivity].
  - cbn [run_commands fold_left].
    destruct (IH (run_command self c)) as (Hdom & Hent & Hcb).
    unfold run_commands in *. split; [|split].
    + rewrite Hdom. apply set_eq. intros i. rewrite !elem_of_dom.
      pose proof (run_command_entry self c i) as He.
      destruct (pending_items (run_command self c) !! i) as [it'|] eqn:E.
      * destruct He as (it & -> & _). split; eauto.
      * rewrite He. split; intros [x Hx]; discriminate.
    + intros i it' Hl. destruct (Hent i it' Hl) as (it1 & H1 & Ht & Hd).
      pose proof (run_command_entry self c i) as He. rewrite H1 in He.
      destruct He as (it & Hi & Ht' & Hd'). exists it.
      split; [exact Hi|]. split; congruence.
    + rewrite Hcb. apply run_command_callback.
Qed.

(** X8. Overrides stay until replaced: a forward without data, a forward
    with an empty dictionary and a drop all keep the overrides an earlier
    forward stored, so the resumed pipeline still finds them. *)
Theorem overrides_survive_later_verdicts (self : BrowserManager)
    (item_id : string) (it : PendingItem) (ov empty : overrides) :
  pending_items self !! item_id = Some it ->
  overrides_truthy ov = true ->
  overrides_truthy empty = false ->
  let first := snd (forward_item item_id (Some ov) self) in
  modified_of (pending_items (snd (forward_item item_id None first)) !! item_id)
  = ov /\
  modified_of (pending_items (snd (forward_item item_id (Some empty) first))
                 !! item_id) = ov /\
  modified_of (pending_items (snd (drop_item item_id first)) !! item_id) = ov.
Proof.
  intros Hs Ht He first.
  pose proof (forward_item_lookup item_id ov self it Hs Ht) as Hl.
  fold first in Hl.
  unfold forward_item, drop_item. rewrite Hl, He. cbn.
  rewrite !lookup_insert_eq. now cbn.
Qed.

Lemma run_command_event (item_id : string) (self : BrowserManager)
    (c : command) :
  verdict_for item_id c = false ->
  event_is_set item_id (run_command self c) = event_is_set item_id self.
Proof.
  intros Hv. unfold event_is_set.
  destruct c as [b|b|i m|i|r]; cbn in *; try reflexivity.
  - apply String.eqb_neq in Hv. unfold forward_item.
    destruct (pending_items self !! i); [|reflexivity].
    cbn. now rewrite lookup_insert_ne.
  - apply String.eqb_neq in Hv. unfold drop_item.
    destruct (pending_items self !! i); [|reflexivity].
    cbn. now rewrite lookup_insert_ne.
Qed.

Lemma run_commands_event (item_id : string) (cs : list command)
    (self : BrowserManager) :
  Forall (fun c => verdict_for item_id c = false) cs ->
  event_is_set item_id (run_commands cs self) = event_is_set item_id self.
Proof.
  revert self. induction cs as [|c cs IH]; intros self Hcs; [reflexivity|].
  apply Forall_cons in Hcs as [Hc Hcs]. cbn.
  unfold run_commands in IH. rewrite IH by assumption.
  now apply run_command_event.
Qed.

Lemma overrides_survive_later_verdicts_witness :
  pending_items parked !! "req-1" = Some parked_item /\
  modified_of
    (pending_items
       (snd (forward_item "req-1" None
               (snd (forward_item "req-1" (Some post_hi) parked)))) !! "req-1")
  = post_hi /\
  modified_of
    (pending_items
       (snd (drop_item "req-1"
               (snd (forward_item "req-1" (Some post_hi) parked)))) !! "req-1")
  = post_hi.
Proof.
  assert (Hp : pending_items parked !! "req-1" = Some parked_item)
    by (vm_compute; reflexivity).
  split; [exact Hp|].
  destruct (overrides_survive_later_verdicts parked "req-1" parked_item
              post_hi no_overrides Hp eq_refl eq_refl) as (Hn & _ & Hd).
  split; [exact Hn | exact Hd].
Defined.

(** ** The route handler: suspension, verdicts and dispatch *)

Lemma run_command_lookup (item_id : string) (self : BrowserManager)
    (c : command) :
  verdict_for item_id c = false ->
  pending_items (run_command self c) !! item_id
  = pending_items self !! item_id.
Proof.
  intros Hv. destruct c as [b|b|i m|i|r]; cbn in *; try reflexivity.
  - apply String.eqb_neq in Hv. unfold forward_item.
    destruct (pending_items self !! i); [|reflexivity].
    cbn. now rewrite lookup_insert_ne.
  - apply String.eqb_neq in Hv. unfold drop_item.
    destruct (pending_items self !! i); [|reflexivity].
    cbn. now rewrite lookup_insert_ne.
Qed.

Lemma run_commands_lookup (item_id : string) (cs : list command)
    (self : BrowserManager) :
  Forall (fun c => verdict_for item_id c = false) cs ->
  pending_items (run_commands cs self) !! item_id
  = pending_items self !! item_id.
Proof.
  revert self. induction cs as [|c cs IH]; intros self Hcs; [reflexivity|].
  apply Forall_cons in Hcs as [Hc Hcs]. cbn.
  unfold run_commands in IH. rewrite IH by assumption.
  now apply run_command_lookup.
Qed.

Lemma route_calls_app (a b : list route_call) :
  route_calls (a ++ b) = route_calls a ++ route_calls b.
Proof. unfold route_calls. induction a as [|[] a IH]; cbn; congruence. Qed.

Section HandlerExtras.
Context `{PyRuntime}.
Variable env : Env.

(** X9. A request that is to be intercepted stays parked until a verdict
    names it.  With request interception on, no bypass header and a capture
    callback that does not raise, the request stage suspends as long as the
    control channel sends no verdict for the request's id (whatever else it
    sends, flag changes included): no call has been made on the route, and
    the registry holds the entry, its event unset and no action recorded. *)
Theorem parked_until_verdict (self : BrowserManager) (request : Request)
    (fm fu : string) (fh h : dict) (fb : option string) (m : machine) :
  intercept_requests self = true ->
  fst (scan_channel fh) = false ->
  apply_channel false (snd (scan_channel fh)) fh = Ok h ->
  (on_request_captured (mgr m) = true -> capture_request_result env = Ok tt) ->
  Forall (fun c => verdict_for (uuid_req env) c = false)
         (other_tasks env AtCaptureRequest) ->
  Forall (fun c => verdict_for (uuid_req env) c = false)
         (other_tasks env AtWaitRequest) ->
  let run := request_stage env self request fm fu fh fb m in
  fst run = Waiting /\
  route_calls (trace (snd run)) = route_calls (trace m) /\
  exists it,
    pending_items (mgr (snd run)) !! uuid_req env = Some it /\
    p_type it = KRequest /\ p_event it = false /\ p_action it = None /\
    p_modified it = None.
Proof.
  intros Hon Hbyp Hch Hcap Hc1 Hc2 run.
  assert (Hrun : exists m1 tr it,
             run = (Waiting, {| mgr := m1; trace := tr |}) /\
             pending_items m1 !! uuid_req env = Some it /\
             (p_type it = KRequest /\ p_event it = false /\
              p_action it = None /\ p_modified it = None) /\
             route_calls tr = route_calls (trace m)).
  { subst run. unfold request_stage.
    destruct (scan_channel fh) as [byp ov]. cbn [fst snd] in *. subst byp.
    unfold mbind at 1, task_bind at 1, bind at 1. rewrite Hch. cbn [lift].
    rewrite Hon. cbn [andb negb].
    unfold set_pending, emit, wait_event, yield_at.
    unfold mbind, task_bind, bind, get_self, put_self. cbn [mgr trace fst snd].
    set (it := Build_PendingItem _ _ _ _ _).
    set (m0 := with_pending _ _).
    replace (on_request_captured m0) with (on_request_captured (mgr m))
      by reflexivity.
    assert (H0 : pending_items m0 !! uuid_req env = Some it)
      by apply lookup_insert_eq.
    destruct (on_request_captured (mgr m)) eqn:Hcb.
    - rewrite run_await, (Hcap eq_refl). cbn [lift mgr trace].
      unfold event_is_set.
      rewrite !run_commands_lookup by assumption. rewrite H0. cbn [p_event it].
      exists (run_commands (other_tasks env AtWaitRequest)
                (run_commands (other_tasks env AtCaptureRequest) m0)).
      eexists. exists it. split; [reflexivity|].
      rewrite !run_commands_lookup by assumption.
      rewrite route_calls_app, app_nil_r. now repeat split.
    - unfold mret, task_ret, ret. unfold event_is_set. cbn [mgr trace].
      rewrite H0. cbn [p_event it].
      rewrite !run_commands_lookup by assumption. rewrite H0. cbn [p_event it].
      exists (run_commands (other_tasks env AtWaitRequest) m0).
      eexists. exists it. split; [reflexivity|].
      rewrite !run_commands_lookup by assumption. now repeat split. }
  destruct Hrun as (m1 & tr & it & -> & Hl & Hit & Htr). cbn [fst snd mgr trace].
  split; [reflexivity|]. split; [exact Htr|].
  exists it. split; [exact Hl | exact Hit].
Qed.

End HandlerExtras.

(** ** What a task adds to the trace *)

Section Logs.
Context `{PyRuntime}.
Variable env : Env.
Variable P : route_call -> Prop.

Lemma logs_silent {A : Type} (t : task A) :
  (forall m, trace (snd (t m)) = trace m) -> logs P t.
Proof.
  intros Ht m. exists []. rewrite Ht, app_nil_r. now split.
Qed.

Lemma logs_ret {A : Type} (a : A) : logs P (mret a : task A).
Proof. now apply logs_silent. Qed.

Lemma logs_bind {A B : Type} (t : task A) (k : A -> task B) :
  logs P t -> (forall a, logs P (k a)) -> logs P (t ≫= k).
Proof.
  intros Ht Hk m. unfold mbind, task_bind, bind.
  destruct (Ht m) as (r1 & E1 & F1).
  destruct (t m) as [[a| |] m1]; cbn [snd] in *; [|now exists r1..].
  destruct (Hk a m1) as (r2 & E2 & F2).
  exists (r1 ++ r2). rewrite E2, E1, app_assoc. split; [reflexivity|].
  now apply Forall_app.
Qed.

Lemma logs_try {A : Type} (body handler : task A) :
  logs P body -> logs P handler -> logs P (try_except body handler).
Proof.
  intros Hb Hh m. unfold try_except.
  destruct (Hb m) as (r1 & E1 & F1).
  destruct (body m) as [[a| |] m1]; cbn [snd] in *; [now exists r1| |now exists r1].
  destruct (Hh m1) as (r2 & E2 & F2).
  exists (r1 ++ r2). rewrite E2, E1, app_assoc. split; [reflexivity|].
  now apply Forall_app.
Qed.

Lemma logs_lift {A : Type} (o : outcome A) : logs P (lift o).
Proof. apply logs_silent. intros m. unfold lift. now destruct o. Qed.

Lemma logs_yield (pt : await_point) : logs P (yield_at env pt).
Proof. now apply logs_silent. Qed.

Lemma logs_log (c : route_call) : P c -> logs P (log_call c).
Proof. intros Hc m. exists [c]. split; [reflexivity|]. now constructor. Qed.

Lemma logs_await {A : Type} (pt : await_point) (c : route_call)
    (o : outcome A) :
  P c -> logs P (await env pt c o).
Proof.
  intros Hc. unfold await.
  apply logs_bind; [now apply logs_log|]. intros _.
  apply logs_bind; [apply logs_yield|]. intros _. apply logs_lift.
Qed.

Lemma logs_await_read {A : Type} (pt : await_point) (o : outcome A) :
  logs P (await_read env pt o).
Proof.
  unfold await_read. apply logs_bind; [apply logs_yield|]. intros _.
  apply logs_lift.
Qed.

Lemma logs_wait_event (item_id : string) (pt : await_point) :
  logs P (wait_event env item_id pt).
Proof.
  apply logs_silent. intros m. unfold wait_event.
  destruct (event_is_set item_id (mgr m)); [reflexivity|].
  unfold yield_at, mbind, task_bind, bind, get_self, put_self.
  now destruct (event_is_set item_id _).
Qed.

Lemma logs_set_pending (item_id : string) (it : PendingItem) :
  logs P (set_pending item_id it).
Proof. now apply logs_silent. Qed.

Lemma logs_del_pending (item_id : string) : logs P (del_pending item_id).
Proof. now apply logs_silent. Qed.

Lemma logs_get_pending (item_id : string) : logs P (get_pending item_id).
Proof. now apply logs_silent. Qed.

Lemma logs_get_self : logs P get_self.
Proof. now apply logs_silent. Qed.

Lemma logs_emit (pt : await_point) (c : capture) (o : outcome unit) :
  P (Captured c) -> logs P (emit env pt c o).
Proof.
  intros Hc. unfold emit. apply logs_bind; [apply logs_get_self|].
  intros self. destruct (on_request_captured self);
    [now apply logs_await | apply logs_ret].
Qed.

Hypothesis P_abort : P RouteAbort.
Hypothesis P_fulfill : forall s h b, P (RouteFulfill s h b).

Lemma logs_resume_response (res_id : string) (res_status : Z)
    (res_headers : dict) (res_body : string) :
  logs P (resume_response env res_id res_status res_headers res_body).
Proof.
  unfold resume_response. apply logs_bind; [apply logs_get_pending|].
  intros item. destruct (is_drop item);
    (apply logs_bind; [apply logs_del_pending|]); intros _;
    now apply logs_await.
Qed.

Lemma logs_response_stage (req_id : string) (response : APIResponse) :
  (forall r, cs_id r = uuid_res env -> cs_req_id r = req_id ->
             P (Captured (CaptureResponse r))) ->
  logs P (response_stage env req_id response).
Proof.
  intros Hcap. unfold response_stage.
  apply logs_bind.
  { apply logs_try; [apply logs_await_read | apply logs_ret]. }
  intros res_body. apply logs_bind; [apply logs_get_self|]. intros self.
  destruct (intercept_responses self).
  - apply logs_bind; [apply logs_set_pending|]. intros _.
    apply logs_bind; [apply logs_emit; now apply Hcap|]. intros _.
    apply logs_bind; [apply logs_wait_event|]. intros _.
    apply logs_resume_response.
  - apply logs_bind; [apply logs_emit; now apply Hcap|]. intros _.
    now apply logs_await.
Qed.

Lemma logs_dispatch_stage (req_id : string) (is_repeater_bypass : bool)
    (fm fu : string) (fh : dict) (fb : option string) :
  (forall r, cs_id r = uuid_res env -> cs_req_id r = req_id ->
             P (Captured (CaptureResponse r))) ->
  (forall a, P (RouteFetch a)) ->
  (forall a, P (RouteContinue (Some a))) ->
  logs P (dispatch_stage env req_id is_repeater_bypass fm fu fh fb).
Proof.
  intros Hcap Hf Hc. unfold dispatch_stage. destruct is_repeater_bypass.
  - apply logs_try; now apply logs_await.
  - apply logs_bind.
    + apply logs_try.
      * apply logs_bind; [now apply logs_await|]. intros r. apply logs_ret.
      * apply logs_bind; [now apply logs_await|]. intros _. apply logs_ret.
    + intros [response|]; [now apply logs_response_stage | apply logs_ret].
Qed.

Lemma logs_resume_request (req_id : string) (is_repeater_bypass : bool)
    (fm fu : string) (fh : dict) (fb : option string) :
  (forall r, cs_id r = uuid_res env -> cs_req_id r = req_id ->
             P (Captured (CaptureResponse r))) ->
  (forall a, P (RouteFetch a)) ->
  (forall a, P (RouteContinue (Some a))) ->
  logs P (resume_request env req_id is_repeater_bypass fm fu fh fb).
Proof.
  intros Hcap Hf Hc. unfold resume_request.
  apply logs_bind; [apply logs_get_pending|]. intros item.
  destruct (is_drop item);
    (apply logs_bind; [apply logs_del_pending|]); intros _;
    [now apply logs_await | now apply logs_dispatch_stage].
Qed.

Lemma logs_request_stage (self : BrowserManager) (request : Request)
    (fm fu : string) (fh : dict) (fb : option string) :
  (forall q, cq_id q = uuid_req env -> P (Captured (CaptureRequest q))) ->
  (forall r, cs_id r = uuid_res env -> cs_req_id r = uuid_req env ->
             P (Captured (CaptureResponse r))) ->
  (forall a, P (RouteFetch a)) ->
  (forall a, P (RouteContinue (Some a))) ->
  logs P (request_stage env self request fm fu fh fb).
Proof.
  intros Hq Hcap Hf Hc. unfold request_stage.
  destruct (scan_channel fh) as [byp ov].
  apply logs_bind; [apply logs_lift|]. intros h.
  destruct (intercept_requests self && negb byp).
  - apply logs_bind; [apply logs_set_pending|]. intros _.
    apply logs_bind; [apply logs_emit; now apply Hq|]. intros _.
    apply logs_bind; [apply logs_wait_event|]. intros _.
    now apply logs_resume_request.
  - apply logs_bind; [apply logs_emit; now apply Hq|]. intros _.
    now apply logs_dispatch_stage.
Qed.

Lemma logs_body (request : Request) :
  (forall q, cq_id q = uuid_req env -> P (Captured (CaptureRequest q))) ->
  (forall r, cs_id r = uuid_res env -> cs_req_id r = uuid_req env ->
             P (Captured (CaptureResponse r))) ->
  (forall a, P (RouteFetch a)) ->
  (forall a, P (RouteContinue (Some a))) ->
  logs P (route_handler_body env request).
Proof.
  intros Hq Hcap Hf Hc. unfold route_handler_body.
  apply logs_bind; [apply logs_await_read|]. intros headers.
  apply logs_bind; [apply logs_lift|]. intros post.
  apply logs_bind; [apply logs_get_self|]. intros self.
  destruct (rewrite_request _ _ _ _) as [[[fm fu] fh] fb].
  now apply logs_request_stage.
Qed.

End Logs.

(** ** Runs of the handler: drop, bypass, plain mediation *)

Lemma continue_headers_clean (h : dict) :
  Forall (fun k => is_in (Str.lower k) ["host"; "content-length"] = false)
         (keys (List.filter
                  (fun kv => negb (is_in (Str.lower (fst kv))
                                         ["host"; "content-length"])) h)).
Proof.
  unfold keys. apply Forall_forall. intros k Hk.
  apply list_elem_of_In, in_map_iff in Hk as (kv & <- & Hkv).
  apply filter_In in Hkv as [_ Hf]. now apply negb_true_iff in Hf.
Qed.

Lemma scan_step_plain `{PyRuntime} (st : bool * (bool * option dict))
    (kv : string * string) :
  is_in (Str.lower (fst kv)) reserved = false -> scan_step st kv = st.
Proof.
  unfold scan_step, is_in, reserved. cbn [existsb]. intros Hk.
  apply orb_false_iff in Hk as [H1 Hk].
  apply orb_false_iff in Hk as [H2 _].
  now rewrite H1, H2.
Qed.


Section HandlerRuns.
Context `{PyRuntime}.
Variable env : Env.

(** X10. A drop verdict ends in [route.abort()] and nothing else, on the
    request half and on the response half alike, in bypass mode or not and
    whatever overrides an earlier forward left in the entry; the resumed
    half ends as the abort ends, so a failing abort is an exception of the
    handler's [try] block. *)
Theorem drop_verdict_aborts (self : BrowserManager) (item_id : string)
    (it : PendingItem) (tr : list route_call) (byp : bool) (fm fu : string)
    (fh : dict) (fb : option string) (st : Z) (hs : dict) (body : string) :
  pending_items self !! item_id = Some it ->
  let woken := {| mgr := snd (drop_item item_id self); trace := tr |} in
  let req := resume_request env item_id byp fm fu fh fb woken in
  let res := resume_response env item_id st hs body woken in
  trace (snd req) = tr ++ [RouteAbort] /\
  trace (snd res) = tr ++ [RouteAbort] /\
  fst req = fst (lift (abort_result env) woken) /\
  fst res = fst (lift (abort_result env) woken).
Proof.
  intros Hs woken req res.
  assert (Hl : is_drop (pending_items (mgr woken) !! item_id) = true).
  { subst woken. cbn [mgr]. unfold drop_item. rewrite Hs. cbn.
    now rewrite lookup_insert_eq. }
  subst req res. unfold resume_request, resume_response.
  rewrite !bind_get_pending, Hl, !bind_del_pending, !run_await.
  unfold lift. now destruct (abort_result env) as [[]|].
Qed.

(** X11. A request that carries the bypass header is never parked, with
    request interception on or off: the request stage does not suspend and
    leaves no entry for the request in the registry, and all it does is
    report the request, hand it back to the browser through
    [route.continue_] without [Host] and [Content-Length], and abort when
    that call failed.  It never fetches and never fulfils. *)
Theorem bypass_never_parks (self : BrowserManager) (request : Request)
    (fm fu : string) (fh : dict) (fb : option string) (m : machine) :
  fst (scan_channel fh) = true ->
  let run := request_stage env self request fm fu fh fb m in
  fst run <> Waiting /\
  (absent (uuid_req env) m -> absent (uuid_req env) (snd run)) /\
  exists rest,
    trace (snd run) = trace m ++ rest /\ Forall bypass_call rest.
Proof.
  intros Hbyp run. subst run. unfold request_stage.
  destruct (scan_channel fh) as [byp ov]. cbn [fst] in Hbyp. subst byp.
  rewrite andb_false_r.
  pose proof continue_headers_clean as Hclean.
  unfold absent, dispatch_stage. run_task.
  destruct (apply_channel true ov fh) as [h|].
  2:{ split; [discriminate|]. split; [auto|].
      exists []. now rewrite app_nil_r. }
  destruct (on_request_captured (mgr m));
    [destruct (capture_request_result env) as [[]|]|];
    cbn [mgr trace fst snd];
    try (destruct (continue_result env) as [[]|]; cbn [mgr trace fst snd];
         [|destruct (abort_result env) as [[]|]; cbn [mgr trace fst snd]]);
    (split; [discriminate|]);
    (split; [intros Ha; now repeat apply run_commands_absent|]);
    eexists; rewrite <- ?app_assoc; (split; [reflexivity|]);
    repeat constructor; apply Hclean.
Qed.



(** X13. Captures are linked: whatever happens during a run of the handler,
    every request capture it reports carries the request's id, and every
    response capture carries its own id and, as [req_id], the id of the
    request it answers. *)
Theorem captures_carry_run_ids (request : Request) (m : machine) :
  exists rest,
    trace (snd (_route_handler env request m)) = trace m ++ rest /\
    Forall (linked env) rest.
Proof.
  apply (logs_try (linked env)).
  - apply logs_body; cbn; auto.
  - apply logs_try; [now apply logs_await | apply logs_ret].
Qed.

End HandlerRuns.

(** ** Runs of the handler: a failing callback, interception off *)

Lemma run_commands_present (item_id : string) (cs : list command)
    (self : BrowserManager) (it : PendingItem) :
  pending_items self !! item_id = Some it ->
  exists it',
    pending_items (run_commands cs self) !! item_id = Some it' /\
    p_type it' = p_type it /\ p_data it' = p_data it.
Proof.
  revert self it. induction cs as [|c cs IH]; intros self it Hl; [eauto|].
  cbn. pose proof (run_command_entry self c item_id) as He.
  destruct (pending_items (run_command self c) !! item_id) as [it1|] eqn:E;
    [|congruence].
  destruct He as (it0 & H0 & Ht & Hd). rewrite Hl in H0. injection H0 as <-.
  destruct (IH _ _ E) as (it' & Hl' & Ht' & Hd').
  exists it'. split; [exact Hl'|]. split; congruence.
Qed.

Lemma run_command_responses_off (self : BrowserManager) (c : command) :
  c <> CmdInterceptResponses true ->
  intercept_responses self = false ->
  intercept_responses (run_command self c) = false.
Proof.
  intros Hc Hs. destruct c as [b|[]|i m|i|r]; cbn; try assumption.
  - congruence.
  - reflexivity.
  - unfold forward_item. now destruct (pending_items self !! i).
  - unfold drop_item. now destruct (pending_items self !! i).
Qed.

Lemma run_commands_responses_off (cs : list command) (self : BrowserManager) :
  Forall (fun c => c <> CmdInterceptResponses true) cs ->
  intercept_responses self = false ->
  intercept_responses (run_commands cs self) = false.
Proof.
  revert self. induction cs as [|c cs IH]; intros self Hcs Hs; [assumption|].
  apply Forall_cons in Hcs as [Hc Hcs]. cbn.
  apply IH; [assumption|]. now apply run_command_responses_off.
Qed.

Section HandlerFailures.
Context `{PyRuntime}.
Variable env : Env.

(** X14. A capture callback that raises while a request is being parked
    leaves the request's entry in the registry.  The exception ends the
    [try] block, the fallback hands the request back to the browser
    unmodified and the handler returns; the entry made just before the
    callback is still there, with the data it was parked with, so a verdict
    for the id is accepted afterwards although no pipeline waits for it. *)
Theorem failed_capture_leaves_entry (self : BrowserManager)
    (request : Request) (fm fu : string) (fh h : dict) (fb : option string)
    (m : machine) :
  intercept_requests self = true ->
  fst (scan_channel fh) = false ->
  apply_channel false (snd (scan_channel fh)) fh = Ok h ->
  on_request_captured (mgr m) = true ->
  capture_request_result env = Raised ->
  let run :=
    try_except (request_stage env self request fm fu fh fb)
      (try_except
         (await env AtFallback (RouteContinue None) (fallback_result env))
         (mret tt)) m in
  fst run = Returned tt /\
  route_calls (trace (snd run)) = route_calls (trace m) ++ [RouteContinue None] /\
  (exists it,
     pending_items (mgr (snd run)) !! uuid_req env = Some it /\
     p_type it = KRequest) /\
  fst (forward_item (uuid_req env) None (mgr (snd run))) = true /\
  fst (drop_item (uuid_req env) (mgr (snd run))) = true.
Proof.
  intros Hon Hbyp Hch Hcb Hcap run.
  assert (Hbody : exists m0 c,
             request_stage env self request fm fu fh fb m
             = (Threw, {| mgr := run_commands (other_tasks env AtCaptureRequest) m0;
                          trace := trace m ++ [Captured c] |}) /\
             exists it, pending_items m0 !! uuid_req env = Some it /\
                        p_type it = KRequest).
  { unfold request_stage.
    destruct (scan_channel fh) as [byp ov]. cbn [fst snd] in *. subst byp.
    unfold mbind at 1, task_bind at 1, bind at 1. rewrite Hch. cbn [lift].
    rewrite Hon. cbn [andb negb]. run_task.
    cbn [with_pending on_request_captured]. rewrite Hcb, Hcap.
    do 2 eexists. split; [reflexivity|].
    eexists. split; [apply lookup_insert_eq | reflexivity]. }
  destruct Hbody as (m0 & c & Hbody & it & Hit & Hty).
  assert (Hrun : run = (Returned tt,
            {| mgr := run_commands (other_tasks env AtFallback)
                        (run_commands (other_tasks env AtCaptureRequest) m0);
               trace := (trace m ++ [Captured c]) ++ [RouteContinue None] |})).
  { subst run. unfold try_except at 1. rewrite Hbody. now rewrite fallback_run. }
  rewrite Hrun. cbn [fst snd mgr trace]. clear Hrun run.
  destruct (run_commands_present (uuid_req env)
              (other_tasks env AtCaptureRequest) m0 it Hit)
    as (it1 & H1 & Ht1 & _).
  destruct (run_commands_present (uuid_req env)
              (other_tasks env AtFallback) _ it1 H1) as (it2 & H2 & Ht2 & _).
  split; [reflexivity|]. split.
  { rewrite !route_calls_app. cbn. now rewrite app_nil_r. }
  split; [exists it2; split; [exact H2 | congruence]|].
  unfold forward_item, drop_item. now rewrite H2.
Qed.

(** X15. With interception off the handler runs through.  When request
    interception is off as the request stage starts, response interception
    is off and the control channel does not switch it on meanwhile, the
    request stage never suspends, whatever the awaited calls do. *)
Theorem interception_off_runs_through (self : BrowserManager)
    (request : Request) (fm fu : string) (fh : dict) (fb : option string)
    (m : machine) :
  intercept_requests self = false ->
  intercept_responses (mgr m) = false ->
  (forall pt, Forall (fun c => c <> CmdInterceptResponses true)
                     (other_tasks env pt)) ->
  fst (request_stage env self request fm fu fh fb m) <> Waiting.
Proof.
  intros Hreq Hres Hcmd. unfold request_stage.
  destruct (scan_channel fh) as [byp ov]. rewrite Hreq. cbn [andb].
  unfold dispatch_stage, response_stage. run_task.
  destruct (apply_channel byp ov fh) as [h|]; [|discriminate].
  assert (Hoff : forall pt self0,
             intercept_responses self0 = false ->
             intercept_responses (run_commands (other_tasks env pt) self0)
             = false).
  { intros pt self0. now apply run_commands_responses_off. }
  destruct (on_request_captured (mgr m)) eqn:Hcb;
    [destruct (capture_request_result env) as [[]|]; [|discriminate]|];
    cbn [mgr trace fst snd]; destruct byp;
    try (destruct (continue_result env) as [[]|]; cbn [mgr trace fst snd];
         [discriminate|now destruct (abort_result env) as [[]|]]);
    (destruct (fetch_result env) as [response|]; cbn [mgr trace fst snd];
     [|now destruct (abort_result env) as [[]|]]);
    destruct (resp_text response) as [t|]; cbn [mgr trace fst snd];
    rewrite !Hoff by (repeat apply Hoff; exact Hres);
    match goal with
    | |- context [on_request_captured ?s] =>
        destruct (on_request_captured s)
    end;
    try (destruct (capture_response_result env) as [[]|]; [|discriminate]);
    cbn [mgr trace fst snd]; now destruct (fulfill_result env) as [[]|].
Qed.

End HandlerFailures.

(** ** Settling the route *)

Section Orderly.
Context `{PyRuntime}.
Variable env : Env.

Lemma existsb_quiet (rest : list route_call) :
  Forall (fun c => terminal c = false) rest -> existsb terminal rest = false.
Proof.
  induction 1 as [|c rest Hc _ IH]; [reflexivity|]. cbn. now rewrite Hc.
Qed.

(** A prefix that settles nothing, then an orderly rest. *)
Lemma orderly_bind {A B : Type} (t : task A) (k : A -> task B) :
  logs (fun c => terminal c = false) t -> (forall a, orderly (k a)) ->
  orderly (t ≫= k).
Proof.
  intros Ht Hk m. unfold mbind, task_bind, bind.
  destruct (Ht m) as (r1 & E1 & F1). apply existsb_quiet in F1.
  destruct (t m) as [[a| |] m1]; cbn [fst snd] in *;
    [|now exists r1..].
  destruct (Hk a m1) as (r2 & E2 & F2).
  exists (r1 ++ r2). rewrite E2, E1, app_assoc. split; [reflexivity|].
  rewrite existsb_app, F1. exact F2.
Qed.

Lemma orderly_await (pt : await_point) (c : route_call) (o : outcome unit) :
  terminal c = true -> orderly (await env pt c o).
Proof.
  intros Hc m. exists [c]. rewrite run_await. unfold lift.
  destruct o as [[]|]; cbn; now rewrite ?Hc.
Qed.

Lemma orderly_resume_response (res_id : string) (st : Z) (hs : dict)
    (b : string) :
  orderly (resume_response env res_id st hs b).
Proof.
  unfold resume_response.
  apply orderly_bind; [apply logs_get_pending|]. intros item.
  destruct (is_drop item);
    (apply orderly_bind; [apply logs_del_pending|]); intros _;
    now apply orderly_await.
Qed.

Lemma orderly_response_stage (req_id : string) (response : APIResponse) :
  orderly (response_stage env req_id response).
Proof.
  unfold response_stage.
  apply orderly_bind.
  { apply logs_try; [apply logs_await_read | apply logs_ret]. }
  intros res_body. apply orderly_bind; [apply logs_get_self|]. intros self.
  destruct (intercept_responses self).
  - apply orderly_bind; [apply logs_set_pending|]. intros _.
    apply orderly_bind; [now apply logs_emit|]. intros _.
    apply orderly_bind; [apply logs_wait_event|]. intros _.
    apply orderly_resume_response.
  - apply orderly_bind; [now apply logs_emit|]. intros _.
    now apply orderly_await.
Qed.

Lemma orderly_dispatch_stage (req_id : string) (is_repeater_bypass : bool)
    (fm fu : string) (fh : dict) (fb : option string) :
  orderly (dispatch_stage env req_id is_repeater_bypass fm fu fh fb).
Proof.
  unfold dispatch_stage. destruct is_repeater_bypass; intros m.
  - unfold try_except. rewrite run_await. unfold lift.
    destruct (continue_result env) as [[]|]; cbn [fst snd trace].
    + now eexists [_].
    + rewrite run_await. unfold lift.
      destruct (abort_result env) as [[]|]; cbn [fst snd trace];
        rewrite <- app_assoc; now eexists [_; _].
  - unfold try_except, mbind, task_bind, bind. rewrite !run_await.
    unfold lift. destruct (fetch_result env) as [response|].
    + cbn [mret task_ret ret].
      match goal with
      | |- context [response_stage env req_id response ?m1] =>
          destruct (orderly_response_stage req_id response m1)
            as (rest & E & F)
      end.
      cbn [trace] in E. eexists (_ :: rest).
      rewrite E, <- app_assoc. split; [reflexivity|]. exact F.
    + rewrite run_await. unfold lift.
      destruct (abort_result env) as [[]|]; cbn [fst snd trace];
        rewrite <- app_assoc; now eexists [_; _].
Qed.

Lemma orderly_resume_request (req_id : string) (is_repeater_bypass : bool)
    (fm fu : string) (fh : dict) (fb : option string) :
  orderly (resume_request env req_id is_repeater_bypass fm fu fh fb).
Proof.
  unfold resume_request.
  apply orderly_bind; [apply logs_get_pending|]. intros item.
  destruct (is_drop item);
    (apply orderly_bind; [apply logs_del_pending|]); intros _;
    [now apply orderly_await | apply orderly_dispatch_stage].
Qed.

Lemma orderly_body (request : Request) :
  orderly (route_handler_body env request).
Proof.
  unfold route_handler_body.
  apply orderly_bind; [apply logs_await_read|]. intros headers.
  apply orderly_bind; [apply logs_lift|]. intros post.
  apply orderly_bind; [apply logs_get_self|]. intros self.
  destruct (rewrite_request _ _ _ _) as [[[fm fu] fh] fb].
  unfold request_stage. destruct (scan_channel fh) as [byp ov].
  apply orderly_bind; [apply logs_lift|]. intros h.
  destruct (intercept_requests self && negb byp).
  - apply orderly_bind; [apply logs_set_pending|]. intros _.
    apply orderly_bind; [now apply logs_emit|]. intros _.
    apply orderly_bind; [apply logs_wait_event|]. intros _.
    apply orderly_resume_request.
  - apply orderly_bind; [now apply logs_emit|]. intros _.
    apply orderly_dispatch_stage.
Qed.

(** X16. The route is settled exactly when the handler is done.  A run of
    the handler that returns has called [route.abort], [route.continue_] or
    [route.fulfill] at least once, whichever way it went; a run that is
    suspended on an event has called none of them.  The same holds of the
    two halves that resume after a verdict. *)
Theorem route_settled_when_done (request : Request) (req_id res_id : string)
    (byp : bool) (fm fu : string) (fh hs : dict) (fb : option string)
    (st : Z) (b : string) :
  orderly (_route_handler env request) /\
  orderly (resume_request env req_id byp fm fu fh fb) /\
  orderly (resume_response env res_id st hs b).
Proof.
  split; [|split; [apply orderly_resume_request | apply orderly_resume_response]].
  intros m.
  assert (Hrun : _route_handler env request m =
                 match route_handler_body env request m with
                 | (Threw, mb) =>
                     try_except
                       (await env AtFallback (RouteContinue None)
                              (fallback_result env)) (mret tt) mb
                 | (Returned a, mb) => (Returned a, mb)
                 | (Waiting, mb) => (Waiting, mb)
                 end) by reflexivity.
  rewrite Hrun. clear Hrun.
  destruct (orderly_body request m) as (rest & E & F).
  destruct (route_handler_body env request m) as [[[]| |] m1];
    cbn [fst snd] in *.
  - now exists rest.
  - rewrite fallback_run. cbn [fst snd trace].
    exists (rest ++ [RouteContinue None]). rewrite E, app_assoc.
    split; [reflexivity|]. rewrite existsb_app. cbn. apply orb_true_r.
  - now exists rest.
Qed.

End Orderly.

(** ** The handler theorems on concrete runs *)

Lemma parked_until_verdict_witness :
  fst (@request_stage demo_runtime
         (smooth (fun _ => [CmdInterceptRequests false; CmdDrop "req-2"]))
         (manager true false []) (get_request []) "GET"
         "https://example.com/" [] None (start (manager true false [])))
  = Waiting.
Proof.
  refine (proj1 (@parked_until_verdict demo_runtime
                   (smooth (fun _ => [CmdInterceptRequests false;
                                      CmdDrop "req-2"]))
                   (manager true false []) (get_request []) "GET"
                   "https://example.com/" [] [] None
                   (start (manager true false [])) _ _ _ _ _ _)).
  - reflexivity.
  - vm_compute. reflexivity.
  - vm_compute. reflexivity.
  - intros _. reflexivity.
  - repeat constructor.
  - repeat constructor.
Defined.

Lemma drop_verdict_aborts_witness :
  pending_items parked !! "req-1" = Some parked_item /\
  trace (snd (@resume_request demo_runtime (smooth idle) "req-1" false "GET"
                "https://example.com/" [] None
                {| mgr := snd (drop_item "req-1" parked); trace := [] |}))
  = [RouteAbort].
Proof.
  assert (Hp : pending_items parked !! "req-1" = Some parked_item)
    by (vm_compute; reflexivity).
  split; [exact Hp|].
  exact (proj1 (@drop_verdict_aborts demo_runtime (smooth idle) parked "req-1"
                  parked_item [] false "GET" "https://example.com/" [] None
                  200 [] EmptyString Hp)).
Defined.

Lemma bypass_never_parks_witness :
  fst (@request_stage demo_runtime (smooth idle) (manager true false [])
         (get_request [("X-WAF-Bypass-Repeater", "1")]) "GET"
         "https://example.com/" [("X-WAF-Bypass-Repeater", "1")] None
         (start (manager true false [])))
  <> Waiting.
Proof.
  refine (proj1 (@bypass_never_parks demo_runtime (smooth idle)
                   (manager true false [])
                   (get_request [("X-WAF-Bypass-Repeater", "1")]) "GET"
                   "https://example.com/" [("X-WAF-Bypass-Repeater", "1")]
                   None (start (manager true false [])) _)).
  vm_compute. reflexivity.
Defined.


Lemma failed_capture_leaves_entry_witness :
  fst (forward_item "req-1" None
         (mgr (snd (try_except
                      (@request_stage demo_runtime capture_fails
                         (manager true false []) (get_request []) "GET"
                         "https://example.com/" [] None)
                      (try_except
                         (await capture_fails AtFallback (RouteContinue None)
                                (fallback_result capture_fails))
                         (mret tt))
                      (start (manager true false []))))))
  = true.
Proof.
  refine (proj1 (proj2 (proj2 (proj2
            (@failed_capture_leaves_entry demo_runtime capture_fails
               (manager true false []) (get_request []) "GET"
               "https://example.com/" [] [] None
               (start (manager true false [])) _ _ _ _ _))))).
  - reflexivity.
  - vm_compute. reflexivity.
  - vm_compute. reflexivity.
  - reflexivity.
  - reflexivity.
Defined.

Lemma interception_off_runs_through_witness :
  fst (@request_stage demo_runtime
         (smooth (fun _ => [CmdInterceptRequests true]))
         (manager false false []) (get_request []) "GET"
         "https://example.com/" [] None (start (manager false false [])))
  <> Waiting.
Proof.
  apply (@interception_off_runs_through demo_runtime).
  - reflexivity.
  - reflexivity.
  - intros pt. repeat constructor. discriminate.
Defined.

(** ** Replay: the header channel from [replay_request] to the handler *)

Lemma dict_get_filter (g : string -> bool) (d : dict) (k : string) :
  dict_get k (List.filter (fun kv => g (fst kv)) d)
  = if g k then dict_get k d else None.
Proof.
  induction d as [|[k' v] d IH]; [now destruct (g k)|].
  cbn [List.filter fst]. destruct (g k') eqn:Ek'; cbn [dict_get].
  - destruct (String.eqb k' k) eqn:E; [|exact IH].
    apply String.eqb_eq in E. subst k'. now rewrite Ek'.
  - rewrite IH. destruct (String.eqb k' k) eqn:E; [|reflexivity].
    apply String.eqb_eq in E. subst k'. now rewrite Ek'.
Qed.

Lemma dict_get_update (d o : dict) (k : string) :
  NoDup (keys o) ->
  dict_get k (dict_update d o)
  = match dict_get k o with Some v => Some v | None => dict_get k d end.
Proof.
  unfold dict_update. revert d.
  induction o as [|[k1 v1] o IH]; intros d Hnd; [reflexivity|].
  cbn [keys map fst] in Hnd. apply NoDup_cons in Hnd as [Hk1 Hnd].
  cbn [fold_left fst snd dict_get]. rewrite IH by assumption.
  destruct (String.eqb k1 k) eqn:E.
  - apply String.eqb_eq in E. subst k1.
    rewrite (proj2 (dict_get_none k o)), dict_get_set_eq; [reflexivity|].
    intros Hin. apply Hk1. now apply list_elem_of_In.
  - apply String.eqb_neq in E. now rewrite dict_get_set_ne.
Qed.

Section ReplayChannel.
Context `{PyRuntime}.

Lemma scan_fold_plain (h : dict) (st : bool * (bool * option dict)) :
  no_reserved h -> fold_left scan_step h st = st.
Proof.
  unfold no_reserved, keys. revert st.
  induction h as [|kv h IH]; intros st Hh; [reflexivity|].
  cbn in Hh. apply Forall_cons in Hh as [Hk Hh]. cbn [fold_left].
  rewrite scan_step_plain by assumption. now apply IH.
Qed.

Lemma scan_fold_keeps (stored : dict) (l : dict)
    (st : bool * (bool * option dict)) :
  Forall (fun kv => Str.lower (fst kv) = "x-antigravity-override" ->
                    json_loads (snd kv) = JsonValue true (Some stored)) l ->
  snd st = (true, Some stored) ->
  snd (fold_left scan_step l st) = (true, Some stored).
Proof.
  revert st. induction l as [|kv l IH]; intros st Hl Hst; [exact Hst|].
  apply Forall_cons in Hl as [Hkv Hl]. cbn [fold_left].
  apply IH; [exact Hl|]. unfold scan_step.
  destruct (String.eqb _ "x-waf-bypass-repeater"); [exact Hst|].
  destruct (String.eqb _ "x-antigravity-override") eqn:E; [|exact Hst].
  apply String.eqb_eq in E. now rewrite (Hkv E).
Qed.

Lemma scan_fold_finds (stored : dict) (l : dict)
    (st : bool * (bool * option dict)) :
  Forall (fun kv => Str.lower (fst kv) = "x-antigravity-override" ->
                    json_loads (snd kv) = JsonValue true (Some stored)) l ->
  Exists (fun kv => Str.lower (fst kv) = "x-antigravity-override") l ->
  snd (fold_left scan_step l st) = (true, Some stored).
Proof.
  intros Hl Hex. revert st Hl.
  induction Hex as [kv l Hkv|kv l Hex IH]; intros st Hl;
    apply Forall_cons in Hl as [Hp Hl]; cbn [fold_left].
  - apply (scan_fold_keeps stored); [exact Hl|]. unfold scan_step.
    rewrite Hkv. cbn [String.eqb Ascii.eqb Bool.eqb]. now rewrite (Hp Hkv).
  - now apply IH.
Qed.

(** X17. What the in-page fetch is given, header by header, for names of
    ASCII characters: the override header holds the JSON text of all stored
    headers and the bypass header holds [1], whatever the stored headers
    are (a stored header of the same name is overwritten); a name on the
    forbidden list or beginning with [sec-], in any letter case, is absent;
    every other stored header is there with its stored value, and nothing
    else is. *)
Theorem replay_headers_content (stored : dict) (k : string) :
  is_ascii k = true ->
  dict_get k (replay_safe_headers stored) =
  if String.eqb k "X-Antigravity-Override" then Some (json_dumps stored)
  else if String.eqb k "X-WAF-Bypass-Repeater" then Some "1"
  else if is_in (Str.lower k) forbidden
          || String.prefix "sec-" (Str.lower k) then None
  else dict_get k stored.
Proof.
  intros _. unfold replay_safe_headers.
  destruct (String.eqb k "X-Antigravity-Override") eqn:Eo.
  { apply String.eqb_eq in Eo. subst k. apply dict_get_set_eq. }
  apply String.eqb_neq in Eo. rewrite dict_get_set_ne by congruence.
  destruct (String.eqb k "X-WAF-Bypass-Repeater") eqn:Eb.
  { apply String.eqb_eq in Eb. subst k. apply dict_get_set_eq. }
  apply String.eqb_neq in Eb. rewrite dict_get_set_ne by congruence.
  unfold safe_part.
  rewrite (dict_get_filter
             (fun k => negb (is_in (Str.lower k) forbidden)
                       && negb (String.prefix "sec-" (Str.lower k)))).
  now destruct (is_in (Str.lower k) forbidden),
               (String.prefix "sec-" (Str.lower k)).
Qed.

(** X18. The override channel restores the stored headers.  When the
    headers that reach the handler carry an override header that decodes to
    the dictionary [stored], the channel step succeeds, and in its result
    every stored header has its stored value and every other header of the
    request that is not reserved is as it arrived.  A reserved name is in
    the result only if [stored] brings it back: when no stored header has a
    reserved name, the result has none. *)
Theorem override_restores_stored (stored fh : dict) :
  NoDup (keys stored) ->
  carries_override stored fh ->
  exists h,
    apply_channel (fst (scan_channel fh)) (snd (scan_channel fh)) fh = Ok h /\
    (forall k,
       dict_get k h =
       match dict_get k stored with
       | Some v => Some v
       | None => if is_in (Str.lower k) reserved then None else dict_get k fh
       end) /\
    (no_reserved stored -> no_reserved h).
Proof.
  intros Hnd [Hex Hall].
  pose proof (scan_fold_finds stored fh (false, (false, Some [])) Hall Hex)
    as Hscan.
  fold (scan_channel fh) in Hscan. rewrite Hscan.
  unfold apply_channel. cbn [fst snd]. rewrite orb_true_r.
  eexists. split; [reflexivity|]. split.
  - intros k. rewrite dict_get_update by assumption. unfold strip_reserved.
    rewrite (dict_get_filter (fun k => negb (is_in (Str.lower k) reserved))).
    now destruct (is_in (Str.lower k) reserved).
  - intros Hst. apply no_reserved_update; [apply no_reserved_strip | exact Hst].
Qed.

(** X19. The handler reads a replayed request as [replay_request] wrote it:
    when no stored header has a reserved name, scanning the header set built
    for the in-page fetch raises the bypass flag and yields as override
    exactly what [json.loads] makes of the JSON text of the stored headers
    (and the empty override when that text does not parse). *)
Theorem replay_headers_decoded (stored : dict) :
  no_reserved stored ->
  scan_channel (replay_safe_headers stored) =
  (true, match json_loads (json_dumps stored) with
         | JsonValue truthy pairs => (truthy, pairs)
         | JsonError => (false, Some [])
         end).
Proof.
  intros Hnr.
  assert (Hsafe : no_reserved (safe_part stored))
    by apply no_reserved_filter, Hnr.
  assert (Hfresh : forall k, is_in (Str.lower k) reserved = true ->
                             ~ In k (keys (safe_part stored))).
  { intros k Hk Hin. unfold no_reserved in Hsafe.
    rewrite Forall_forall in Hsafe.
    apply list_elem_of_In, Hsafe in Hin. congruence. }
  unfold replay_safe_headers.
  rewrite (dict_set_fresh "X-WAF-Bypass-Repeater") by now apply Hfresh.
  rewrite dict_set_fresh.
  2:{ intros Hin. unfold keys in Hin. rewrite map_app in Hin.
      apply in_app_or in Hin as [Hin|[Hin|[]]]; [|discriminate].
      now apply (Hfresh "X-Antigravity-Override"). }
  unfold scan_channel. rewrite !fold_left_app.
  rewrite (scan_fold_plain (safe_part stored)) by assumption.
  cbn [fold_left]. unfold scan_step. cbn [fst snd].
  replace (Str.lower "X-WAF-Bypass-Repeater") with "x-waf-bypass-repeater"
    by reflexivity.
  replace (Str.lower "X-Antigravity-Override") with "x-antigravity-override"
    by reflexivity.
  cbn [String.eqb Ascii.eqb Bool.eqb].
  now destruct (json_loads (json_dumps stored)).
Qed.

End ReplayChannel.

Lemma replay_headers_content_witness :
  dict_get "X-Foo" (@replay_safe_headers demo_runtime stored_headers)
  = Some "bar" /\
  dict_get "Cookie" (@replay_safe_headers demo_runtime stored_headers) = None.
Proof.
  split.
  - exact (@replay_headers_content demo_runtime stored_headers "X-Foo"
             eq_refl).
  - exact (@replay_headers_content demo_runtime stored_headers "Cookie"
             eq_refl).
Defined.

Lemma override_restores_stored_witness :
  exists h,
    apply_channel
      (fst (@scan_channel demo_runtime
              (@replay_safe_headers demo_runtime stored_headers)))
      (snd (@scan_channel demo_runtime
              (@replay_safe_headers demo_runtime stored_headers)))
      (@replay_safe_headers demo_runtime stored_headers) = Ok h /\
    (forall k,
       dict_get k h =
       match dict_get k stored_headers with
       | Some v => Some v
       | None =>
           if is_in (Str.lower k) reserved then None
           else dict_get k (@replay_safe_headers demo_runtime stored_headers)
       end) /\
    (no_reserved stored_headers -> no_reserved h).
Proof.
  apply (@override_restores_stored demo_runtime).
  - exact (proj1 stored_headers_wf).
  - split.
    + vm_compute. do 2 apply Exists_cons_tl. apply Exists_cons_hd.
      reflexivity.
    + vm_compute. repeat constructor; intros Hk; try discriminate Hk.
Defined.

(** A stored header with a reserved name comes back with the override. *)
Lemma stored_reserved_name_returns :
  apply_channel true (true, Some [("X-WAF-Bypass-Repeater", "0")])
    [("X-WAF-Bypass-Repeater", "1"); ("accept", "*/*")]
  = Ok [("accept", "*/*"); ("X-WAF-Bypass-Repeater", "0")].
Proof. vm_compute. reflexivity. Qed.

Lemma replay_headers_decoded_witness :
  @scan_channel demo_runtime (@replay_safe_headers demo_runtime stored_headers)
  = (true, (true, Some stored_headers)).
Proof.
  apply (@replay_headers_decoded demo_runtime).
  vm_compute. repeat constructor.
Defined.

(** ** Project files: names, paths and the store *)

Lemma keep_app (f : ascii -> bool) (a b : string) :
  keep f (a +:+ b) = keep f a +:+ keep f b.
Proof.
  induction a as [|c a IH]; [reflexivity|].
  rewrite StrFacts.app_cons. cbn [keep].
  destruct (f c); [rewrite StrFacts.app_cons|]; now rewrite IH.
Qed.

Lemma all_chars_keep (f : ascii -> bool) (s : string) :
  all_chars f (keep f s) = true.
Proof.
  induction s as [|c s IH]; [reflexivity|]. cbn [keep].
  destruct (f c) eqn:E; [|exact IH]. cbn [all_chars]. now rewrite E.
Qed.

Lemma keep_all (f : ascii -> bool) (s : string) :
  all_chars f s = true -> keep f s = s.
Proof.
  induction s as [|c s IH]; [reflexivity|]. cbn [all_chars keep].
  intros Hs. apply andb_true_iff in Hs as [-> Hs]. now rewrite IH.
Qed.

Lemma all_chars_lstrip (f : ascii -> bool) (s : string) :
  all_chars f s = true -> all_chars f (lstrip s) = true.
Proof.
  induction s as [|c s IH]; [reflexivity|]. cbn [lstrip].
  destruct (Ascii.eqb c " "); [|trivial]. cbn [all_chars].
  intros Hs. apply andb_true_iff in Hs as [_ Hs]. now apply IH.
Qed.

Lemma all_chars_rstrip (f : ascii -> bool) (s : string) :
  all_chars f s = true -> all_chars f (rstrip s) = true.
Proof.
  induction s as [|c s IH]; [reflexivity|]. cbn [all_chars rstrip].
  intros Hs. apply andb_true_iff in Hs as [Hc Hs].
  destruct (Ascii.eqb c " " && Str.is_empty (rstrip s)); [reflexivity|].
  cbn [all_chars]. now rewrite Hc, IH.
Qed.

Lemma lstrip_head (s : string) : String.prefix " " (lstrip s) = false.
Proof.
  induction s as [|c s IH]; [reflexivity|]. cbn [lstrip].
  destruct (Ascii.eqb c " ") eqn:E; [exact IH|].
  rewrite StrFacts.prefix_cons, Ascii.eqb_sym, E. reflexivity.
Qed.

Lemma lstrip_fixed (s : string) :
  String.prefix " " s = false -> lstrip s = s.
Proof.
  destruct s as [|c s]; [reflexivity|].
  rewrite StrFacts.prefix_cons, StrFacts.prefix_nil_l, andb_true_r.
  cbn [lstrip]. rewrite Ascii.eqb_sym. now intros ->.
Qed.

Lemma rstrip_head (s : string) :
  String.prefix " " s = false -> String.prefix " " (rstrip s) = false.
Proof.
  destruct s as [|c s]; [reflexivity|].
  rewrite StrFacts.prefix_cons, StrFacts.prefix_nil_l, andb_true_r.
  intros Hc. cbn [rstrip]. rewrite Ascii.eqb_sym, Hc. cbn [andb].
  rewrite StrFacts.prefix_cons, Hc. reflexivity.
Qed.

Lemma rstrip_last (s : string) : last_char (rstrip s) <> Some " "%char.
Proof.
  induction s as [|c s IH]; [discriminate|]. cbn [rstrip].
  destruct (Ascii.eqb c " ") eqn:Ec; cbn [andb].
  - destruct (rstrip s) as [|c' r] eqn:Er; [discriminate|].
    cbn [Str.is_empty]. exact IH.
  - destruct (rstrip s) as [|c' r] eqn:Er; [|exact IH].
    cbn [last_char]. apply Ascii.eqb_neq in Ec. congruence.
Qed.

Lemma rstrip_idem (s : string) : rstrip (rstrip s) = rstrip s.
Proof.
  induction s as [|c s IH]; [reflexivity|]. cbn [rstrip].
  destruct (Ascii.eqb c " " && Str.is_empty (rstrip s)) eqn:E; [reflexivity|].
  cbn [rstrip]. now rewrite IH, E.
Qed.

Lemma strip_idem (s : string) : strip (strip s) = strip s.
Proof.
  unfold strip. rewrite (lstrip_fixed (rstrip (lstrip s))).
  - apply rstrip_idem.
  - apply rstrip_head, lstrip_head.
Qed.

Lemma app_cancel_l (a x y : string) : a +:+ x = a +:+ y -> x = y.
Proof.
  induction a as [|c a IH]; [trivial|].
  rewrite !StrFacts.app_cons. intros [= Hxy]. now apply IH.
Qed.

Lemma length_app (a b : string) :
  String.length (a +:+ b) = (String.length a + String.length b)%nat.
Proof.
  induction a as [|c a IH]; [reflexivity|].
  rewrite StrFacts.app_cons. cbn [String.length]. now rewrite IH.
Qed.

Lemma app_cancel_r (s x y : string) : x +:+ s = y +:+ s -> x = y.
Proof.
  revert y. induction x as [|c x IH]; intros y Hxy.
  - destruct y as [|d y]; [reflexivity|].
    apply (f_equal String.length) in Hxy.
    rewrite !length_app in Hxy. cbn [String.length] in Hxy. lia.
  - destruct y as [|d y].
    + apply (f_equal String.length) in Hxy.
      rewrite !length_app in Hxy. cbn [String.length] in Hxy. lia.
    + rewrite !StrFacts.app_cons in Hxy. injection Hxy as -> Hxy.
      now rewrite (IH y Hxy).
Qed.

Section ProjectFacts.
Context `{Platform}.

Lemma path_inj (n1 n2 : string) :
  get_project_path n1 = get_project_path n2 <-> safe_name n1 = safe_name n2.
Proof.
  unfold get_project_path. split; [|now intros ->].
  intros Hp. apply app_cancel_l, app_cancel_l in Hp.
  now apply app_cancel_r in Hp.
Qed.

(** X20. The file name of a project is made of letters and digits, spaces,
    hyphens and underscores only, neither begins nor ends with a space, and
    is a name that sanitising leaves as it is. *)
Theorem safe_name_shape (name : string) :
  all_chars allowed (safe_name name) = true /\
  String.prefix " " (safe_name name) = false /\
  last_char (safe_name name) <> Some " "%char /\
  safe_name (safe_name name) = safe_name name.
Proof.
  assert (Hall : all_chars allowed (safe_name name) = true)
    by apply all_chars_rstrip, all_chars_lstrip, all_chars_keep.
  split; [exact Hall|]. split; [apply rstrip_head, lstrip_head|].
  split; [apply rstrip_last|].
  unfold safe_name at 1. rewrite (keep_all _ _ Hall).
  unfold safe_name. apply strip_idem.
Qed.

(** X21. Characters that are not kept are invisible: a name with such a
    character anywhere in it has the file of the name without it. *)
Theorem dropped_chars_collide (a b : string) (c : ascii) :
  allowed c = false ->
  get_project_path (a +:+ String c b) = get_project_path (a +:+ b).
Proof.
  intros Hc. apply path_inj. unfold safe_name.
  rewrite !keep_app. cbn [keep]. now rewrite Hc.
Qed.

(** X22. Saving and loading.  When the file can be written and the codec
    reads back what it wrote, [save_project] succeeds and stamps the project
    with the time of the save; afterwards every name with the same file
    name loads the project as stamped, and names with another file name load
    what they loaded before. *)
Theorem save_then_load (now : string) (project : Project)
    (fs : gmap string string) :
  can_write (get_project_path (pj_name project)) = true ->
  parse (dump (touch now project)) = Some (touch now project) ->
  let '(ok, saved, fs') := save_project now project fs in
  ok = true /\ saved = touch now project /\
  (forall n, safe_name n = safe_name (pj_name project) ->
             load_project n fs' = Some saved) /\
  (forall n, safe_name n <> safe_name (pj_name project) ->
             load_project n fs' = load_project n fs).
Proof.
  intros Hw Hrt. unfold save_project. cbn [touch pj_name]. rewrite Hw.
  split; [reflexivity|]. split; [reflexivity|]. split.
  - intros n Hn. unfold load_project.
    rewrite (proj2 (path_inj n (pj_name project)) Hn), lookup_insert_eq.
    exact Hrt.
  - intros n Hn. unfold load_project.
    rewrite lookup_insert_ne; [reflexivity|].
    intros Hp. apply Hn. symmetry. now apply path_inj.
Qed.

(** X23. Deleting.  [delete_project] returns whether the file was there;
    afterwards no name with the same file name loads anything, and names
    with another file name load what they loaded before. *)
Theorem delete_then_load (name : string) (fs : gmap string string) :
  let '(ok, fs') := delete_project name fs in
  (ok = true <-> is_Some (fs !! get_project_path name)) /\
  (forall n, safe_name n = safe_name name -> load_project n fs' = None) /\
  (forall n, safe_name n <> safe_name name ->
             load_project n fs' = load_project n fs).
Proof.
  unfold delete_project.
  destruct (fs !! get_project_path name) as [text|] eqn:E.
  - split; [split; eauto|]. split.
    + intros n Hn. unfold load_project.
      now rewrite (proj2 (path_inj n name) Hn), lookup_delete_eq.
    + intros n Hn. unfold load_project.
      rewrite lookup_delete_ne; [reflexivity|].
      intros Hp. apply Hn. symmetry. now apply path_inj.
  - split; [split; [discriminate|intros [x Hx]; discriminate]|]. split.
    + intros n Hn. unfold load_project.
      now rewrite (proj2 (path_inj n name) Hn), E.
    + reflexivity.
Qed.

(** X24. Files stay where their names put them.  A store in which every
    readable project file lies at the path of the project's name stays so
    under [save_project], [create_project] and [delete_project], when the
    codec reads back the project that is written. *)
Theorem store_stays_consistent (now now' : string) (name : string)
    (project : Project) (fs : gmap string string) :
  parse (dump (touch now project)) = Some (touch now project) ->
  parse (dump (fst (create_project now now' name fs)))
  = Some (fst (create_project now now' name fs)) ->
  consistent fs ->
  consistent (snd (save_project now project fs)) /\
  consistent (snd (create_project now now' name fs)) /\
  consistent (snd (delete_project name fs)).
Proof.
  intros Hrt Hrt' Hfs.
  assert (Hsave : forall t p,
             parse (dump (touch t p)) = Some (touch t p) ->
             consistent (snd (save_project t p fs))).
  { intros t p Hp. unfold save_project.
    destruct (can_write _); [|exact Hfs]. cbn [snd].
    intros filepath text q Hl Hq.
    destruct (decide (get_project_path (pj_name (touch t p)) = filepath))
      as [<-|Hne].
    - rewrite lookup_insert_eq in Hl. injection Hl as <-.
      rewrite Hp in Hq. now injection Hq as <-.
    - rewrite lookup_insert_ne in Hl by assumption. now apply (Hfs _ text). }
  split; [now apply Hsave|]. split.
  - revert Hrt'. unfold create_project.
    match goal with
    | |- context [save_project now' ?p fs] =>
        specialize (Hsave now' p);
        assert (Hp : (save_project now' p fs).1.2 = touch now' p)
          by (unfold save_project; now destruct (can_write _));
        destruct (save_project now' p fs) as [[ok saved] fs']
    end.
    cbn [fst snd] in *. subst saved. exact Hsave.
  - unfold delete_project.
    destruct (fs !! get_project_path name); [|exact Hfs]. cbn [snd].
    intros filepath text q Hl Hq.
    apply lookup_delete_Some in Hl as [_ Hl]. now apply (Hfs _ text).
Qed.

End ProjectFacts.

Lemma dropped_chars_collide_witness :
  @get_project_path demo_platform ("a" +:+ String "/" "b")
  = @get_project_path demo_platform ("a" +:+ "b").
Proof.
  apply (@dropped_chars_collide demo_platform). reflexivity.
Defined.

Lemma save_then_load_witness :
  @load_project demo_platform "../my project"
    (snd (@save_project demo_platform "2024-05-02"
            {| pj_name := "my project"; pj_created := "2024-05-01";
               pj_lastModified := "2024-05-01";
               pj_targetUrl := "https://example.com";
               pj_matchReplaceRules := []; pj_other := [] |} ∅))
  = Some {| pj_name := "my project"; pj_created := "2024-05-01";
            pj_lastModified := "2024-05-02";
            pj_targetUrl := "https://example.com";
            pj_matchReplaceRules := []; pj_other := [] |}.
Proof.
  pose proof (@save_then_load demo_platform "2024-05-02"
                {| pj_name := "my project"; pj_created := "2024-05-01";
                   pj_lastModified := "2024-05-01";
                   pj_targetUrl := "https://example.com";
                   pj_matchReplaceRules := []; pj_other := [] |} ∅
                eq_refl eq_refl) as Hs.
  destruct (save_project _ _ _) as [[ok saved] fs'].
  destruct Hs as (_ & -> & Hload & _). cbn [snd].
  exact (Hload "../my project" eq_refl).
Defined.

Lemma store_stays_consistent_witness :
  @consistent demo_platform
    (snd (@create_project demo_platform "2024-05-01" "2024-05-02"
            "my project" ∅)).
Proof.
  refine (proj1 (proj2 (@store_stays_consistent demo_platform "2024-05-01"
                          "2024-05-02" "my project"
                          {| pj_name := "my project";
                             pj_created := "2024-05-01";
                             pj_lastModified := "2024-05-01";
                             pj_targetUrl := "https://example.com";
                             pj_matchReplaceRules := []; pj_other := [] |}
                          ∅ _ _ _))).
  - reflexivity.
  - reflexivity.
  - intros filepath text project Hl. rewrite lookup_empty in Hl. discriminate.
Defined.
